(** * di: a lazily constructing dependency-injection container

    A shallow embedding of the [DiContainer] class of [src/di.ts] and of
    [unnamed/part_000], together with the properties of its behaviour.

    The repository holds five revisions of the class.  They share one
    design and differ in what the lazy proxy intercepts and in how names
    are validated:

    - [Variadic]   ([di.ts], lines 113-170): [inject(...classes)], a proxy
      with a [get] trap only, validation by [t[name]];
    - [Batch]      ([unnamed/part_000]): as [Variadic], with the reserved
      names recognised by a regular expression;
    - [Forwarding] ([di.ts], lines 241-338): one descriptor per call (a
      class, or a name and a factory), a proxy with [get],
      [getPrototypeOf], [has] and [ownKeys] traps, [injectContainer]
      installs forwarding getters;
    - [Assigning]  ([di.ts], lines 410-507): as [Forwarding], with
      [injectContainer] copying by [Object.assign] and a shorter [has];
    - [ClassOnly]  ([di.ts], lines 570-624): one class per call, [get]
      trap only.

    The container code is translated function by function.  What it runs
    on is a small model of the host: objects with ordered own properties
    and a prototype, proxies, truthiness and [typeof].  The services that
    a client registers are data: a class or a factory written in a small
    expression language, evaluated with fuel.

    Boundaries of the model.  Built-in prototypes are the standard
    ones and nobody modifies them.  [Object.prototype] has its twelve
    members, the accessor [__proto__] among them: an assignment
    [o.__proto__ = v] that reaches its setter replaces the prototype of
    [o].  The model follows this when [v] is a lazy proxy, which is what
    [inject] assigns; an ordinary object as the new prototype is outside
    it ([Abort Unmodelled]).  Function values are plain functions of the
    current realm without own properties.  Property reads on booleans,
    strings and functions need the wrapper prototypes, which are not
    modelled: such a read ends in [Abort Unmodelled].  So does the call
    [obj.hasOwnProperty(key)] of [Assigning] when that member is a
    function other than the method of [Object.prototype] found on [obj]
    itself: a method that a service defines under this name, or the
    method bound to an instance, which the [get] trap hands out once a
    lazy proxy is the prototype of [obj].
    A constructor or factory stores constants, the container, closures
    and entries of the container in the object it returns, or throws;
    the fields are defined on the new object (field declarations,
    computed keys), not assigned.  It does not use another service while
    it runs (the README asks this of services that depend on each
    other). *)

From Stdlib Require Import String Ascii NArith.
From stdpp Require Import base list strings sorting.

Local Open Scope string_scope.

(** ** Client code: the services a container is given *)

Inductive lit :=
| LUndef
| LNull
| LBool (b : bool)
| LStr (s : string).

(** Expressions of method and closure bodies.  [EThis] is the receiver,
    [EDeps] the container captured by a factory closure. *)
Inductive expr :=
| ELit (l : lit)
| EThis
| EDeps
| EGet (e : expr) (k : string)       (* e.k *)
| ECall (e : expr) (k : string)      (* e.k() *)
| EApply (e : expr)                  (* e() *)
| ECat (e1 e2 : expr).               (* `${e1}${e2}` *)

(** What a constructor or an object literal stores in a field. *)
Inductive init :=
| IDeps                              (* the container it was given *)
| ILit (l : lit)
| IFun (body : expr).                (* a closure over the container *)

(** A service class: [getServiceName()] returns [cls_name]; the
    constructor either throws or stores [cls_fields]. *)
Record class := Class {
  cls_name : string;
  cls_throws : option string;
  cls_fields : list (string * init);
  cls_methods : list (string * expr)
}.

(** The [create] argument of [inject(name, create)]. *)
Inductive factory :=
| FObject (fields : list (string * init))   (* (deps) => ({ ... }) *)
| FValue (l : lit)                          (* (deps) => literal *)
| FThrow (msg : string)
| FHolding (field k : string).              (* (deps) => ({ [field]: deps[k] }) *)

Inductive descriptor :=
| DClass (c : class)
| DFactory (name : string) (create : factory).

Definition desc_name (d : descriptor) : string :=
  match d with
  | DClass c => cls_name c
  | DFactory name _ => name
  end.

(** ** Host values and objects *)

Abbreviation loc := nat (only parsing).

Inductive proto :=
| ProtoObject                        (* Object.prototype *)
| ProtoContainer                     (* DiContainer.prototype *)
| ProtoClass (c : class).            (* C.prototype of a service class *)

Inductive value :=
| VUndef
| VNull
| VBool (b : bool)
| VStr (s : string)
| VRef (l : loc)                     (* container, instance or lazy proxy *)
| VProto (p : proto)
| VClos (body : expr) (deps : value) (* a method or a closure *)
| VBound (f : value) (this : value)  (* f.bind(this) *)
| VNative (name : string).           (* a built-in function *)

Inductive slot :=
| SData (v : value)
| SGetter (other : loc) (k : string).   (* get: () => other[k] *)

(** The closure of one lazy proxy: the descriptor, the container [t] and
    the name it was registered under, the prototype of the proxy target
    and the variable [instance]. *)
Record handle := Handle {
  h_desc : descriptor;
  h_t : loc;
  h_name : string;
  h_target : proto;
  h_instance : value
}.

(** An object of the heap: an ordinary object with one of the
    prototypes above, a lazy proxy, or an ordinary object whose
    prototype an assignment to [__proto__] has replaced by the lazy
    proxy [lazy]. *)
Inductive obj :=
| OOrd (p : proto) (own : list (string * slot))
| OProxy (h : handle)
| OVia (lazy : loc) (own : list (string * slot)).

(** The heap and the log of constructions: [built] lists, oldest first,
    the proxy on whose behalf a constructor or factory was invoked. *)
Record state := State {
  heap : list obj;
  built : list loc
}.

Inductive error :=
| Error (msg : string)
| TypeError (msg : string).

Inductive abort := OutOfFuel | Unmodelled.

Inductive outcome (A : Type) :=
| Ret (a : A) (s : state)
| Thrown (e : error) (s : state)
| Abort (r : abort).
Arguments Ret {A} a s.
Arguments Thrown {A} e s.
Arguments Abort {A} r.

Definition M (A : Type) := state -> outcome A.

Definition ret {A} (a : A) : M A := fun s => Ret a s.
Definition throw {A} (e : error) : M A := fun s => Thrown e s.
Definition abort_with {A} (r : abort) : M A := fun _ => Abort r.
Definition bind {A B} (m : M A) (f : A -> M B) : M B :=
  fun s => match m s with
           | Ret a s' => f a s'
           | Thrown e s' => Thrown e s'
           | Abort r => Abort r
           end.

Declare Scope js_scope.
Delimit Scope js_scope with js.
Notation "x <- m ;; k" := (bind m (fun x => k))
  (at level 100, m at next level, right associativity) : js_scope.
Notation "m ;;; k" := (bind m (fun _ => k))
  (at level 100, right associativity) : js_scope.
Local Open Scope js_scope.

Definition final_state {A} (o : outcome A) : option state :=
  match o with
  | Ret _ s | Thrown _ s => Some s
  | Abort _ => None
  end.

(** ** Truthiness and typeof *)

Definition value_of_lit (l : lit) : value :=
  match l with
  | LUndef => VUndef
  | LNull => VNull
  | LBool b => VBool b
  | LStr s => VStr s
  end.

Definition truthy (v : value) : bool :=
  match v with
  | VUndef | VNull => false
  | VBool b => b
  | VStr s => negb (String.eqb s "")
  | _ => true
  end.

Definition typeof (v : value) : string :=
  match v with
  | VUndef => "undefined"
  | VBool _ => "boolean"
  | VStr _ => "string"
  | VNull | VRef _ | VProto _ => "object"
  | VClos _ _ | VBound _ _ | VNative _ => "function"
  end.

(** ** Own properties, in the order the host enumerates them *)

Fixpoint own_lookup (k : string) (own : list (string * slot)) : option slot :=
  match own with
  | [] => None
  | (k', s) :: rest => if String.eqb k k' then Some s else own_lookup k rest
  end.

(** [obj[k] = v] on own properties: an existing entry keeps its place. *)
Fixpoint own_set (k : string) (s : slot) (own : list (string * slot))
  : list (string * slot) :=
  match own with
  | [] => [(k, s)]
  | (k', s') :: rest =>
      if String.eqb k k' then (k', s) :: rest else (k', s') :: own_set k s rest
  end.

Definition digit_of (a : ascii) : option N :=
  let n := N_of_ascii a in
  if ((48 <=? n) && (n <=? 57))%N then Some (n - 48)%N else None.

Fixpoint digits_value (s : string) (acc : N) : option N :=
  match s with
  | EmptyString => Some acc
  | String a s' =>
      match digit_of a with
      | Some d => digits_value s' (acc * 10 + d)%N
      | None => None
      end
  end.

(** An array index is a canonical decimal numeral below 2^32 - 1. *)
Definition array_index (k : string) : option N :=
  match k with
  | EmptyString => None
  | String a rest =>
      if (Ascii.eqb a "0" && negb (String.eqb rest ""))%bool then None
      else match digits_value k 0 with
           | Some n => if (n <=? 4294967294)%N then Some n else None
           | None => None
           end
  end.

Definition index_le (a b : N * string) : Prop := (a.1 <= b.1)%N.

#[local] Instance index_le_dec : RelDecision index_le.
Proof. intros a b. unfold index_le. apply _. Defined.

Definition indexed (ks : list string) : list (N * string) :=
  omap (fun k => match array_index k with
                 | Some n => Some (n, k)
                 | None => None
                 end) ks.

Definition named (ks : list string) : list string :=
  filter (fun k => array_index k = None) ks.

(** OrdinaryOwnPropertyKeys: array indices ascending, then the other
    keys in creation order.  [Object.keys], [Object.getOwnPropertyNames]
    and [for .. in] all enumerate in this order. *)
Definition own_keys (own : list (string * slot)) : list string :=
  let ks := own.*1 in
  (merge_sort index_le (indexed ks)).*2 ++ named ks.

(** ** Prototypes *)

(** The own properties of [Object.prototype]: eleven methods and the
    accessor [__proto__]. *)
Definition ObjectPrototype_keys : list string :=
  ["constructor"; "__defineGetter__"; "__defineSetter__"; "hasOwnProperty";
   "__lookupGetter__"; "__lookupSetter__"; "isPrototypeOf";
   "propertyIsEnumerable"; "toString"; "valueOf"; "__proto__";
   "toLocaleString"].

Definition ContainerPrototype_keys : list string :=
  ["constructor"; "inject"; "injectContainer"].

Definition mem (k : string) (ks : list string) : bool :=
  existsb (String.eqb k) ks.

Fixpoint assoc {A} (k : string) (l : list (string * A)) : option A :=
  match l with
  | [] => None
  | (k', a) :: rest => if String.eqb k k' then Some a else assoc k rest
  end.

(** What a read of [k] finds on [Object.prototype], for a receiver
    whose prototype is [its_prototype]: the getter of [__proto__]
    answers with the prototype of the receiver. *)
Definition object_member (its_prototype : value) (k : string) : value :=
  if String.eqb k "__proto__" then its_prototype
  else if mem k ObjectPrototype_keys then VNative k else VUndef.

(** The members of a class prototype: [constructor], [getServiceName]
    and the methods of the class body. *)
Definition class_member (c : class) (k : string) : option value :=
  if String.eqb k "constructor" then Some (VNative "constructor")
  else if String.eqb k "getServiceName"
       then Some (VClos (ELit (LStr (cls_name c))) VUndef)
       else match assoc k (cls_methods c) with
            | Some body => Some (VClos body VUndef)
            | None => None
            end.

(** [o[k]] for an object [o] whose prototype is [p] and which has no
    own property [k]: the walk starts at [p] and goes up to
    [Object.prototype]. *)
Definition proto_get (p : proto) (k : string) : value :=
  match p with
  | ProtoObject => object_member (VProto p) k
  | ProtoContainer =>
      if mem k ContainerPrototype_keys then VNative k
      else object_member (VProto p) k
  | ProtoClass c =>
      match class_member c k with
      | Some v => v
      | None => object_member (VProto p) k
      end
  end.

(** [k in p]. *)
Definition proto_has (p : proto) (k : string) : bool :=
  match p with
  | ProtoObject => mem k ObjectPrototype_keys
  | ProtoContainer =>
      mem k ContainerPrototype_keys || mem k ObjectPrototype_keys
  | ProtoClass c =>
      match class_member c k with
      | Some _ => true
      | None => mem k ObjectPrototype_keys
      end
  end.

(** [Object.getPrototypeOf(p)]. *)
Definition proto_parent (p : proto) : value :=
  match p with
  | ProtoObject => VNull
  | ProtoContainer | ProtoClass _ => VProto ProtoObject
  end.

(** [p[k]] for the prototype object [p] itself: here the receiver of
    the getter of [__proto__] is [p]. *)
Definition proto_self_get (p : proto) (k : string) : value :=
  match p with
  | ProtoObject => object_member (proto_parent p) k
  | ProtoContainer =>
      if mem k ContainerPrototype_keys then VNative k
      else object_member (proto_parent p) k
  | ProtoClass c =>
      match class_member c k with
      | Some v => v
      | None => object_member (proto_parent p) k
      end
  end.

(** An assignment [o[k] = v] to an object that has no own property [k]
    goes up the prototype chain that starts at [p].  It meets the
    setter of [__proto__] on [Object.prototype], unless a class
    prototype on the way has a method of that name; every other
    property it meets is a writable data property. *)
Definition meets_setter (p : proto) (k : string) : bool :=
  String.eqb k "__proto__" &&
  match p with
  | ProtoClass c =>
      match class_member c k with
      | Some _ => false
      | None => true
      end
  | ProtoObject | ProtoContainer => true
  end.

(** ** The heap *)

Definition alloc (o : obj) : M loc :=
  fun s => Ret (length (heap s)) (State (heap s ++ [o]) (built s)).

Definition store (l : loc) (o : obj) : M unit :=
  fun s => Ret tt (State (<[l := o]> (heap s)) (built s)).

Definition record_construction (l : loc) : M unit :=
  fun s => Ret tt (State (heap s) (built s ++ [l])).

(** How often the constructor or factory behind proxy [l] has run. *)
Definition constructions (l : loc) (s : state) : nat :=
  length (filter (fun l' => l' = l) (built s)).

Definition empty_state : state := State [] [].

(** [new DiContainer()]. *)
Definition new_container : M loc := alloc (OOrd ProtoContainer []).

(** The setter of [__proto__], called on the object [t] with entries
    [own]: a value that is not an object is ignored; a lazy proxy
    becomes the prototype of [t].  (The walk that looks for a cycle
    stops at a proxy.) *)
Definition set_prototype (t : loc) (own : list (string * slot)) (v : value)
  : M unit :=
  fun s =>
    match v with
    | VUndef | VBool _ | VStr _ => Ret tt s
    | VRef l =>
        match heap s !! l with
        | Some (OProxy _) => store t (OVia l own) s
        | _ => Abort Unmodelled
        end
    | VNull | VProto _ | VClos _ _ | VBound _ _ | VNative _ => Abort Unmodelled
    end.

(** [t[k] = v].  An own data property takes the value; assigning to a
    getter without setter fails, as in strict code.  Without an own
    property the assignment goes up the prototype chain -- through a
    lazy proxy, which has no [set] trap, to its target -- and either
    meets the setter of [__proto__] or ends in a new own property. *)
Definition obj_set (t : loc) (k : string) (v : value) : M unit :=
  fun s =>
    match heap s !! t with
    | Some (OOrd p own) =>
        match own_lookup k own with
        | Some (SGetter _ _) =>
            Thrown (TypeError ("Cannot set property " ++ k)) s
        | Some (SData _) => store t (OOrd p (own_set k (SData v) own)) s
        | None =>
            if meets_setter p k then set_prototype t own v s
            else store t (OOrd p (own_set k (SData v) own)) s
        end
    | Some (OVia lazy own) =>
        match own_lookup k own with
        | Some (SGetter _ _) =>
            Thrown (TypeError ("Cannot set property " ++ k)) s
        | Some (SData _) => store t (OVia lazy (own_set k (SData v) own)) s
        | None =>
            match heap s !! lazy with
            | Some (OProxy h) =>
                if meets_setter (h_target h) k then set_prototype t own v s
                else store t (OVia lazy (own_set k (SData v) own)) s
            | _ => Abort Unmodelled
            end
        end
    | _ => Abort Unmodelled
    end.

(** ** The five revisions *)

Inductive revision := Variadic | Batch | Forwarding | Assigning | ClassOnly.

(** The revisions whose proxy has all four traps. *)
Definition full_traps (r : revision) : bool :=
  match r with
  | Forwarding | Assigning => true
  | Variadic | Batch | ClassOnly => false
  end.

(** ** Construction *)

(** [deps[k]] inside a factory, for an entry that the container holds
    as a data property. *)
Definition entry_of (t : loc) (k : string) : M value :=
  fun s =>
    match heap s !! t with
    | Some (OOrd _ own) | Some (OVia _ own) =>
        match own_lookup k own with
        | Some (SData x) => Ret x s
        | _ => Abort Unmodelled
        end
    | _ => Abort Unmodelled
    end.

Definition init_value (t : loc) (i : init) : value :=
  match i with
  | IDeps => VRef t
  | ILit l => value_of_lit l
  | IFun body => VClos body (VRef t)
  end.

Definition init_fields (t : loc) (fields : list (string * init))
  : list (string * slot) :=
  fold_left (fun own f => own_set f.1 (SData (init_value t f.2)) own) fields [].

(** [new C(t)]. *)
Definition new_class (c : class) (t : loc) : M value :=
  match cls_throws c with
  | Some msg => throw (Error msg)
  | None =>
      l <- alloc (OOrd (ProtoClass c) (init_fields t (cls_fields c))) ;;
      ret (VRef l)
  end.

(** [create(t)]. *)
Definition call_factory (f : factory) (t : loc) : M value :=
  match f with
  | FObject fields =>
      l <- alloc (OOrd ProtoObject (init_fields t fields)) ;;
      ret (VRef l)
  | FValue l => ret (value_of_lit l)
  | FThrow msg => throw (Error msg)
  | FHolding field k =>
      x <- entry_of t k ;;
      l <- alloc (OOrd ProtoObject [(field, SData x)]) ;;
      ret (VRef l)
  end.

Definition create (d : descriptor) (t : loc) : M value :=
  match d with
  | DClass c => new_class c t
  | DFactory _ f => call_factory f t
  end.

Definition with_instance (h : handle) (v : value) : handle :=
  Handle (h_desc h) (h_t h) (h_name h) (h_target h) v.

(** [instance = v] in the closure of proxy [l]. *)
Definition set_instance (l : loc) (v : value) : M unit :=
  fun s =>
    match heap s !! l with
    | Some (OProxy h) => store l (OProxy (with_instance h v)) s
    | _ => Abort Unmodelled
    end.

(** [getInstance()] of the proxy at [l].

    [Forwarding], [Assigning]:
      [if (!instance) instance = create(t); return instance]
    [Variadic], [Batch], [ClassOnly]:
      [instance ||= (t[name] = new dependency(t))] *)
Definition getInstance (r : revision) (l : loc) : M value :=
  fun s =>
    match heap s !! l with
    | Some (OProxy h) =>
        if truthy (h_instance h) then Ret (h_instance h) s
        else (record_construction l ;;;
              v <- create (h_desc h) (h_t h) ;;
              (if full_traps r then ret tt else obj_set (h_t h) (h_name h) v) ;;;
              set_instance l v ;;;
              ret v) s
    | _ => Abort Unmodelled
    end.

(** [Object.getPrototypeOf(v)] for a value that is not a proxy. *)
Definition Object_getPrototypeOf (v : value) : M value :=
  fun s =>
    match v with
    | VUndef | VNull =>
        Thrown (TypeError "Cannot convert undefined or null to object") s
    | VProto p => Ret (proto_parent p) s
    | VRef l =>
        match heap s !! l with
        | Some (OOrd p _) => Ret (VProto p) s
        | Some (OVia lazy _) => Ret (VRef lazy) s
        | _ => Abort Unmodelled
        end
    | _ => Abort Unmodelled
    end.

(** [Object.getPrototypeOf(v)], also behind [instanceof].  A proxy
    without the trap answers with the prototype of its target. *)
Definition js_getPrototypeOf (r : revision) (v : value) : M value :=
  fun s =>
    match v with
    | VRef l =>
        match heap s !! l with
        | Some (OProxy h) =>
            if full_traps r
            then (instance <- getInstance r l ;; Object_getPrototypeOf instance) s
            else Ret (VProto (h_target h)) s
        | _ => Object_getPrototypeOf v s
        end
    | _ => Object_getPrototypeOf v s
    end.

(** The loop of [OrdinaryHasInstance(Function, o)]: it asks [o] for its
    prototype, and that one for its own, until it finds
    [Function.prototype] or the end of the chain.  A built-in prototype
    of the model does not descend from [Function.prototype]; an object
    of the heap is asked in its turn, a lazy proxy through its trap. *)
Fixpoint descends_from_Function (n : nat) (r : revision) (o : value) : M bool :=
  match n with
  | 0 => abort_with OutOfFuel
  | S n' =>
      p <- js_getPrototypeOf r o ;;
      match p with
      | VRef _ => descends_from_Function n' r p
      | _ => ret false
      end
  end.

(** [value instanceof Function]: a function of the model inherits from
    [Function.prototype]; a value that is not an object does not; for
    an object of the heap the prototype chain decides, which is not
    longer than the heap, plus the object that a construction adds. *)
Definition instanceof_Function (r : revision) (v : value) : M bool :=
  match v with
  | VClos _ _ | VBound _ _ | VNative _ => ret true
  | VRef _ => fun s => descends_from_Function (S (S (length (heap s)))) r v s
  | VUndef | VNull | VBool _ | VStr _ | VProto _ => ret false
  end.

(** The test that decides whether the [get] trap binds the value:
    [(typeof value)[0] == "f"], [value instanceof Function] or
    [typeof value == "function"]. *)
Definition is_function (r : revision) (v : value) : M bool :=
  match r with
  | Variadic =>
      ret (match typeof v with
           | String c _ => Ascii.eqb c "f"
           | EmptyString => false
           end)
  | Forwarding => instanceof_Function r v
  | Batch | Assigning | ClassOnly => ret (String.eqb (typeof v) "function")
  end.

(** The [get] trap; [get] reads a property of the instance. *)
Definition get_trap (r : revision) (get : value -> string -> M value)
    (l : loc) (property : string) : M value :=
  instance <- getInstance r l ;;
  value <- get instance property ;;
  bind_it <- is_function r value ;;
  ret (if bind_it : bool then VBound value instance else value).

(** ** Property access *)

(** [v[k]].  A forwarding getter and a proxy re-enter the read on
    another object; [n] bounds the nesting. *)
Fixpoint js_get_n (n : nat) (r : revision) (v : value) (k : string) : M value :=
  match n with
  | 0 => abort_with OutOfFuel
  | S n' =>
      match v with
      | VUndef | VNull =>
          throw (TypeError ("Cannot read properties of " ++ typeof v))
      | VProto p => ret (proto_self_get p k)
      | VRef l =>
          fun s =>
            match heap s !! l with
            | Some (OOrd p own) =>
                match own_lookup k own with
                | Some (SData x) => Ret x s
                | Some (SGetter other k') => js_get_n n' r (VRef other) k' s
                | None => Ret (proto_get p k) s
                end
            | Some (OProxy _) => get_trap r (js_get_n n' r) l k s
            | Some (OVia lazy own) =>
                match own_lookup k own with
                | Some (SData x) => Ret x s
                | Some (SGetter other k') => js_get_n n' r (VRef other) k' s
                | None => get_trap r (js_get_n n' r) lazy k s
                end
            | None => Abort Unmodelled
            end
      | VBool _ | VStr _ | VClos _ _ | VBound _ _ | VNative _ =>
          abort_with Unmodelled
      end
  end.

(** A chain of reads that visits no object twice is not longer than the
    heap, plus the object a construction adds. *)
Definition js_get (r : revision) (v : value) (k : string) : M value :=
  fun s => js_get_n (S (S (length (heap s)))) r v k s.

Definition proto_own (p : proto) (k : string) : bool :=
  match p with
  | ProtoObject => mem k ObjectPrototype_keys
  | ProtoContainer => mem k ContainerPrototype_keys
  | ProtoClass c => match class_member c k with Some _ => true | None => false end
  end.

(** [Object.prototype.hasOwnProperty.call(v, k)].  The target of a proxy
    has no own property. *)
Definition hasOwnProperty (v : value) (k : string) : M bool :=
  fun s =>
    match v with
    | VUndef | VNull =>
        Thrown (TypeError "Cannot convert undefined or null to object") s
    | VProto p => Ret (proto_own p k) s
    | VRef l =>
        match heap s !! l with
        | Some (OOrd _ own) | Some (OVia _ own) =>
            Ret (match own_lookup k own with Some _ => true | None => false end) s
        | Some (OProxy _) => Ret false s
        | None => Abort Unmodelled
        end
    | _ => Abort Unmodelled
    end.

(** The helper [has(obj, key)]:
    [Object.prototype.hasOwnProperty.call(obj, key)] in [Forwarding],
    [obj.hasOwnProperty(key)] in [Assigning], where the method is looked
    up on [obj] itself. *)
Definition has (r : revision) (ob : value) (key : string) : M bool :=
  match r with
  | Assigning =>
      f <- js_get r ob "hasOwnProperty" ;;
      match f with
      | VNative "hasOwnProperty" => hasOwnProperty ob key
      | VClos _ _ | VBound _ _ | VNative _ => abort_with Unmodelled
      | _ => throw (TypeError "obj.hasOwnProperty is not a function")
      end
  | _ => hasOwnProperty ob key
  end.

(** [Object.getOwnPropertyNames(v)] for a value that is not a proxy. *)
Definition Object_getOwnPropertyNames (v : value) : M (list string) :=
  fun s =>
    match v with
    | VUndef | VNull =>
        Thrown (TypeError "Cannot convert undefined or null to object") s
    | VRef l =>
        match heap s !! l with
        | Some (OOrd _ own) | Some (OVia _ own) => Ret (own_keys own) s
        | _ => Abort Unmodelled
        end
    | _ => Abort Unmodelled
    end.

(** ** What a caller can do with an object *)

(** [k in v].  An object whose prototype is a lazy proxy asks the
    proxy for the names it does not have. *)
Definition js_has (r : revision) (v : value) (k : string) : M bool :=
  fun s =>
    match v with
    | VRef l =>
        match heap s !! l with
        | Some (OProxy h) =>
            if full_traps r
            then (instance <- getInstance r l ;; has r instance k) s
            else Ret (proto_has (h_target h) k) s
        | Some (OOrd p own) =>
            Ret (match own_lookup k own with
                 | Some _ => true
                 | None => proto_has p k
                 end) s
        | Some (OVia lazy own) =>
            match own_lookup k own, heap s !! lazy with
            | Some _, _ => Ret true s
            | None, Some (OProxy h) =>
                if full_traps r
                then (instance <- getInstance r lazy ;; has r instance k) s
                else Ret (proto_has (h_target h) k) s
            | None, _ => Abort Unmodelled
            end
        | None => Abort Unmodelled
        end
    | VProto p => Ret (proto_has p k) s
    | _ => Thrown (TypeError "Cannot use 'in' operator") s
    end.

(** [Reflect.ownKeys(v)]. *)
Definition js_ownKeys (r : revision) (v : value) : M (list string) :=
  fun s =>
    match v with
    | VRef l =>
        match heap s !! l with
        | Some (OProxy h) =>
            if full_traps r
            then (instance <- getInstance r l ;;
                  Object_getOwnPropertyNames instance) s
            else Ret [] s
        | _ => Object_getOwnPropertyNames v s
        end
    | _ => Object_getOwnPropertyNames v s
    end.

(** [Object.values(v)]: reads every own enumerable property. *)
Fixpoint read_all (r : revision) (v : value) (ks : list string) : M (list value) :=
  match ks with
  | [] => ret []
  | k :: rest =>
      x <- js_get r v k ;;
      xs <- read_all r v rest ;;
      ret (x :: xs)
  end.

Definition Object_values (r : revision) (v : value) : M (list value) :=
  ks <- Object_getOwnPropertyNames v ;; read_all r v ks.

(** ** Running client code *)

(** Method and closure bodies, with fuel: a body may call itself.  A
    closure made by [IFun] is treated as a [function] expression. *)
Fixpoint eval (fuel : nat) (r : revision) (e : expr) (this deps : value)
  : M value :=
  match fuel with
  | 0 => abort_with OutOfFuel
  | S fuel' =>
      match e with
      | ELit l => ret (value_of_lit l)
      | EThis => ret this
      | EDeps => ret deps
      | EGet e1 k =>
          o <- eval fuel' r e1 this deps ;;
          js_get r o k
      | ECall e1 k =>
          o <- eval fuel' r e1 this deps ;;
          f <- js_get r o k ;;
          call fuel' r f o
      | EApply e1 =>
          f <- eval fuel' r e1 this deps ;;
          call fuel' r f VUndef
      | ECat e1 e2 =>
          a <- eval fuel' r e1 this deps ;;
          b <- eval fuel' r e2 this deps ;;
          match a, b with
          | VStr x, VStr y => ret (VStr (x ++ y))
          | _, _ => abort_with Unmodelled
          end
      end
  end
with call (fuel : nat) (r : revision) (f this : value) : M value :=
  match fuel with
  | 0 => abort_with OutOfFuel
  | S fuel' =>
      match f with
      | VClos body deps => eval fuel' r body this deps
      | VBound g bound => call fuel' r g bound
      | VNative _ => abort_with Unmodelled
      | _ => throw (TypeError "not a function")
      end
  end.

(** ** Registration *)

(** The test that chooses between "Reserv" and "Duplicat":
    [name in DiContainer.prototype] in [Variadic],
    [/^inject(Container|All)?$/] in [Batch],
    [/^inject(Container)?$/] in [ClassOnly]. *)
Definition reserved_test (r : revision) (name : string) : bool :=
  match r with
  | Variadic => proto_has ProtoContainer name
  | Batch => mem name ["inject"; "injectContainer"; "injectAll"]
  | _ => mem name ["inject"; "injectContainer"]
  end.

(** One round of the [reduce] of [Variadic] and [Batch], and the whole
    of [inject] in [ClassOnly]:

      [if (t[name]) throw Error((test ? "Reserv" : "Duplicat")
                                + "ed service name: " + name);
       t[name] = new Proxy(Object.create(prototype), { get });
       return t] *)
Definition inject_class (r : revision) (t : loc) (dependency : class) : M loc :=
  let prototype := ProtoClass dependency in
  let name := cls_name dependency in
  existing <- js_get r (VRef t) name ;;
  if truthy existing
  then throw (Error ((if reserved_test r name then "Reserv" else "Duplicat")
                     ++ "ed service name: " ++ name))
  else
    lazy <- alloc (OProxy (Handle (DClass dependency) t name prototype VUndef)) ;;
    obj_set t name (VRef lazy) ;;;
    ret t.

(** [dependencies.reduce((t, dependency) => ..., this)]. *)
Fixpoint inject_all (r : revision) (t : loc) (dependencies : list class) : M loc :=
  match dependencies with
  | [] => ret t
  | dependency :: rest =>
      t' <- inject_class r t dependency ;;
      inject_all r t' rest
  end.

Definition ReservedFields : list string := ["inject"; "injectContainer"].

(** [fail(message)]. *)
Definition fail {A} (message : string) : M A := throw (Error message).

(** [inject] of [Forwarding] and [Assigning]: the proxy is made first,
    then the name is checked, then the proxy is installed. *)
Definition inject_one (r : revision) (this : loc) (d : descriptor) : M loc :=
  let name := desc_name d in
  lazy <- alloc (OProxy (Handle d this name ProtoObject VUndef)) ;;
  (if mem name ReservedFields
   then fail ("Reserved field name: " ++ name)
   else ret tt) ;;;
  dup <- has r (VRef this) name ;;
  (if dup : bool
   then fail ("Duplicate service name: " ++ name)
   else ret tt) ;;;
  obj_set this name (VRef lazy) ;;;
  ret this.

(** ** Merging *)

(** [xs.forEach(f)]. *)
Fixpoint for_each {A} (xs : list A) (f : A -> M unit) : M unit :=
  match xs with
  | [] => ret tt
  | x :: rest => f x ;;; for_each rest f
  end.

(** [Object.keys(v)]: every own property of the objects of the model is
    enumerable.  [for (key in v)], which [Variadic], [Batch] and
    [ClassOnly] use, goes through the same keys: what an object
    inherits from a built-in prototype is not enumerable, and a proxy
    of these revisions, as a prototype, shows the properties of its
    target, which has none of its own. *)
Definition Object_keys (v : value) : M (list string) :=
  Object_getOwnPropertyNames v.

(** [eachOwn(obj, callback)] of [Forwarding]. *)
Definition eachOwn (ob : value) (callback : string -> M unit) : M unit :=
  ks <- Object_keys ob ;; for_each ks callback.

(** [keys(obj)] of [Assigning]. *)
Definition keys (ob : value) : M (list string) := Object_getOwnPropertyNames ob.

(** [Object.defineProperty(t, key, { enumerable: true, get: () => other[key] })].
    An accessor defined this way is not configurable. *)
Definition define_getter (t : loc) (key : string) (other : loc) : M unit :=
  fun s =>
    match heap s !! t with
    | Some (OOrd p own) =>
        match own_lookup key own with
        | Some (SGetter _ _) =>
            Thrown (TypeError ("Cannot redefine property: " ++ key)) s
        | _ => store t (OOrd p (own_set key (SGetter other key) own)) s
        end
    | Some (OVia lazy own) =>
        match own_lookup key own with
        | Some (SGetter _ _) =>
            Thrown (TypeError ("Cannot redefine property: " ++ key)) s
        | _ => store t (OVia lazy (own_set key (SGetter other key) own)) s
        end
    | _ => Abort Unmodelled
    end.

(** The test of the collision check that opens [injectContainer]:
    [this[key]] in [Variadic], [key in this] in [Batch] and [ClassOnly],
    [has(this, key)] in [Forwarding] and [Assigning]. *)
Definition collides (r : revision) (this : loc) (key : string) : M bool :=
  match r with
  | Variadic => v <- js_get r (VRef this) key ;; ret (truthy v)
  | Batch | ClassOnly => js_has r (VRef this) key
  | Forwarding | Assigning => has r (VRef this) key
  end.

(** The body of the checking loop. *)
Definition check_key (r : revision) (this : loc) (key : string) : M unit :=
  dup <- collides r this key ;;
  if dup : bool
  then fail ("Containers have duplicated keys: " ++ key)
  else ret tt.

Abbreviation check_keys r this ks := (for_each ks (check_key r this)).

(** [Object.assign(this, other)]. *)
Definition Object_assign (r : revision) (this other : loc) : M unit :=
  ks <- Object_keys (VRef other) ;;
  for_each ks (fun key =>
    v <- js_get r (VRef other) key ;;
    obj_set this key v).

(** [injectContainer].  All keys of [other] are checked before anything
    is copied.

    [Forwarding]:
      [eachOwn(other, key => { if (has(this, key)) fail(...) });
       eachOwn(other, key => Object.defineProperty(this, key, ...));
       return this]
    [Assigning]:
      [keys(other).forEach(key => { if (has(this, key)) fail(...) });
       Object.assign(this, other); return this]
    [Variadic], [Batch], [ClassOnly]:
      [for (let key in other) { if (...) throw Error(...) }
       return Object.assign(this, other)] *)
Definition injectContainer (r : revision) (this other : loc) : M loc :=
  match r with
  | Forwarding =>
      eachOwn (VRef other) (check_key r this) ;;;
      eachOwn (VRef other) (fun key => define_getter this key other) ;;;
      ret this
  | Assigning =>
      ks <- keys (VRef other) ;;
      check_keys r this ks ;;;
      Object_assign r this other ;;;
      ret this
  | Variadic | Batch | ClassOnly =>
      ks <- Object_keys (VRef other) ;;
      check_keys r this ks ;;;
      Object_assign r this other ;;;
      ret this
  end.

(** ** Interactions with a handle *)

Inductive interaction :=
| PropertyRead (k : string)          (* handle.k *)
| MethodCall (k : string)            (* handle.k() *)
| PrototypeQuery                     (* Object.getPrototypeOf(handle), instanceof *)
| MembershipTest (k : string).       (* k in handle *)

Definition interact (fuel : nat) (r : revision) (l : loc) (i : interaction)
  : M value :=
  match i with
  | PropertyRead k => js_get r (VRef l) k
  | MethodCall k => f <- js_get r (VRef l) k ;; call fuel r f (VRef l)
  | PrototypeQuery => js_getPrototypeOf r (VRef l)
  | MembershipTest k => b <- js_has r (VRef l) k ;; ret (VBool b)
  end.

(** A caller that goes on after an exception. *)
Fixpoint interactions (fuel : nat) (r : revision) (l : loc)
    (acts : list interaction) (s : state) : option state :=
  match acts with
  | [] => Some s
  | i :: rest =>
      match final_state (interact fuel r l i s) with
      | Some s' => interactions fuel r l rest s'
      | None => None
      end
  end.

(** The interactions that reach [getInstance] in revision [r]. *)
Definition triggers (r : revision) (i : interaction) : bool :=
  match i with
  | PropertyRead _ | MethodCall _ => true
  | PrototypeQuery | MembershipTest _ => full_traps r
  end.

(** ** Services and programs used in the examples *)

Definition ServiceA : class :=
  Class "a" None [] [("getValue", ELit (LStr "A"))].

Definition ServiceB : class :=
  Class "b" None [("deps", IDeps)]
    [("getValue",
      ECat (ELit (LStr "B")) (ECall (EGet (EGet EThis "deps") "a") "getValue"))].

Definition ServiceC : class :=
  Class "c" None [("deps", IDeps)]
    [("getValue",
      ECat (ELit (LStr "C"))
        (ECat (ECall (EGet (EGet EThis "deps") "a") "getValue")
              (ECall (EGet (EGet EThis "deps") "b") "getValue")))].

Definition LazyService : class :=
  Class "lazy" None [] [("foo", ELit (LStr "bar"))].

(** A class whose name is that of a container method. *)
Definition InjectService : class := Class "inject" None [] [].

(** A service with a field and a method that reads it. *)
Definition Greeter : class :=
  Class "greeter" None [("greeting", ILit (LStr "hello"))]
    [("greet", EGet EThis "greeting")].

(** [new DiContainer().inject(ServiceC, ServiceA, ServiceB).c.getValue()]. *)
Definition caba (r : revision) (fuel : nat) : M value :=
  c <- new_container ;;
  c' <- inject_all r c [ServiceC; ServiceA; ServiceB] ;;
  eval fuel r (ECall (EGet EDeps "c") "getValue") VUndef (VRef c').

(** [new DiContainer().inject("hasOwnProperty", () => ({}))] as target,
    [new DiContainer().inject(ServiceA)] as source, then
    [target.injectContainer(source)]. *)
Definition merge_into_shadowed : M loc :=
  target <- new_container ;;
  target <- inject_one Assigning target (DFactory "hasOwnProperty" (FObject [])) ;;
  source <- new_container ;;
  source <- inject_one Assigning source (DClass ServiceA) ;;
  injectContainer Assigning target source.

(** The same with a second service, named [a], in the target. *)
Definition merge_colliding_into_shadowed : M loc :=
  target <- new_container ;;
  target <- inject_one Assigning target (DClass ServiceA) ;;
  target <- inject_one Assigning target (DFactory "hasOwnProperty" (FObject [])) ;;
  source <- new_container ;;
  source <- inject_one Assigning source (DClass ServiceA) ;;
  injectContainer Assigning target source.

(** The same merges in [Forwarding]. *)
Definition merge_into_shadowed_Forwarding : M loc :=
  target <- new_container ;;
  target <- inject_one Forwarding target (DFactory "hasOwnProperty" (FObject [])) ;;
  source <- new_container ;;
  source <- inject_one Forwarding source (DClass ServiceA) ;;
  injectContainer Forwarding target source.

(** The services of the README section on circular dependencies:
    [doA] calls [this.di.b.doB()], and [b] holds the container too. *)
Definition CircularA : class :=
  Class "a" None [("di", IDeps)]
    [("doA", ECat (ELit (LStr "A")) (ECall (EGet (EGet EThis "di") "b") "doB"))].

Definition CircularB : class :=
  Class "b" None [("di", IDeps)] [("doB", ELit (LStr "B"))].

(** [new DiContainer().inject(...classes).a.doA()]. *)
Definition circular (r : revision) (classes : list class) (fuel : nat) : M value :=
  c <- new_container ;;
  c <- inject_all r c classes ;;
  eval fuel r (ECall (EGet EDeps "a") "doA") VUndef (VRef c).

(** The test "should allow function-based service to depend on other
    services":
    [new DiContainer()
       .inject("config", () => ({ apiUrl: "https://api.example.com" }))
       .inject("apiClient", (deps) => ({ get: () => `${deps.config.apiUrl}/users` }))
       .apiClient.get()]. *)
Definition api_client (r : revision) (fuel : nat) : M value :=
  c <- new_container ;;
  c <- inject_one r c
         (DFactory "config"
            (FObject [("apiUrl", ILit (LStr "https://api.example.com"))])) ;;
  c <- inject_one r c
         (DFactory "apiClient"
            (FObject [("get", IFun (ECat (EGet (EGet EDeps "config") "apiUrl")
                                         (ELit (LStr "/users"))))])) ;;
  eval fuel r (ECall (EGet EDeps "apiClient") "get") VUndef (VRef c).

(** The test "should not construct service on container field access":
    the handle is taken, then [foo()] is called on it twice; the result
    lists the construction counts after each step and the two values. *)
Definition lazy_construction (r : revision) (fuel : nat)
  : M (nat * nat * nat * value * value) :=
  c <- new_container ;;
  c <- inject_one r c (DClass LazyService) ;;
  handle <- js_get r (VRef c) "lazy" ;;
  match handle with
  | VRef l =>
      fun s0 =>
        (x <- interact fuel r l (MethodCall "foo") ;;
         fun s1 =>
           (y <- interact fuel r l (MethodCall "foo") ;;
            fun s2 =>
              Ret (constructions l s0, constructions l s1, constructions l s2, x, y)
                  s2) s1) s0
  | _ => abort_with Unmodelled
  end.

(** [new DiContainer().inject(ServiceA)
         .inject("hasOwnProperty", () => ({})).inject(ServiceA)]: the
    name [a] is registered a second time. *)
Definition duplicate_after_shadowing (r : revision) : M loc :=
  c <- new_container ;;
  c <- inject_one r c (DClass ServiceA) ;;
  c <- inject_one r c (DFactory "hasOwnProperty" (FObject [])) ;;
  inject_one r c (DClass ServiceA).

(** [new DiContainer().inject("__proto__", () => ({}))], and then the
    read [container.__proto__]. *)
Definition proto_service : descriptor := DFactory "__proto__" (FObject []).

Definition register_proto_service (r : revision) : M loc :=
  c <- new_container ;;
  inject_one r c proto_service.

Definition retrieve_proto_service (r : revision) : M value :=
  c <- register_proto_service r ;;
  js_get r (VRef c) "__proto__".

(** A class whose constructor throws. *)
Definition Broken : class := Class "broken" (Some "boom") [] [].

(** [new DiContainer().inject(C)
         .inject("holder", (di) => ({ dep: di[name] })).holder.dep],
    where [name] is the name of the class [C]: the service [holder]
    keeps the handle of another service in a field, and the field is
    read through the handle of [holder]. *)
Definition held_handle (r : revision) (c : class) : M value :=
  t <- new_container ;;
  t <- inject_one r t (DClass c) ;;
  t <- inject_one r t (DFactory "holder" (FHolding "dep" (cls_name c))) ;;
  holder <- js_get r (VRef t) "holder" ;;
  js_get r holder "dep".

(** The test "should return error type when merging containers with
    duplicated keys": [c1.injectContainer(c2)], both holding [a]. *)
Definition merge_duplicates (r : revision) : M loc :=
  c1 <- new_container ;;
  c1 <- inject_all r c1 [ServiceA] ;;
  c2 <- new_container ;;
  c2 <- inject_all r c2 [ServiceA] ;;
  injectContainer r c1 c2.

(** ** The operations of a program that uses a container *)

(** The operations of a program that uses a [Forwarding] container. *)
Inductive operation :=
| Inject (t : loc) (d : descriptor)            (* t.inject(d) *)
| InjectContainer (t other : loc)              (* t.injectContainer(other) *)
| Read (v : value) (k : string)                (* v[k] *)
| In (v : value) (k : string)                  (* k in v *)
| GetPrototypeOf (v : value)
| OwnKeys (v : value)
| Values (v : value)                           (* Object.values(v) *)
| Invoke (f this : value).                     (* f.call(this) *)

Definition perform (fuel : nat) (op : operation) (s : state) : option state :=
  match op with
  | Inject t d => final_state (inject_one Forwarding t d s)
  | InjectContainer t other => final_state (injectContainer Forwarding t other s)
  | Read v k => final_state (js_get Forwarding v k s)
  | In v k => final_state (js_has Forwarding v k s)
  | GetPrototypeOf v => final_state (js_getPrototypeOf Forwarding v s)
  | OwnKeys v => final_state (js_ownKeys Forwarding v s)
  | Values v => final_state (Object_values Forwarding v s)
  | Invoke f this => final_state (call fuel Forwarding f this s)
  end.

Fixpoint perform_all (fuel : nat) (ops : list operation) (s : state)
  : option state :=
  match ops with
  | [] => Some s
  | op :: rest =>
      match perform fuel op s with
      | Some s' => perform_all fuel rest s'
      | None => None
      end
  end.

(** ** How a state may evolve

    [evolves r s s'] bounds what any operation of revision [r] does to
    the objects that exist in [s]: an object that has entries keeps its
    keys, and its prototype unless an assignment to [__proto__] puts a
    lazy proxy in its place; a getter stays what it is, a data property
    keeps its value when the proxies of [r] have all four traps (the
    other revisions write the instance into the container); a proxy
    changes in its variable [instance] only, and once that variable is
    truthy neither it nor the number of constructions changes. *)

Definition slot_kept (r : revision) (a b : slot) : Prop :=
  match a with
  | SGetter _ _ => b = a
  | SData _ => if full_traps r then b = a else ∃ v', b = SData v'
  end.

(** The own properties of an object that is not a proxy. *)
Definition entries (o : obj) : option (list (string * slot)) :=
  match o with
  | OOrd _ own | OVia _ own => Some own
  | OProxy _ => None
  end.

(** The prototype of [o'] is that of [o], or a lazy proxy that has
    taken its place. *)
Definition prototype_kept (o o' : obj) : Prop :=
  match o, o' with
  | OOrd p _, OOrd p' _ => p' = p
  | (OOrd _ _ | OVia _ _), OVia _ _ => True
  | _, _ => False
  end.

Record evolves (r : revision) (s s' : state) : Prop := Evolves {
  ev_ord : ∀ l o own, heap s !! l = Some o → entries o = Some own →
    ∃ o' own', heap s' !! l = Some o' ∧ entries o' = Some own' ∧
      prototype_kept o o' ∧
      ∀ k a, own_lookup k own = Some a →
        ∃ b, own_lookup k own' = Some b ∧ slot_kept r a b;
  ev_proxy : ∀ l h, heap s !! l = Some (OProxy h) →
    ∃ v, heap s' !! l = Some (OProxy (with_instance h v)) ∧
      (truthy (h_instance h) = true →
         v = h_instance h ∧ constructions l s' = constructions l s)
}.

(** An operation is [sound] when every state it ends in evolves from
    the state it started in, and [pure] when it ends where it started. *)
Definition sound {A} (r : revision) (m : M A) : Prop :=
  ∀ s s', final_state (m s) = Some s' → evolves r s s'.

Definition pure {A} (m : M A) : Prop :=
  ∀ s s', final_state (m s) = Some s' → s' = s.

(** ** Conditions on containers and states *)

(** A container whose entries are all data properties, as every
    container of [Variadic], [Batch] and [ClassOnly] is. *)
Definition plain (own : list (string * slot)) : Prop :=
  ∀ k o k', own_lookup k own ≠ Some (SGetter o k').

(** Every logged construction belongs to an object of the heap. *)
Definition log_ok (s : state) : Prop :=
  Forall (fun l => l < length (heap s)) (built s).

(** Every forwarding getter leads to an ordinary object. *)
Definition getters_closed (s : state) : Prop :=
  ∀ l p own k o k', heap s !! l = Some (OOrd p own) →
    own_lookup k own = Some (SGetter o k') →
    ∃ p' own', heap s !! o = Some (OOrd p' own').

(** ** The states that registration and construction produce *)

(** The proxy that [inject] makes for class [c] in container [t]. *)
Definition fresh_proxy (t : loc) (c : class) : handle :=
  Handle (DClass c) t (cls_name c) (ProtoClass c) VUndef.

Definition lazy_proxy (t : loc) (d : descriptor) : handle :=
  Handle d t (desc_name d) ProtoObject VUndef.

Definition rejection (r : revision) (name : string) : error :=
  Error ((if reserved_test r name then "Reserv" else "Duplicat")
         ++ "ed service name: " ++ name).

(** The state after a successful registration of [c]. *)
Definition installed_state (s : state) (t : loc) (p : proto)
    (own : list (string * slot)) (c : class) : state :=
  State (<[t := OOrd p (own_set (cls_name c) (SData (VRef (length (heap s)))) own)]>
           (heap s ++ [OProxy (fresh_proxy t c)])%list)
        (built s).

(** Entry [name] of container [t] is the untouched proxy of class [c]. *)
Definition holds_proxy (s : state) (t : loc) (c : class) (lazy : loc) : Prop :=
  ∃ p own, heap s !! t = Some (OOrd p own) ∧
    own_lookup (cls_name c) own = Some (SData (VRef lazy)) ∧
    heap s !! lazy = Some (OProxy (fresh_proxy t c)).

(** The state after [inject] has assigned the proxy of [d] to
    [t.__proto__]: no entry is installed, the proxy is the prototype of
    the container. *)
Definition replaced_state (s : state) (t : loc) (own : list (string * slot))
    (d : descriptor) : state :=
  State (<[t := OVia (length (heap s)) own]>
           (heap s ++ [OProxy (lazy_proxy t d)])%list)
        (built s).

(** The state in which [inject] throws: the proxy it made is garbage. *)
Definition rejected_state (s : state) (t : loc) (d : descriptor) : state :=
  State (heap s ++ [OProxy (lazy_proxy t d)])%list (built s).

Definition registered_state (s : state) (t : loc) (p : proto)
    (own : list (string * slot)) (d : descriptor) : state :=
  State (<[t := OOrd p (own_set (desc_name d) (SData (VRef (length (heap s)))) own)]>
           (heap s ++ [OProxy (lazy_proxy t d)])%list)
        (built s).

(** The object that [create] allocates, when it allocates one. *)
Definition makes_object (d : descriptor) (t : loc)
  : option (proto * list (string * slot)) :=
  match d with
  | DClass c =>
      match cls_throws c with
      | Some _ => None
      | None => Some (ProtoClass c, init_fields t (cls_fields c))
      end
  | DFactory _ (FObject fields) => Some (ProtoObject, init_fields t fields)
  | DFactory _ _ => None
  end.

(** [obj[k]] for an object without getters. *)
Definition member (p : proto) (own : list (string * slot)) (k : string) : value :=
  match own_lookup k own with
  | Some (SData x) => x
  | _ => proto_get p k
  end.

(** [value.bind(instance)] for a function, the value itself otherwise. *)
Definition bound_if_function (x inst : value) : value :=
  if String.eqb (typeof x) "function" then VBound x inst else x.

(** Where the revision writes the instance into the container. *)
Definition write_through (r : revision) (t : loc) (name : string) (v : value)
    (hp : list obj) : list obj :=
  if full_traps r then hp
  else match hp !! t with
       | Some (OOrd pt ownt) => <[t := OOrd pt (own_set name (SData v) ownt)]> hp
       | _ => hp
       end.

(** The state after the construction behind proxy [l], when [create]
    allocates the object [OOrd p own]. *)
Definition constructed_state (r : revision) (s : state) (l : loc) (h : handle)
    (p : proto) (own : list (string * slot)) : state :=
  let i := length (heap s) in
  State (<[l := OProxy (with_instance h (VRef i))]>
           (write_through r (h_t h) (h_name h) (VRef i)
              (heap s ++ [OOrd p own])%list))
        (built s ++ [l])%list.

(** The container of a proxy can take the instance: every revision
    whose proxy has all traps, and otherwise a container with data
    properties only. *)
Definition ready (r : revision) (s : state) (h : handle) : Prop :=
  full_traps r = true ∨
  ∃ pt ownt, heap s !! h_t h = Some (OOrd pt ownt) ∧ plain ownt.

(** The write [t[name] = instance] of [getInstance] in [Variadic],
    [Batch] and [ClassOnly] fills an entry: the container has the
    entry, as it has for every proxy it has registered, or the name is
    not one that meets the setter of [__proto__]. *)
Definition takes_entry (r : revision) (s : state) (h : handle) : Prop :=
  full_traps r = false →
  ∀ pt ownt, heap s !! h_t h = Some (OOrd pt ownt) →
    own_lookup (h_name h) ownt = None → meets_setter pt (h_name h) = false.

(** The value [v] is not the handle of a service, nor an object whose
    prototype is one: the test [value instanceof Function] of
    [Forwarding] decides about it without asking a lazy proxy. *)
Definition inert (r : revision) (s : state) (v : value) : Prop :=
  r = Forwarding →
  ∀ l, v = VRef l → ∃ p own, heap s !! l = Some (OOrd p own).

(** The entries of the target after the getters for [ks] are defined. *)
Definition with_getters (other : loc) (ks : list string)
    (own : list (string * slot)) : list (string * slot) :=
  fold_left (fun own k => own_set k (SGetter other k) own) ks own.

(** The entries of the target after [Object.assign] has copied [ks]. *)
Definition with_copies (p : proto) (owno : list (string * slot))
    (ks : list string) (own : list (string * slot)) : list (string * slot) :=
  fold_left (fun own k => own_set k (SData (member p owno k)) own) ks own.

(** ** Example states *)

(** The container after [new DiContainer().inject(ServiceA)] in the
    revisions that register classes. *)
Definition with_ServiceA : state :=
  installed_state (State [OOrd ProtoContainer []] []) 0 ProtoContainer [] ServiceA.

(** The container after [new DiContainer().inject(LazyService)]: in the
    revisions that register classes, and in [Forwarding]. *)
Definition with_LazyService : state :=
  installed_state (State [OOrd ProtoContainer []] []) 0 ProtoContainer []
    LazyService.

Definition lazy_registered : state :=
  registered_state (State [OOrd ProtoContainer []] []) 0 ProtoContainer []
    (DClass LazyService).

(** A container of [Forwarding] whose service [greeter] has been used:
    the container, the proxy and the instance. *)
Definition greeter_used : state :=
  State [OOrd ProtoContainer [("greeter", SData (VRef 1))];
         OProxy (Handle (DClass Greeter) 0 "greeter" ProtoObject (VRef 2));
         OOrd (ProtoClass Greeter) [("greeting", SData (VStr "hello"))]]
        [1].

(** ** The states that whole calls produce *)

(** The entries installed for [names], when the proxy of the first name
    is the object at [base] and the others follow it. *)
Definition entries_at (base : nat) (names : list string) : list (string * slot) :=
  imap (fun i name => (name, SData (VRef (base + i)))) names.

(** The state after [inject(...dependencies)] has installed every class
    of the call in container [t]. *)
Definition installed_all (s : state) (t : loc) (p : proto)
    (own : list (string * slot)) (dependencies : list class) : state :=
  State (<[t := OOrd p (own ++ entries_at (length (heap s))
                                  (cls_name <$> dependencies))]>
           (heap s ++ ((fun c => OProxy (fresh_proxy t c)) <$> dependencies))%list)
        (built s).

(** What [inject] of [Forwarding] and [Assigning] comes to, for a
    container with the entries [own]: the reserved names are refused,
    then the names the container has; a new name is installed, unless
    the assignment meets the setter of [__proto__]. *)
Definition inject_one_outcome (s : state) (t : loc) (p : proto)
    (own : list (string * slot)) (d : descriptor) : outcome loc :=
  if mem (desc_name d) ReservedFields
  then Thrown (Error ("Reserved field name: " ++ desc_name d)) (rejected_state s t d)
  else match own_lookup (desc_name d) own with
       | Some _ => Thrown (Error ("Duplicate service name: " ++ desc_name d))
                     (rejected_state s t d)
       | None => Ret t (if meets_setter p (desc_name d)
                        then replaced_state s t own d
                        else registered_state s t p own d)
       end.

(** The message with which [create] throws, when it does. *)
Definition throws (d : descriptor) : option string :=
  match d with
  | DClass c => cls_throws c
  | DFactory _ (FThrow msg) => Some msg
  | DFactory _ _ => None
  end.

(** How many of the interactions reach [getInstance]. *)
Definition triggering (r : revision) (acts : list interaction) : nat :=
  length (filter (fun i => triggers r i = true) acts).

(** The instance behind the proxy [l], whose closure is [h] in state
    [s]: either [instance] is the object [i] already, or it is falsy
    and [getInstance] constructs the object [i] now; [s'] is the state
    after [getInstance]. *)
Definition getInstance_gives (r : revision) (s : state) (l : loc) (h : handle)
    (p : proto) (own : list (string * slot)) (i : loc) (s' : state) : Prop :=
  (h_instance h = VRef i ∧ heap s !! i = Some (OOrd p own) ∧ s' = s) ∨
  (truthy (h_instance h) = false ∧
   makes_object (h_desc h) (h_t h) = Some (p, own) ∧ ready r s h ∧
   i = length (heap s) ∧ s' = constructed_state r s l h p own).

(** [k] is an own property. *)
Definition has_own (own : list (string * slot)) (k : string) : bool :=
  match own_lookup k own with
  | Some _ => true
  | None => false
  end.

(** [t.inject(d1).inject(d2)...]: the calls of [Forwarding] and
    [Assigning] chained, each on the container the previous one
    returned. *)
Fixpoint inject_each (r : revision) (t : loc) (ds : list descriptor) : M loc :=
  match ds with
  | [] => ret t
  | d :: rest =>
      t' <- inject_one r t d ;;
      inject_each r t' rest
  end.

(** The state after such a chain has installed every descriptor. *)
Definition registered_all (s : state) (t : loc) (p : proto)
    (own : list (string * slot)) (ds : list descriptor) : state :=
  State (<[t := OOrd p (own ++ entries_at (length (heap s)) (desc_name <$> ds))]>
           (heap s ++ ((fun d => OProxy (lazy_proxy t d)) <$> ds))%list)
        (built s).

(** ** Programs, in any revision *)

(** What a program does with containers and services. *)
Inductive action :=
| Register (t : loc) (ds : list descriptor)      (* t.inject(...ds) *)
| Merge (t other : loc)                          (* t.injectContainer(other) *)
| Get (v : value) (k : string)                   (* v[k] *)
| Test (v : value) (k : string)                  (* k in v *)
| PrototypeOf (v : value)
| KeysOf (v : value)
| ValuesOf (v : value)                           (* Object.values(v) *)
| Apply (f this : value).                        (* f.call(this) *)

Definition class_of (d : descriptor) : option class :=
  match d with
  | DClass c => Some c
  | DFactory _ _ => None
  end.

(** [t.inject(...)] as its signature admits it: any number of classes
    in [Variadic] and [Batch], one class in [ClassOnly], one class or
    one name with its factory in [Forwarding] and [Assigning]. *)
Definition inject (r : revision) (t : loc) (ds : list descriptor) : M loc :=
  match r with
  | Variadic | Batch =>
      match mapM class_of ds with
      | Some classes => inject_all r t classes
      | None => abort_with Unmodelled
      end
  | ClassOnly =>
      match ds with
      | [DClass c] => inject_class r t c
      | _ => abort_with Unmodelled
      end
  | Forwarding | Assigning =>
      match ds with
      | [d] => inject_one r t d
      | _ => abort_with Unmodelled
      end
  end.

Definition act (fuel : nat) (r : revision) (a : action) (s : state)
  : option state :=
  match a with
  | Register t ds => final_state (inject r t ds s)
  | Merge t other => final_state (injectContainer r t other s)
  | Get v k => final_state (js_get r v k s)
  | Test v k => final_state (js_has r v k s)
  | PrototypeOf v => final_state (js_getPrototypeOf r v s)
  | KeysOf v => final_state (js_ownKeys r v s)
  | ValuesOf v => final_state (Object_values r v s)
  | Apply f this => final_state (call fuel r f this s)
  end.

(** A program goes on after an exception. *)
Fixpoint run (fuel : nat) (r : revision) (acts : list action) (s : state)
  : option state :=
  match acts with
  | [] => Some s
  | a :: rest =>
      match act fuel r a s with
      | Some s' => run fuel r rest s'
      | None => None
      end
  end.

(** Every object has data properties only: so it is in every revision
    but [Forwarding], whose merge defines getters. *)
Definition tidy (s : state) : Prop :=
  ∀ l o own, heap s !! l = Some o → entries o = Some own → plain own.

Definition keeps_tidy {A} (m : M A) : Prop :=
  ∀ s s', tidy s → final_state (m s) = Some s' → tidy s'.

(** [reaches s n l k x]: in state [s], reading [l[k]] goes through [n]
    forwarding getters and ends at a data property that holds [x]. *)
Inductive reaches (s : state) : nat → loc → string → value → Prop :=
| reaches_data l p own k x :
    heap s !! l = Some (OOrd p own) →
    own_lookup k own = Some (SData x) →
    reaches s 0 l k x
| reaches_getter n l p own k o k' x :
    heap s !! l = Some (OOrd p own) →
    own_lookup k own = Some (SGetter o k') →
    reaches s n o k' x →
    reaches s (S n) l k x.

(** Three containers of [Forwarding]: [a] is registered in the first,
    which has been merged into the second; the third is empty. *)
Definition chained_containers : state :=
  State [OOrd ProtoContainer [("a", SData (VRef 1))];
         OProxy (lazy_proxy 0 (DClass ServiceA));
         OOrd ProtoContainer [("a", SGetter 0 "a")];
         OOrd ProtoContainer []] [].

(** [s'] comes from [s] by a change of the object [t] alone, whose
    entries become [own'], and by new objects. *)
Definition changes_only (t : loc) (own' : list (string * slot))
    (s s' : state) : Prop :=
  (length (heap s) ≤ length (heap s'))%nat ∧
  (∀ x, x ≠ t → (x < length (heap s))%nat → heap s' !! x = heap s !! x) ∧
  ∃ o', heap s' !! t = Some o' ∧ entries o' = Some own'.

(** ** What a merge comes to *)

(** What the collision test of [injectContainer] answers for key [k],
    on a target with prototype [p] and entries [own]: [this[key]] is
    truthy, [key in this], [has(this, key)]. *)
Definition clashes (r : revision) (p : proto) (own : list (string * slot))
    (k : string) : bool :=
  match r with
  | Variadic => truthy (member p own k)
  | Batch | ClassOnly => has_own own k || proto_has p k
  | Forwarding | Assigning => has_own own k
  end.

(** The containers on which [injectContainer] of revision [r] is
    described below.  No object has a key twice.  [Forwarding] needs no
    more.  The others read the entries and assign to the target: the
    two containers are different objects with data properties only;
    and in [Assigning], [this.hasOwnProperty] is the method of
    [Object.prototype], and the source has no own property
    [__proto__], which [Object.assign] would hand to the setter. *)
Definition mergeable (r : revision) (t other : loc) (pt : proto)
    (ownt owno : list (string * slot)) : Prop :=
  NoDup owno.*1 ∧
  match r with
  | Forwarding => True
  | _ => t ≠ other ∧ plain ownt ∧ plain owno ∧
         (r = Assigning →
            member pt ownt "hasOwnProperty" = VNative "hasOwnProperty" ∧
            has_own owno "__proto__" = false)
  end.

(** The entries of the target after a merge: a forwarding getter per
    key of the source in [Forwarding], a copy of each entry of the
    source in the other revisions. *)
Definition merged (r : revision) (other : loc) (po : proto)
    (owno ownt : list (string * slot)) : list (string * slot) :=
  match r with
  | Forwarding => with_getters other (own_keys owno) ownt
  | _ => with_copies po owno (own_keys owno) ownt
  end.

Definition merged_state (r : revision) (s : state) (t other : loc)
    (pt : proto) (ownt : list (string * slot)) (po : proto)
    (owno : list (string * slot)) : state :=
  State (<[t := OOrd pt (merged r other po owno ownt)]> (heap s)) (built s).

(** [injectContainer]: an error that names the first key of the source,
    in the order of enumeration, on which the test holds, or else the
    merged state. *)
Definition injectContainer_outcome (r : revision) (s : state) (t other : loc)
    (pt : proto) (ownt : list (string * slot)) (po : proto)
    (owno : list (string * slot)) : outcome loc :=
  match find (clashes r pt ownt) (own_keys owno) with
  | Some k => Thrown (Error ("Containers have duplicated keys: " ++ k)) s
  | None => Ret t (merged_state r s t other pt ownt po owno)
  end.

(** Two containers: [b] is registered in the first, [a] in the
    second. *)
Definition two_containers : state :=
  State [OOrd ProtoContainer [("b", SData (VRef 1))];
         OProxy (fresh_proxy 0 ServiceB);
         OOrd ProtoContainer [("a", SData (VRef 3))];
         OProxy (fresh_proxy 2 ServiceA)] [].

(** Two containers whose keys were added in the order [b], [10], [9]. *)
Definition numbered_containers : state :=
  State [OOrd ProtoContainer [("b", SData (VRef 1)); ("10", SData (VRef 1))];
         OProxy (fresh_proxy 0 ServiceB);
         OOrd ProtoContainer [("b", SData (VRef 1)); ("10", SData (VRef 1));
                              ("9", SData (VRef 1))]] [].

(** ** Basic facts about own properties and the heap *)

Lemma own_lookup_set_eq k a own : own_lookup k (own_set k a own) = Some a.
Proof.
  induction own as [|[k' a'] own IH]; simpl.
  - by rewrite String.eqb_refl.
  - destruct (String.eqb k k') eqn:E; simpl; rewrite E; [done | exact IH].
Qed.

Lemma own_lookup_set_ne k k' a own :
  k ≠ k' → own_lookup k' (own_set k a own) = own_lookup k' own.
Proof.
  intros Hne. induction own as [|[k'' a''] own IH]; simpl.
  - destruct (String.eqb_spec k' k); [congruence | done].
  - destruct (String.eqb_spec k k''); simpl.
    + subst k''. destruct (String.eqb_spec k' k); [congruence | done].
    + destruct (String.eqb k' k''); [done | exact IH].
Qed.

Lemma own_lookup_set k k' a own :
  own_lookup k' (own_set k a own)
  = if String.eqb k' k then Some a else own_lookup k' own.
Proof.
  destruct (String.eqb_spec k' k) as [->|Hne].
  - apply own_lookup_set_eq.
  - apply own_lookup_set_ne. congruence.
Qed.

Lemma lookup_alloc_old (hp : list obj) (o : obj) (l : loc) x :
  hp !! l = Some x → (hp ++ [o])%list !! l = Some x.
Proof. intros H. by apply lookup_app_l_Some. Qed.

Lemma lookup_alloc_new (hp : list obj) (o : obj) :
  (hp ++ [o])%list !! length hp = Some o.
Proof. by rewrite lookup_app_r, Nat.sub_diag. Qed.

Lemma constructions_app l s more :
  length (filter (fun l' => l' = l) (built s ++ more)%list)
  = constructions l s + length (filter (fun l' => l' = l) more).
Proof. unfold constructions. by rewrite filter_app, length_app. Qed.

(** ** The evolution of states is a preorder *)

Lemma slot_kept_refl r a : slot_kept r a a.
Proof. destruct a; simpl; [destruct (full_traps r); eauto | done]. Qed.

Lemma slot_kept_trans r a b c :
  slot_kept r a b → slot_kept r b c → slot_kept r a c.
Proof.
  destruct a; simpl.
  - destruct (full_traps r) eqn:E.
    + intros ->. simpl. by rewrite E.
    + intros [v' ->]. simpl. by rewrite E.
  - by intros ->.
Qed.

Lemma with_instance_id h : with_instance h (h_instance h) = h.
Proof. by destruct h. Qed.

Lemma with_instance_twice h v w :
  with_instance (with_instance h v) w = with_instance h w.
Proof. done. Qed.

Lemma prototype_kept_refl o own : entries o = Some own → prototype_kept o o.
Proof. by destruct o. Qed.

Lemma prototype_kept_trans o1 o2 o3 :
  prototype_kept o1 o2 → prototype_kept o2 o3 → prototype_kept o1 o3.
Proof. destruct o1, o2, o3; simpl; try done. congruence. Qed.

(** An object that stays as it is. *)
Lemma kept_as_it_is r (hp : list obj) l o own :
  hp !! l = Some o → entries o = Some own →
  ∃ o' own', hp !! l = Some o' ∧ entries o' = Some own' ∧
    prototype_kept o o' ∧
    ∀ k a, own_lookup k own = Some a →
      ∃ b, own_lookup k own' = Some b ∧ slot_kept r a b.
Proof.
  intros H He. exists o, own. split_and!; [done | done | by eapply prototype_kept_refl |].
  intros k a Ha. exists a. split; [done | apply slot_kept_refl].
Qed.

Lemma evolves_refl r s : evolves r s s.
Proof.
  split.
  - intros l o own H He. by apply kept_as_it_is.
  - intros l h H. exists (h_instance h). by rewrite with_instance_id.
Qed.

Lemma evolves_trans r s1 s2 s3 :
  evolves r s1 s2 → evolves r s2 s3 → evolves r s1 s3.
Proof.
  intros [O1 P1] [O2 P2]. split.
  - intros l o own H He.
    destruct (O1 _ _ _ H He) as (o' & own' & H' & He' & Hp1 & K1).
    destruct (O2 _ _ _ H' He') as (o'' & own'' & H'' & He'' & Hp2 & K2).
    exists o'', own''. split_and!; [done | done | by eapply prototype_kept_trans |].
    intros k a Ha.
    destruct (K1 _ _ Ha) as (b & Hb & Kab).
    destruct (K2 _ _ Hb) as (c & Hc & Kbc).
    exists c. split; [done | by eapply slot_kept_trans].
  - intros l h H.
    destruct (P1 _ _ H) as (v & H' & T1).
    destruct (P2 _ _ H') as (w & H'' & T2).
    exists w. rewrite with_instance_twice in H''. split; [done|].
    intros Ht. destruct (T1 Ht) as [-> C1].
    destruct T2 as [-> C2]; [by destruct h|].
    split; [by destruct h | congruence].
Qed.

Lemma pure_sound {A} r (m : M A) : pure m → sound r m.
Proof. intros H s s' E. rewrite (H _ _ E). apply evolves_refl. Qed.

Lemma pure_ret {A} (a : A) : pure (ret a).
Proof. intros s s' [= <-]. done. Qed.

Lemma pure_throw {A} e : pure (@throw A e).
Proof. intros s s' [= <-]. done. Qed.

Lemma pure_abort {A} x : pure (@abort_with A x).
Proof. intros s s' [=]. Qed.

Lemma pure_bind {A B} (m : M A) (f : A → M B) :
  pure m → (∀ a, pure (f a)) → pure (bind m f).
Proof.
  intros Hm Hf s s'. unfold bind.
  destruct (m s) as [a s1|e s1|x] eqn:E; simpl.
  - intros H. apply Hf in H. subst s'. apply (Hm s). by rewrite E.
  - intros [= <-]. apply (Hm s). by rewrite E.
  - done.
Qed.

Lemma sound_bind {A B} r (m : M A) (f : A → M B) :
  sound r m → (∀ a, sound r (f a)) → sound r (bind m f).
Proof.
  intros Hm Hf s s'. unfold bind.
  destruct (m s) as [a s1|e s1|x] eqn:E; simpl.
  - intros H. apply Hf in H.
    eapply evolves_trans; [|exact H]. apply Hm. by rewrite E.
  - intros [= <-]. apply Hm. by rewrite E.
  - done.
Qed.

Lemma bind_assoc {A B C} (m : M A) (f : A → M B) (g : B → M C) s :
  bind (bind m f) g s = bind m (fun a => bind (f a) g) s.
Proof. unfold bind. by destruct (m s). Qed.

Create HintDb js.
#[local] Hint Resolve pure_ret pure_throw pure_abort evolves_refl : js.

Ltac by_purity := solve [apply pure_sound; simpl; auto with js].

(** *** The elementary steps *)

Lemma evolves_alloc r s o :
  evolves r s (State (heap s ++ [o]) (built s)).
Proof.
  split; simpl.
  - intros l o1 own H He. apply kept_as_it_is; [by apply lookup_alloc_old | done].
  - intros l h H. exists (h_instance h). rewrite with_instance_id.
    split; [by apply lookup_alloc_old | done].
Qed.

Lemma evolves_record r s l h :
  heap s !! l = Some (OProxy h) → truthy (h_instance h) = false →
  evolves r s (State (heap s) (built s ++ [l])).
Proof.
  intros Hl Hf. split; simpl.
  - intros l' o own H He. by apply kept_as_it_is.
  - intros l' h' H. exists (h_instance h'). rewrite with_instance_id.
    split; [done|]. intros Ht. split; [done|].
    unfold constructions; simpl. rewrite filter_app, length_app.
    rewrite filter_cons_False, filter_nil; [simpl; lia|].
    intros ->. congruence.
Qed.

Lemma evolves_set_instance r s l h v :
  heap s !! l = Some (OProxy h) → truthy (h_instance h) = false →
  evolves r s (State (<[l := OProxy (with_instance h v)]> (heap s)) (built s)).
Proof.
  intros Hl Hf. split; simpl.
  - intros l' o own H He.
    assert (l ≠ l') by (intros ->; destruct o; simplify_eq).
    apply kept_as_it_is; [by rewrite list_lookup_insert_ne | done].
  - intros l' h' H. destruct (decide (l = l')) as [<-|Hne].
    + assert (h' = h) as -> by congruence. exists v.
      rewrite list_lookup_insert_eq by (by eapply lookup_lt_Some).
      split; [done|]. intros Ht. congruence.
    + exists (h_instance h'). rewrite with_instance_id.
      rewrite list_lookup_insert_ne by done. done.
Qed.

(** An object with entries is replaced by one that keeps its keys
    and, up to a lazy proxy, its prototype. *)
Lemma evolves_update r s t o own o' own' :
  heap s !! t = Some o → entries o = Some own → entries o' = Some own' →
  prototype_kept o o' →
  (∀ k a, own_lookup k own = Some a →
     ∃ b, own_lookup k own' = Some b ∧ slot_kept r a b) →
  evolves r s (State (<[t := o']> (heap s)) (built s)).
Proof.
  intros Ht He He' Hp Hk. split; simpl.
  - intros l o1 own1 H H1. destruct (decide (t = l)) as [<-|Hne].
    + assert (o1 = o) as -> by congruence.
      assert (own1 = own) as -> by congruence.
      exists o', own'.
      rewrite list_lookup_insert_eq by (by eapply lookup_lt_Some). done.
    + apply kept_as_it_is; [by rewrite list_lookup_insert_ne | done].
  - intros l h H. exists (h_instance h). rewrite with_instance_id.
    assert (t ≠ l) by (intros ->; destruct o; simplify_eq).
    rewrite list_lookup_insert_ne by done. done.
Qed.

Lemma own_set_keeps r k b own :
  (∀ a, own_lookup k own = Some a → slot_kept r a b) →
  ∀ k' a, own_lookup k' own = Some a →
    ∃ b', own_lookup k' (own_set k b own) = Some b' ∧ slot_kept r a b'.
Proof.
  intros Hk k' a Ha. rewrite own_lookup_set.
  destruct (String.eqb_spec k' k) as [->|].
  - exists b. split; [done | by apply Hk].
  - exists a. split; [done | apply slot_kept_refl].
Qed.

(** Writing a property of an ordinary object: a new key always, an
    existing data property where the revision writes instances into
    the container. *)
Lemma evolves_set_slot r s t p own k b :
  heap s !! t = Some (OOrd p own) →
  (∀ a, own_lookup k own = Some a → slot_kept r a b) →
  evolves r s (State (<[t := OOrd p (own_set k b own)]> (heap s)) (built s)).
Proof.
  intros Ht Hk.
  eapply evolves_update; [done | done | done | done | by apply own_set_keeps].
Qed.

Lemma evolves_set_slot_via r s t lazy own k b :
  heap s !! t = Some (OVia lazy own) →
  (∀ a, own_lookup k own = Some a → slot_kept r a b) →
  evolves r s (State (<[t := OVia lazy (own_set k b own)]> (heap s)) (built s)).
Proof.
  intros Ht Hk.
  eapply evolves_update; [done | done | done | done | by apply own_set_keeps].
Qed.

(** The setter of [__proto__]. *)
Lemma evolves_set_prototype r s s' t o own v :
  heap s !! t = Some o → entries o = Some own →
  final_state (set_prototype t own v s) = Some s' → evolves r s s'.
Proof.
  intros Ht He. unfold set_prototype.
  destruct v as [| | | |l| | | |]; simpl; try done;
    try (intros [= <-]; apply evolves_refl).
  destruct (heap s !! l) as [[| |]|]; simpl; try done.
  intros [= <-]. eapply evolves_update; [done | done | done | by destruct o |].
  intros k a Ha. exists a. split; [done | apply slot_kept_refl].
Qed.

Lemma sound_alloc r o : sound r (alloc o).
Proof. intros s s' [= <-]. apply evolves_alloc. Qed.

(** [t[k] = v] where [r] writes instances into the container. *)
(** [t[k] = v], when an existing data property may take the value:
    where [r] writes instances into the container, or where the
    property has that value already. *)
Lemma evolves_obj_set r s s' t k v :
  (∀ o own x, heap s !! t = Some o → entries o = Some own →
     own_lookup k own = Some (SData x) → slot_kept r (SData x) (SData v)) →
  final_state (obj_set t k v s) = Some s' → evolves r s s'.
Proof.
  intros Hx. unfold obj_set.
  destruct (heap s !! t) as [[p own|h|lazy own]|] eqn:Ht; [| done | | done].
  - destruct (own_lookup k own) as [[x|o k']|] eqn:Hk; simpl.
    + intros [= <-]. eapply evolves_set_slot; [done|].
      intros a Ha. assert (a = SData x) as -> by congruence. by eapply Hx.
    + intros [= <-]. apply evolves_refl.
    + destruct (meets_setter p k).
      * by eapply evolves_set_prototype.
      * intros [= <-]. eapply evolves_set_slot; [done|]. congruence.
  - destruct (own_lookup k own) as [[x|o k']|] eqn:Hk; simpl.
    + intros [= <-]. eapply evolves_set_slot_via; [done|].
      intros a Ha. assert (a = SData x) as -> by congruence. by eapply Hx.
    + intros [= <-]. apply evolves_refl.
    + destruct (heap s !! lazy) as [[|h|]|]; try done.
      destruct (meets_setter (h_target h) k).
      * by eapply evolves_set_prototype.
      * intros [= <-]. eapply evolves_set_slot_via; [done|]. congruence.
Qed.

Lemma sound_obj_set_overwrite r t k v :
  full_traps r = false → sound r (obj_set t k v).
Proof.
  intros Hr s s'. apply evolves_obj_set. intros. simpl. rewrite Hr. eauto.
Qed.

(** [t[k] = v] for a key that [t] does not have. *)
Lemma evolves_obj_set_new r s s' t o own k v :
  heap s !! t = Some o → entries o = Some own → own_lookup k own = None →
  final_state (obj_set t k v s) = Some s' → evolves r s s'.
Proof.
  intros Ht He Hk. apply evolves_obj_set. intros o' own' x Ht' He' Hx.
  congruence.
Qed.

Lemma obj_set_built t k v s s' :
  final_state (obj_set t k v s) = Some s' → built s' = built s.
Proof.
  unfold obj_set, set_prototype, store. intros H.
  repeat case_match; by simplify_eq/=.
Qed.

(** An assignment changes no proxy. *)
Lemma obj_set_keeps_proxy t k v s s' l h :
  final_state (obj_set t k v s) = Some s' →
  heap s !! l = Some (OProxy h) → heap s' !! l = Some (OProxy h).
Proof.
  unfold obj_set, set_prototype, store. intros H Hl.
  repeat case_match; simplify_eq/=; try done;
    (rewrite list_lookup_insert_ne; [done|]); intros ->; congruence.
Qed.

(** *** Construction and the traps *)

Lemma pure_entry_of t k : pure (entry_of t k).
Proof.
  intros s s'. unfold entry_of. repeat case_match; simpl; try done; by intros [= <-].
Qed.

Lemma sound_create r d t : sound r (create d t).
Proof.
  destruct d as [c|name [fields|l|msg|field k]]; simpl; unfold new_class; simpl.
  - destruct (cls_throws c); [by_purity|].
    apply sound_bind; [apply sound_alloc|]. intros. by_purity.
  - apply sound_bind; [apply sound_alloc|]. intros. by_purity.
  - by_purity.
  - by_purity.
  - apply sound_bind; [apply pure_sound, pure_entry_of|]. intros.
    apply sound_bind; [apply sound_alloc|]. intros. by_purity.
Qed.

(** What [create] leaves untouched. *)
Lemma create_keeps d t s o :
  create d t s = o →
  ∀ s', final_state o = Some s' →
    built s' = built s ∧ ∀ l x, heap s !! l = Some x → heap s' !! l = Some x.
Proof.
  intros <- s'.
  destruct d as [c|name [fields|l|msg|field k]]; simpl; unfold new_class; simpl.
  - destruct (cls_throws c); simpl; unfold bind, alloc, throw; simpl.
    + intros [= <-]. done.
    + intros [= <-]. simpl. split; [done|]. intros. by apply lookup_alloc_old.
  - unfold bind, alloc; simpl. intros [= <-]. simpl. split; [done|].
    intros. by apply lookup_alloc_old.
  - intros [= <-]. done.
  - intros [= <-]. done.
  - unfold bind, alloc, entry_of. repeat case_match; simpl; try done;
      simplify_eq/=; intros [= <-]; simpl; (split; [done|]);
      intros; by apply lookup_alloc_old.
Qed.

Lemma sound_getInstance r l : sound r (getInstance r l).
Proof.
  intros s s'. unfold getInstance.
  destruct (heap s !! l) as [[p own|h|lazy own]|] eqn:Hl; [done| |done..].
  destruct (truthy (h_instance h)) eqn:Ht.
  { intros [= <-]. apply evolves_refl. }
  pose proof (evolves_record r s l h Hl Ht) as E0.
  unfold bind at 1. unfold record_construction at 1.
  set (s0 := State (heap s) (built s ++ [l])) in *.
  assert (heap s0 !! l = Some (OProxy h)) as Hl0 by done.
  unfold bind at 1.
  pose proof (sound_create r (h_desc h) (h_t h) s0) as Ec.
  pose proof (create_keeps (h_desc h) (h_t h) s0 _ eq_refl) as Kc.
  destruct (create (h_desc h) (h_t h) s0) as [v s1|e s1|x]; simpl; [| |done].
  2:{ intros [= <-]. eapply evolves_trans; [exact E0|]. by apply Ec. }
  specialize (Ec s1 eq_refl). destruct (Kc s1 eq_refl) as [_ Kh].
  assert (heap s1 !! l = Some (OProxy h)) as Hl1 by (by apply Kh).
  intros H. eapply evolves_trans; [exact E0|].
  eapply evolves_trans; [exact Ec|]. clear E0 Ec Kc Kh Hl0 Hl. revert H.
  unfold bind at 1.
  assert (∀ s2 : state, heap s2 !! l = Some (OProxy h) →
          final_state ((set_instance l v ;;; ret v) s2) = Some s' →
          evolves r s2 s') as Hset.
  { intros s2 Hl2. unfold bind, set_instance, store, ret. rewrite Hl2. simpl.
    intros [= <-]. by apply evolves_set_instance. }
  destruct (full_traps r) eqn:Hr.
  - simpl. by apply Hset.
  - pose proof (sound_obj_set_overwrite r (h_t h) (h_name h) v Hr s1) as Eo.
    pose proof (obj_set_keeps_proxy (h_t h) (h_name h) v s1) as Ko.
    destruct (obj_set (h_t h) (h_name h) v s1) as [u s2|e s2|x]; simpl; [| |done].
    + intros H. eapply evolves_trans; [by apply Eo|].
      apply Hset; [by eapply Ko | done].
    + intros [= <-]. by apply Eo.
Qed.

Lemma pure_Object_getPrototypeOf v : pure (Object_getPrototypeOf v).
Proof.
  intros s s'. unfold Object_getPrototypeOf.
  destruct v; simpl; try done; try (by intros [= <-]).
  destruct (heap s !! l) as [[p own|h|lazy own]|]; simpl; try done; by intros [= <-].
Qed.

Lemma sound_js_getPrototypeOf r v : sound r (js_getPrototypeOf r v).
Proof.
  intros s s'. unfold js_getPrototypeOf.
  destruct v; try apply (pure_sound r _ (pure_Object_getPrototypeOf _)).
  destruct (heap s !! l) as [[p own|h|lazy own]|] eqn:Hl;
    try (intros H; apply (pure_sound r _ (pure_Object_getPrototypeOf (VRef l))); exact H).
  destruct (full_traps r).
  - apply sound_bind; [apply sound_getInstance|].
    intros. apply pure_sound, pure_Object_getPrototypeOf.
  - intros [= <-]. apply evolves_refl.
Qed.

Lemma sound_descends_from_Function n r o :
  sound r (descends_from_Function n r o).
Proof.
  revert o. induction n as [|n IH]; intros o; simpl; [by_purity|].
  apply sound_bind; [apply sound_js_getPrototypeOf|].
  intros p. destruct p; try by_purity. apply IH.
Qed.

Lemma sound_is_function r v : sound r (is_function r v).
Proof.
  destruct r; try (simpl; by_purity).
  unfold is_function, instanceof_Function. destruct v; try by_purity.
  intros s s'. apply (sound_descends_from_Function _ _ _ s s').
Qed.

Lemma sound_get_trap r get l k :
  (∀ v k', sound r (get v k')) → sound r (get_trap r get l k).
Proof.
  intros Hget. unfold get_trap.
  apply sound_bind; [apply sound_getInstance|]. intros inst.
  apply sound_bind; [apply Hget|]. intros v.
  apply sound_bind; [apply sound_is_function|]. intros b. by_purity.
Qed.

Lemma sound_js_get_n n r v k : sound r (js_get_n n r v k).
Proof.
  revert v k. induction n as [|n IH]; intros v k; simpl.
  { by_purity. }
  destruct v; try by_purity.
  intros s s'.
  destruct (heap s !! l) as [[p own|h|lazy own]|] eqn:Hl; [| | |done].
  - destruct (own_lookup k own) as [[x|o k']|].
    + intros [= <-]. apply evolves_refl.
    + apply IH.
    + intros [= <-]. apply evolves_refl.
  - by apply sound_get_trap.
  - destruct (own_lookup k own) as [[x|o k']|].
    + intros [= <-]. apply evolves_refl.
    + apply IH.
    + by apply sound_get_trap.
Qed.

Lemma sound_js_get r v k : sound r (js_get r v k).
Proof. intros s s'. unfold js_get. apply sound_js_get_n. Qed.

Lemma pure_hasOwnProperty v k : pure (hasOwnProperty v k).
Proof.
  intros s s'. unfold hasOwnProperty.
  destruct v; simpl; try done; try (by intros [= <-]).
  destruct (heap s !! l) as [[p own|h|lazy own]|]; simpl; try done; by intros [= <-].
Qed.

Lemma sound_has r v k : sound r (has r v k).
Proof.
  unfold has. destruct r; try (apply pure_sound, pure_hasOwnProperty).
  apply sound_bind; [apply sound_js_get|]. intros f.
  destruct f; try by_purity.
  repeat (case_match; try by_purity);
    apply pure_sound, pure_hasOwnProperty.
Qed.

Lemma pure_Object_getOwnPropertyNames v : pure (Object_getOwnPropertyNames v).
Proof.
  intros s s'. unfold Object_getOwnPropertyNames.
  destruct v; simpl; try done; try (by intros [= <-]).
  destruct (heap s !! l) as [[p own|h|lazy own]|]; simpl; try done; by intros [= <-].
Qed.

Lemma sound_js_has r v k : sound r (js_has r v k).
Proof.
  intros s s'. unfold js_has.
  destruct v; try (intros [= <-]; apply evolves_refl).
  destruct (heap s !! l) as [[p own|h|lazy own]|] eqn:Hl; [| | |done].
  - intros [= <-]. apply evolves_refl.
  - destruct (full_traps r).
    + apply sound_bind; [apply sound_getInstance|]. intros. apply sound_has.
    + intros [= <-]. apply evolves_refl.
  - destruct (own_lookup k own); [intros [= <-]; apply evolves_refl|].
    destruct (heap s !! lazy) as [[|h|]|]; try done.
    destruct (full_traps r).
    + apply sound_bind; [apply sound_getInstance|]. intros. apply sound_has.
    + intros [= <-]. apply evolves_refl.
Qed.

Lemma sound_js_ownKeys r v : sound r (js_ownKeys r v).
Proof.
  intros s s'. unfold js_ownKeys.
  destruct v; try apply (pure_sound r _ (pure_Object_getOwnPropertyNames _)).
  destruct (heap s !! l) as [[p own|h|lazy own]|] eqn:Hl;
    try (intros H; apply (pure_sound r _ (pure_Object_getOwnPropertyNames (VRef l))); exact H).
  destruct (full_traps r).
  - apply sound_bind; [apply sound_getInstance|].
    intros. apply pure_sound, pure_Object_getOwnPropertyNames.
  - intros [= <-]. apply evolves_refl.
Qed.

Lemma sound_eval_call fuel r :
  (∀ e this deps, sound r (eval fuel r e this deps)) ∧
  (∀ f this, sound r (call fuel r f this)).
Proof.
  induction fuel as [|fuel [IHe IHc]].
  { split; intros; by_purity. }
  split.
  - intros e this deps. destruct e; simpl; try by_purity.
    + apply sound_bind; [apply IHe|]. intros. apply sound_js_get.
    + apply sound_bind; [apply IHe|]. intros o.
      apply sound_bind; [apply sound_js_get|]. intros. apply IHc.
    + apply sound_bind; [apply IHe|]. intros. apply IHc.
    + apply sound_bind; [apply IHe|]. intros a.
      apply sound_bind; [apply IHe|]. intros b.
      destruct a, b; by_purity.
  - intros f this. destruct f; simpl; try by_purity.
    + apply IHe.
    + apply IHc.
Qed.

Lemma sound_interact fuel r l i : sound r (interact fuel r l i).
Proof.
  destruct i; simpl.
  - apply sound_js_get.
  - apply sound_bind; [apply sound_js_get|]. intros. apply sound_eval_call.
  - apply sound_js_getPrototypeOf.
  - apply sound_bind; [apply sound_js_has|]. intros. by_purity.
Qed.

Lemma evolves_interactions fuel r l acts s s' :
  interactions fuel r l acts s = Some s' → evolves r s s'.
Proof.
  revert s. induction acts as [|i acts IH]; intros s; simpl.
  - intros [= <-]. apply evolves_refl.
  - destruct (final_state (interact fuel r l i s)) as [s1|] eqn:E; [|done].
    intros H. eapply evolves_trans; [by eapply sound_interact | by apply IH].
Qed.

(** ** Reading a container *)

Lemma js_get_data r s l p own k x :
  heap s !! l = Some (OOrd p own) → own_lookup k own = Some (SData x) →
  js_get r (VRef l) k s = Ret x s.
Proof. intros Hl Hk. unfold js_get. simpl. by rewrite Hl, Hk. Qed.

Lemma js_get_inherited r s l p own k :
  heap s !! l = Some (OOrd p own) → own_lookup k own = None →
  js_get r (VRef l) k s = Ret (proto_get p k) s.
Proof. intros Hl Hk. unfold js_get. simpl. by rewrite Hl, Hk. Qed.

Lemma js_get_data_via r s l lazy own k x :
  heap s !! l = Some (OVia lazy own) → own_lookup k own = Some (SData x) →
  js_get r (VRef l) k s = Ret x s.
Proof. intros Hl Hk. unfold js_get. simpl. by rewrite Hl, Hk. Qed.

(** Reading an entry of an object, whatever its prototype is. *)
Lemma js_get_entry r s l o own k x :
  heap s !! l = Some o → entries o = Some own →
  own_lookup k own = Some (SData x) →
  js_get r (VRef l) k s = Ret x s.
Proof.
  intros Hl He Hk. destruct o; simplify_eq/=.
  - by eapply js_get_data.
  - by eapply js_get_data_via.
Qed.

(** ** Assignments that meet the setter of [__proto__], and those that
    do not *)

Lemma meets_setter_name p k : meets_setter p k = true → k = "__proto__".
Proof.
  unfold meets_setter. destruct (String.eqb_spec k "__proto__"); [done|].
  by rewrite andb_false_l.
Qed.

(** Where an assignment would meet the setter, a read meets the
    getter, which answers with the prototype. *)
Lemma meets_setter_get p k : meets_setter p k = true → proto_get p k = VProto p.
Proof.
  intros H. pose proof (meets_setter_name _ _ H) as ->. revert H.
  unfold meets_setter. destruct p as [| |c]; simpl; try done.
  by destruct (class_member c "__proto__").
Qed.

Lemma meets_setter_has p k : meets_setter p k = true → proto_has p k = true.
Proof.
  intros H. pose proof (meets_setter_name _ _ H) as ->. revert H.
  unfold meets_setter. destruct p as [| |c]; simpl; try done.
  by destruct (class_member c "__proto__").
Qed.

Lemma falsy_meets_no_setter p k :
  truthy (proto_get p k) = false → meets_setter p k = false.
Proof.
  destruct (meets_setter p k) eqn:E; [|done].
  by rewrite (meets_setter_get _ _ E).
Qed.

(** An assignment that ends in an own data property. *)
Lemma obj_set_entry s t p own k v :
  heap s !! t = Some (OOrd p own) →
  (∀ o k', own_lookup k own ≠ Some (SGetter o k')) →
  (own_lookup k own = None → meets_setter p k = false) →
  obj_set t k v s
  = Ret tt (State (<[t := OOrd p (own_set k (SData v) own)]> (heap s)) (built s)).
Proof.
  intros Ht Hg Hm. unfold obj_set, store. rewrite Ht.
  destruct (own_lookup k own) as [[x|o k']|] eqn:Hk; [done | by destruct (Hg o k') |].
  by rewrite Hm.
Qed.

(** The assignment of a lazy proxy that meets the setter. *)
Lemma obj_set_prototype s t p own k l h :
  heap s !! t = Some (OOrd p own) → own_lookup k own = None →
  meets_setter p k = true → heap s !! l = Some (OProxy h) →
  obj_set t k (VRef l) s
  = Ret tt (State (<[t := OVia l own]> (heap s)) (built s)).
Proof.
  intros Ht Hk Hm Hl. unfold obj_set, set_prototype, store.
  by rewrite Ht, Hk, Hm, Hl.
Qed.

(** ** Registration of a class ([Variadic], [Batch], [ClassOnly]) *)

Lemma inject_class_fresh r s t p own c :
  heap s !! t = Some (OOrd p own) →
  own_lookup (cls_name c) own = None →
  truthy (proto_get p (cls_name c)) = false →
  inject_class r t c s = Ret t (installed_state s t p own c).
Proof.
  intros Ht Hk Hp. unfold inject_class, bind.
  rewrite (js_get_inherited _ _ _ _ _ _ Ht Hk), Hp.
  unfold alloc at 1.
  rewrite (obj_set_entry _ t p own);
    [done | by apply lookup_alloc_old | congruence
    | intros _; by apply falsy_meets_no_setter].
Qed.

Lemma inject_class_taken r s t p own c x :
  heap s !! t = Some (OOrd p own) →
  own_lookup (cls_name c) own = Some (SData x) → truthy x = true →
  inject_class r t c s = Thrown (rejection r (cls_name c)) s.
Proof.
  intros Ht Hk Hx. unfold inject_class, bind.
  by rewrite (js_get_data _ _ _ _ _ _ _ Ht Hk), Hx.
Qed.

Lemma inject_class_inherited r s t p own c :
  heap s !! t = Some (OOrd p own) →
  own_lookup (cls_name c) own = None →
  truthy (proto_get p (cls_name c)) = true →
  inject_class r t c s = Thrown (rejection r (cls_name c)) s.
Proof.
  intros Ht Hk Hp. unfold inject_class, bind.
  by rewrite (js_get_inherited _ _ _ _ _ _ Ht Hk), Hp.
Qed.

Ltac plain_by_cases :=
  intros ? ? ?; simpl; repeat (destruct (String.eqb _ _)); done.

Lemma plain_set k v own : plain own → plain (own_set k (SData v) own).
Proof.
  intros H k' o k''. rewrite own_lookup_set.
  destruct (String.eqb k' k); [done | apply H].
Qed.

(** What one registration does, whatever its outcome. *)
Lemma inject_class_cases r s t p own c :
  heap s !! t = Some (OOrd p own) → plain own →
  (inject_class r t c s = Ret t (installed_state s t p own c) ∧
   (∀ x, own_lookup (cls_name c) own = Some (SData x) → truthy x = false))
  ∨ inject_class r t c s = Thrown (rejection r (cls_name c)) s.
Proof.
  intros Ht Hpl.
  destruct (own_lookup (cls_name c) own) as [[x|o k']|] eqn:Hk.
  - destruct (truthy x) eqn:Hx.
    + right. by eapply inject_class_taken.
    + left. split; [|congruence]. unfold inject_class, bind.
      rewrite (js_get_data _ _ _ _ _ _ _ Ht Hk), Hx.
      unfold alloc at 1.
      rewrite (obj_set_entry _ t p own);
        [done | by apply lookup_alloc_old | congruence | congruence].
  - by destruct (Hpl _ _ _ Hk).
  - destruct (truthy (proto_get p (cls_name c))) eqn:Hp.
    + right. by eapply inject_class_inherited.
    + left. split; [|congruence]. by eapply inject_class_fresh.
Qed.

Lemma installed_state_holds s t p own c :
  heap s !! t = Some (OOrd p own) →
  holds_proxy (installed_state s t p own c) t c (length (heap s)).
Proof.
  intros Ht. pose proof (lookup_lt_Some _ _ _ Ht) as Hlt.
  exists p, (own_set (cls_name c) (SData (VRef (length (heap s)))) own).
  unfold installed_state; simpl. split_and!.
  - rewrite list_lookup_insert_eq; [done|]. rewrite length_app. simpl. lia.
  - apply own_lookup_set_eq.
  - rewrite list_lookup_insert_ne by lia. apply lookup_alloc_new.
Qed.

Lemma installed_state_keeps s t p own c c' lazy :
  heap s !! t = Some (OOrd p own) →
  (∀ x, own_lookup (cls_name c) own = Some (SData x) → truthy x = false) →
  holds_proxy s t c' lazy →
  holds_proxy (installed_state s t p own c) t c' lazy.
Proof.
  intros Ht Hfalsy (p' & own' & Ht' & Hk & Hl).
  assert (p' = p ∧ own' = own) as [-> ->] by (split; congruence).
  pose proof (lookup_lt_Some _ _ _ Ht) as Hlt.
  exists p, (own_set (cls_name c) (SData (VRef (length (heap s)))) own).
  unfold installed_state; simpl. split_and!.
  - rewrite list_lookup_insert_eq; [done|]. rewrite length_app. simpl. lia.
  - rewrite own_lookup_set_ne; [done|]. intros E. rewrite E in Hfalsy.
    by specialize (Hfalsy _ Hk).
  - rewrite list_lookup_insert_ne by (intros ->; congruence).
    by apply lookup_alloc_old.
Qed.

(** A batch that succeeds stays in the same container, constructs
    nothing, and leaves every class of the batch installed. *)
Lemma inject_all_Ret r deps : ∀ s t p own t' s',
  heap s !! t = Some (OOrd p own) → plain own →
  inject_all r t deps s = Ret t' s' →
  t' = t ∧ built s' = built s ∧
  (∃ own', heap s' !! t = Some (OOrd p own') ∧ plain own') ∧
  (∀ c lazy, holds_proxy s t c lazy → holds_proxy s' t c lazy) ∧
  (∀ c, c ∈ deps → ∃ lazy, holds_proxy s' t c lazy).
Proof.
  induction deps as [|c deps IH]; intros s t p own t' s' Ht Hpl; simpl.
  - intros [= <- <-]. split_and!; eauto. intros c Hc. by apply elem_of_nil in Hc.
  - unfold bind.
    destruct (inject_class_cases r s t p own c Ht Hpl) as [[-> Hfalsy]| ->];
      [|done].
    intros H.
    pose proof (installed_state_holds s t p own c Ht) as Hnew.
    assert (heap (installed_state s t p own c) !! t
            = Some (OOrd p (own_set (cls_name c)
                              (SData (VRef (length (heap s)))) own))) as Ht1.
    { destruct Hnew as (p1 & own1 & H1 & _). unfold installed_state in *.
      simpl in *. rewrite list_lookup_insert_eq; [done|].
      rewrite length_app. simpl. pose proof (lookup_lt_Some _ _ _ Ht). lia. }
    destruct (IH _ _ _ _ _ _ Ht1 (plain_set _ _ _ Hpl) H)
      as (-> & Hb & Hown & Hkeep & Hall).
    split_and!; [done|done|done| |].
    + intros c' lazy Hc'. apply Hkeep. by apply installed_state_keeps.
    + intros c' [->|Hin]%elem_of_cons; [|by apply Hall].
      eexists. apply Hkeep. exact Hnew.
Qed.

Lemma inject_all_app r pre : ∀ post t s,
  inject_all r t (pre ++ post)%list s
  = match inject_all r t pre s with
    | Ret t' s' => inject_all r t' post s'
    | Thrown e s' => Thrown e s'
    | Abort x => Abort x
    end.
Proof.
  induction pre as [|c pre IH]; intros post t s; simpl; [done|].
  unfold bind. destruct (inject_class r t c s); [apply IH|done..].
Qed.

(** ** Registration of one descriptor ([Forwarding], [Assigning]) *)

#[local] Arguments mem : simpl never.

Lemma rejected_state_keeps s t d l x :
  heap s !! l = Some x → heap (rejected_state s t d) !! l = Some x.
Proof. intros H. simpl. by apply lookup_alloc_old. Qed.

Lemma inject_one_reserved r s t d :
  full_traps r = true → mem (desc_name d) ReservedFields = true →
  inject_one r t d s
  = Thrown (Error ("Reserved field name: " ++ desc_name d)) (rejected_state s t d).
Proof.
  intros _ Hres. unfold inject_one, bind, alloc. simpl. by rewrite Hres.
Qed.

Lemma inject_one_taken s t p own d a :
  heap s !! t = Some (OOrd p own) →
  mem (desc_name d) ReservedFields = false →
  own_lookup (desc_name d) own = Some a →
  inject_one Forwarding t d s
  = Thrown (Error ("Duplicate service name: " ++ desc_name d))
      (rejected_state s t d).
Proof.
  intros Ht Hres Hk. unfold inject_one, bind, alloc. simpl. rewrite Hres. simpl.
  unfold hasOwnProperty. simpl.
  by rewrite (lookup_alloc_old _ _ _ _ Ht), Hk.
Qed.

Lemma inject_one_fresh s t p own d :
  heap s !! t = Some (OOrd p own) →
  mem (desc_name d) ReservedFields = false →
  own_lookup (desc_name d) own = None →
  meets_setter p (desc_name d) = false →
  inject_one Forwarding t d s = Ret t (registered_state s t p own d).
Proof.
  intros Ht Hres Hk Hm. unfold inject_one, bind, alloc, ret. simpl. rewrite Hres.
  unfold hasOwnProperty. simpl.
  rewrite (lookup_alloc_old _ _ _ _ Ht), Hk.
  rewrite (obj_set_entry _ t p own);
    [done | by apply lookup_alloc_old | congruence | done].
Qed.

(** A service named [__proto__]: [has(this, name)] does not find the
    inherited accessor, and the assignment makes the proxy the
    prototype of the container. *)
Lemma inject_one_prototype s t p own d :
  heap s !! t = Some (OOrd p own) →
  mem (desc_name d) ReservedFields = false →
  own_lookup (desc_name d) own = None →
  meets_setter p (desc_name d) = true →
  inject_one Forwarding t d s = Ret t (replaced_state s t own d).
Proof.
  intros Ht Hres Hk Hm. unfold inject_one, bind, alloc, ret. simpl. rewrite Hres.
  unfold hasOwnProperty. simpl.
  rewrite (lookup_alloc_old _ _ _ _ Ht), Hk.
  rewrite (obj_set_prototype _ t p own _ _ (lazy_proxy t d));
    [done | by apply lookup_alloc_old | done | done | apply lookup_alloc_new].
Qed.

Lemma constructions_fresh s l :
  log_ok s → (length (heap s) ≤ l)%nat → constructions l s = 0.
Proof.
  unfold log_ok, constructions. intros H Hl.
  induction H as [|l' ls Hl' _ IH]; [done|].
  rewrite filter_cons_False by lia. exact IH.
Qed.

(** A batch that succeeds keeps every entry that held a truthy value. *)
Lemma inject_all_keeps r deps : ∀ s t p own t' s',
  heap s !! t = Some (OOrd p own) → plain own →
  inject_all r t deps s = Ret t' s' →
  ∃ own', heap s' !! t = Some (OOrd p own') ∧
    ∀ k x, own_lookup k own = Some (SData x) → truthy x = true →
      own_lookup k own' = Some (SData x).
Proof.
  induction deps as [|c deps IH]; intros s t p own t' s' Ht Hpl; simpl.
  - intros [= <- <-]. eauto.
  - unfold bind.
    destruct (inject_class_cases r s t p own c Ht Hpl) as [[-> Hfalsy]| ->];
      [|done].
    intros H.
    assert (heap (installed_state s t p own c) !! t
            = Some (OOrd p (own_set (cls_name c)
                              (SData (VRef (length (heap s)))) own))) as Ht1.
    { simpl. rewrite list_lookup_insert_eq; [done|].
      rewrite length_app. simpl. pose proof (lookup_lt_Some _ _ _ Ht). lia. }
    destruct (IH _ _ _ _ _ _ Ht1 (plain_set _ _ _ Hpl) H) as (own' & Ht' & Hkeep).
    exists own'. split; [done|]. intros k x Hk Hx. apply Hkeep; [|done].
    rewrite own_lookup_set_ne; [done|]. intros E. rewrite E in Hfalsy.
    specialize (Hfalsy _ Hk). congruence.
Qed.

(** ** The first read through a proxy, and the later ones *)

Lemma create_object d t p own s :
  makes_object d t = Some (p, own) →
  create d t s
  = Ret (VRef (length (heap s))) (State (heap s ++ [OOrd p own])%list (built s)).
Proof.
  destruct d as [c|name [fields|l|msg|field k]]; simpl; try done.
  - unfold new_class. destruct (cls_throws c); [done|]. by intros [= <- <-].
  - by intros [= <- <-].
Qed.

Lemma plain_init_fields t fields : plain (init_fields t fields).
Proof.
  unfold init_fields.
  assert (∀ acc, plain acc →
            plain (fold_left
                     (fun own f => own_set f.1 (SData (init_value t f.2)) own)
                     fields acc)) as H.
  { induction fields as [|f fields IH]; intros acc Hacc; simpl; [done|].
    apply IH. by apply plain_set. }
  apply H. intros k o k'. done.
Qed.

Lemma makes_object_plain d t p own : makes_object d t = Some (p, own) → plain own.
Proof.
  destruct d as [c|name [fields|l|msg|field k]]; simpl; try done.
  - destruct (cls_throws c); [done|]. intros [= <- <-]. apply plain_init_fields.
  - intros [= <- <-]. apply plain_init_fields.
Qed.

(** The one object that a field of a new instance refers to is the
    container. *)
Lemma init_fields_refs t fields k x :
  own_lookup k (init_fields t fields) = Some (SData (VRef x)) → x = t.
Proof.
  unfold init_fields.
  assert (∀ acc,
            (∀ k x, own_lookup k acc = Some (SData (VRef x)) → x = t) →
            ∀ k x, own_lookup k
                     (fold_left
                        (fun own f => own_set f.1 (SData (init_value t f.2)) own)
                        fields acc) = Some (SData (VRef x)) → x = t) as H.
  { induction fields as [|f fields IH]; intros acc Hacc; simpl; [done|].
    apply IH. intros k' x'. rewrite own_lookup_set.
    destruct (String.eqb k' f.1); [|apply Hacc].
    destruct (f.2) as [|[]|]; simpl; congruence. }
  apply (H [] ltac:(done)).
Qed.

Lemma proto_get_no_ref p k x : proto_get p k ≠ VRef x.
Proof.
  destruct p as [| |c]; simpl; unfold object_member, class_member;
    repeat case_match; congruence.
Qed.

Lemma member_refs d t p own k x :
  makes_object d t = Some (p, own) → member p own k = VRef x → x = t.
Proof.
  intros Hmk. unfold member.
  destruct (own_lookup k own) as [[y|o k']|] eqn:Hk;
    [| by intros ?%proto_get_no_ref | by intros ?%proto_get_no_ref].
  intros ->. revert Hmk Hk.
  destruct d as [c|name [fields|l|msg|field k']]; simpl; try done.
  - destruct (cls_throws c); [done|]. intros [= <- <-]. apply init_fields_refs.
  - intros [= <- <-]. apply init_fields_refs.
Qed.

Lemma js_get_n_member n r s l p own k :
  heap s !! l = Some (OOrd p own) → plain own →
  js_get_n (S n) r (VRef l) k s = Ret (member p own k) s.
Proof.
  intros Hl Hpl. simpl. rewrite Hl. unfold member.
  destruct (own_lookup k own) as [[x|o k']|] eqn:Hk; [done| |done].
  by destruct (Hpl _ _ _ Hk).
Qed.

(** The three tests for "is a function" agree on every value that is
    not the handle of a service, and leave the state as it is. *)
Lemma is_function_typeof r s v :
  inert r s v →
  is_function r v s = Ret (String.eqb (typeof v) "function") s.
Proof.
  intros Hv. destruct r; try (by destruct v).
  destruct v as [| | | |l| | | |]; try done.
  destruct (Hv eq_refl l eq_refl) as (p & own & Hl).
  unfold is_function, instanceof_Function. simpl.
  unfold bind, js_getPrototypeOf, Object_getPrototypeOf. by rewrite Hl.
Qed.

Lemma inert_other r s v : (∀ l, v ≠ VRef l) → inert r s v.
Proof. intros H _ l ->. by destruct (H l). Qed.

Lemma inert_proto_get r s p k : inert r s (proto_get p k).
Proof. apply inert_other. intros l. apply proto_get_no_ref. Qed.

Lemma getInstance_initialized r s l h :
  heap s !! l = Some (OProxy h) → truthy (h_instance h) = true →
  getInstance r l s = Ret (h_instance h) s.
Proof. intros Hl Ht. unfold getInstance. by rewrite Hl, Ht. Qed.

Lemma js_get_n_proxy n r s l h k :
  heap s !! l = Some (OProxy h) →
  js_get_n (S n) r (VRef l) k s = get_trap r (js_get_n n r) l k s.
Proof. intros Hl. simpl. by rewrite Hl. Qed.

(** Reading through an initialised proxy: no construction, the state is
    left as it is. *)
Lemma js_get_initialized r s l h i p own k :
  heap s !! l = Some (OProxy h) → h_instance h = VRef i →
  heap s !! i = Some (OOrd p own) → plain own →
  inert r s (member p own k) →
  js_get r (VRef l) k s = Ret (bound_if_function (member p own k) (VRef i)) s.
Proof.
  intros Hl Hi Hobj Hpl Hv. unfold js_get.
  rewrite (js_get_n_proxy _ r s l h k Hl). unfold get_trap, bind.
  rewrite (getInstance_initialized r s l h Hl) by (by rewrite Hi).
  rewrite Hi. rewrite (js_get_n_member _ r s i p own k Hobj Hpl).
  by rewrite (is_function_typeof r s _ Hv).
Qed.

Lemma takes_entry_own r s h pt ownt a :
  heap s !! h_t h = Some (OOrd pt ownt) →
  own_lookup (h_name h) ownt = Some a → takes_entry r s h.
Proof. intros Ht Ha _ pt' ownt' Ht' Hn. congruence. Qed.

Lemma takes_entry_full r s h : full_traps r = true → takes_entry r s h.
Proof. intros Hr Hr'. congruence. Qed.

Lemma getInstance_constructs r s l h p own :
  heap s !! l = Some (OProxy h) → truthy (h_instance h) = false →
  makes_object (h_desc h) (h_t h) = Some (p, own) → ready r s h →
  takes_entry r s h →
  getInstance r l s
  = Ret (VRef (length (heap s))) (constructed_state r s l h p own).
Proof.
  intros Hl Hf Hmk Hready Htake. unfold getInstance. rewrite Hl, Hf.
  unfold bind at 1. unfold record_construction at 1.
  unfold bind at 1. rewrite (create_object _ _ _ _ _ Hmk). simpl.
  unfold constructed_state, write_through.
  destruct Hready as [Hr|(pt & ownt & Ht & Hpl)].
  - rewrite Hr. unfold bind, ret, set_instance, store. simpl.
    by rewrite (lookup_alloc_old _ _ _ _ Hl).
  - destruct (full_traps r) eqn:Hr.
    + unfold bind, ret, set_instance, store. simpl.
      by rewrite (lookup_alloc_old _ _ _ _ Hl).
    + unfold bind at 1.
      rewrite (obj_set_entry _ (h_t h) pt ownt);
        [| by apply lookup_alloc_old | intros o k' E; by destruct (Hpl _ _ _ E)
         | by apply (Htake Hr)].
      rewrite (lookup_alloc_old _ _ _ _ Ht).
      assert (h_t h ≠ l) as Hne by (intros E; congruence).
      unfold bind, ret, set_instance, store. simpl.
      rewrite list_lookup_insert_ne by done.
      by rewrite (lookup_alloc_old _ _ _ _ Hl).
Qed.

Lemma constructed_state_instance r s l h p own :
  heap s !! l = Some (OProxy h) → ready r s h →
  heap (constructed_state r s l h p own) !! length (heap s) = Some (OOrd p own).
Proof.
  intros Hl Hready. pose proof (lookup_lt_Some _ _ _ Hl) as Hlt. simpl.
  rewrite list_lookup_insert_ne by lia. unfold write_through.
  destruct (full_traps r) eqn:Hr; [apply lookup_alloc_new|].
  destruct Hready as [?|(pt & ownt & Ht & _)]; [congruence|].
  rewrite (lookup_alloc_old _ _ _ _ Ht).
  pose proof (lookup_lt_Some _ _ _ Ht).
  rewrite list_lookup_insert_ne by lia. apply lookup_alloc_new.
Qed.

(** The container of a proxy after the construction. *)
Lemma constructed_state_ordinary r s l h p own pt ownt :
  heap s !! l = Some (OProxy h) →
  heap s !! h_t h = Some (OOrd pt ownt) →
  ∃ ownt', heap (constructed_state r s l h p own) !! h_t h
           = Some (OOrd pt ownt').
Proof.
  intros Hl Ht. pose proof (lookup_lt_Some _ _ _ Ht) as Hlt.
  assert (h_t h ≠ l) as Hne by (intros E; congruence).
  simpl. rewrite list_lookup_insert_ne by done. unfold write_through.
  destruct (full_traps r).
  - exists ownt. by apply lookup_alloc_old.
  - rewrite (lookup_alloc_old _ _ _ _ Ht). eexists.
    rewrite list_lookup_insert_eq; [done|]. rewrite length_app. lia.
Qed.

(** The first read through a proxy constructs the instance and answers
    from it. *)
Lemma js_get_first r s l h p own k :
  heap s !! l = Some (OProxy h) → truthy (h_instance h) = false →
  makes_object (h_desc h) (h_t h) = Some (p, own) → ready r s h →
  takes_entry r s h →
  (r = Forwarding → ∃ pt ownt, heap s !! h_t h = Some (OOrd pt ownt)) →
  js_get r (VRef l) k s
  = Ret (bound_if_function (member p own k) (VRef (length (heap s))))
      (constructed_state r s l h p own).
Proof.
  intros Hl Hf Hmk Hready Htake Hcont. unfold js_get.
  rewrite (js_get_n_proxy _ r s l h k Hl). unfold get_trap, bind.
  rewrite (getInstance_constructs r s l h p own Hl Hf Hmk Hready Htake).
  rewrite (js_get_n_member _ r _ (length (heap s)) p own k);
    [| by apply constructed_state_instance | by eapply makes_object_plain].
  rewrite is_function_typeof; [done|].
  intros -> x Hx. pose proof (member_refs _ _ _ _ _ _ Hmk Hx) as ->.
  destruct (Hcont eq_refl) as (pt & ownt & Ht).
  destruct (constructed_state_ordinary Forwarding s l h p own pt ownt Hl Ht)
    as (ownt' & Ht').
  eauto.
Qed.

(** ** Everything a caller can do in [Forwarding] *)

Lemma sound_inject_one t d : sound Forwarding (inject_one Forwarding t d).
Proof.
  intros s s'. unfold inject_one, bind at 1, alloc.
  set (s1 := State (heap s ++ [OProxy (Handle d t (desc_name d) ProtoObject VUndef)])%list
                   (built s)).
  assert (evolves Forwarding s s1) as E1 by apply evolves_alloc.
  unfold bind at 1.
  destruct (mem (desc_name d) ReservedFields).
  { intros [= <-]. exact E1. }
  unfold ret at 1. unfold bind at 1. unfold has, hasOwnProperty.
  destruct (heap s1 !! t) as [[p own|h|lazy own]|] eqn:Ht; [| | |done].
  1,3: destruct (own_lookup (desc_name d) own) eqn:Hk;
    [ unfold bind, throw; simpl; intros [= <-]; exact E1
    | unfold bind at 1; unfold ret at 1; unfold bind;
      destruct (obj_set t (desc_name d) (VRef (length (heap s))) s1)
        as [u s2|e s2|x] eqn:Hset; simpl; [| |done];
      intros [= <-]; (eapply evolves_trans; [exact E1|]);
      (eapply evolves_obj_set_new;
         [exact Ht | reflexivity | exact Hk | by rewrite Hset]) ].
  unfold bind, ret, obj_set. by rewrite Ht.
Qed.

Lemma pure_for_each {A} (xs : list A) (f : A → M unit) :
  (∀ x, pure (f x)) → pure (for_each xs f).
Proof.
  intros Hf. induction xs as [|x xs IH]; simpl; [apply pure_ret|].
  apply pure_bind; [apply Hf | intros; apply IH].
Qed.

Lemma pure_check_keys_Forwarding t ks : pure (check_keys Forwarding t ks).
Proof.
  apply pure_for_each. intros k. unfold check_key. apply pure_bind.
  - apply pure_hasOwnProperty.
  - intros []; [apply pure_throw | apply pure_ret].
Qed.

(** The checking loop on a key, for a revision whose test is an
    own-property test in state [s]. *)
Lemma check_key_own r s t pt ownt k :
  collides r t k s = hasOwnProperty (VRef t) k s →
  heap s !! t = Some (OOrd pt ownt) →
  check_key r t k s
  = match own_lookup k ownt with
    | Some _ => Thrown (Error ("Containers have duplicated keys: " ++ k)) s
    | None => Ret tt s
    end.
Proof.
  intros Hown Ht. unfold check_key, bind. rewrite Hown.
  unfold hasOwnProperty. rewrite Ht. by destruct (own_lookup k ownt).
Qed.

(** A check that passes has found none of the keys in the container. *)
Lemma check_keys_passed t ks s u s1 p own :
  check_keys Forwarding t ks s = Ret u s1 →
  heap s !! t = Some (OOrd p own) →
  Forall (fun k => own_lookup k own = None) ks.
Proof.
  intros H Ht.
  induction ks as [|k ks IH]; [constructor|].
  simpl in H. unfold bind at 1 in H.
  rewrite (check_key_own Forwarding s t p own k eq_refl Ht) in H.
  destruct (own_lookup k own) eqn:Hk; [done|].
  constructor; [done|]. apply IH. exact H.
Qed.

(** The checking loop of [Forwarding], whatever the prototype of the
    target is. *)
Lemma check_keys_passed_entries t ks s u s1 o own :
  check_keys Forwarding t ks s = Ret u s1 →
  heap s !! t = Some o → entries o = Some own →
  Forall (fun k => own_lookup k own = None) ks.
Proof.
  intros H Ht He.
  induction ks as [|k ks IH]; [constructor|].
  simpl in H. unfold bind at 1 in H.
  assert (check_key Forwarding t k s
          = match own_lookup k own with
            | Some _ => Thrown (Error ("Containers have duplicated keys: " ++ k)) s
            | None => Ret tt s
            end) as Hck.
  { unfold check_key, bind, collides, has, hasOwnProperty. rewrite Ht.
    destruct o; simplify_eq/=; by destruct (own_lookup k own). }
  rewrite Hck in H.
  destruct (own_lookup k own) eqn:Hk; [done|].
  constructor; [done|]. apply IH. exact H.
Qed.

Lemma define_all_evolves r t other ks : ∀ s s',
  (∀ o own, heap s !! t = Some o → entries o = Some own →
     Forall (fun k => ∀ x, own_lookup k own ≠ Some (SData x)) ks) →
  final_state (for_each ks (fun key => define_getter t key other) s) = Some s' →
  evolves r s s'.
Proof.
  induction ks as [|k ks IH]; intros s s' Hks; simpl.
  { intros [= <-]. apply evolves_refl. }
  unfold bind at 1. unfold define_getter at 1.
  destruct (heap s !! t) as [[p own|h|lazy own]|] eqn:Ht; [| done | | done].
  - specialize (Hks _ _ eq_refl eq_refl). inversion Hks as [|? ? Hk Hrest]; subst.
    destruct (own_lookup k own) as [[x|o k']|] eqn:Hlk.
    + by destruct (Hk x).
    + intros [= <-]. apply evolves_refl.
    + unfold store. intros H.
      eapply evolves_trans;
        [eapply (evolves_set_slot r s t p own k (SGetter other k)); [done|congruence]|].
      apply IH; [|exact H]. simpl. intros o' own'.
      rewrite list_lookup_insert_eq by (by eapply lookup_lt_Some).
      intros [= <-] [= <-]. eapply Forall_impl; [exact Hrest|].
      intros k2 Hk2 x. rewrite own_lookup_set. simpl.
      destruct (String.eqb k2 k); [done | apply Hk2].
  - specialize (Hks _ _ eq_refl eq_refl). inversion Hks as [|? ? Hk Hrest]; subst.
    destruct (own_lookup k own) as [[x|o k']|] eqn:Hlk.
    + by destruct (Hk x).
    + intros [= <-]. apply evolves_refl.
    + unfold store. intros H.
      eapply evolves_trans;
        [eapply (evolves_set_slot_via r s t lazy own k (SGetter other k));
           [done|congruence]|].
      apply IH; [|exact H]. simpl. intros o' own'.
      rewrite list_lookup_insert_eq by (by eapply lookup_lt_Some).
      intros [= <-] [= <-]. eapply Forall_impl; [exact Hrest|].
      intros k2 Hk2 x. rewrite own_lookup_set. simpl.
      destruct (String.eqb k2 k); [done | apply Hk2].
Qed.

Lemma sound_injectContainer_Forwarding t other :
  sound Forwarding (injectContainer Forwarding t other).
Proof.
  intros s s'. unfold injectContainer, eachOwn. rewrite bind_assoc.
  unfold bind at 1.
  pose proof (pure_Object_getOwnPropertyNames (VRef other) s) as Pk.
  unfold Object_keys.
  destruct (Object_getOwnPropertyNames (VRef other) s) as [ks s0|e s0|x] eqn:Hks;
    simpl; [| |done].
  2:{ intros [= <-]. rewrite (Pk s0 eq_refl). apply evolves_refl. }
  rewrite (Pk s0 eq_refl) in *. clear Pk s0.
  unfold bind at 1.
  pose proof (pure_check_keys_Forwarding t ks s) as Pc.
  destruct (check_keys Forwarding t ks s) as [u s1|e s1|x] eqn:Hc; simpl; [| |done].
  2:{ intros [= <-]. rewrite (Pc s1 eq_refl). apply evolves_refl. }
  pose proof (Pc s1 eq_refl) as ->. clear Pc.
  unfold bind at 1. unfold bind at 1. rewrite Hks.
  pose proof (define_all_evolves Forwarding t other ks s) as Hd.
  destruct (for_each ks (fun key => define_getter t key other) s)
    as [u' s2|e s2|x] eqn:Hf; simpl; [| |done].
  - intros [= <-]. apply Hd; [|done]. intros o own Ht He.
    eapply Forall_impl; [by eapply check_keys_passed_entries|]. simpl. congruence.
  - intros [= <-]. apply Hd; [|done]. intros o own Ht He.
    eapply Forall_impl; [by eapply check_keys_passed_entries|]. simpl. congruence.
Qed.

Lemma sound_read_all r v ks : sound r (read_all r v ks).
Proof.
  induction ks as [|k ks IH]; simpl; [by_purity|].
  apply sound_bind; [apply sound_js_get|]. intros x.
  apply sound_bind; [apply IH|]. intros. by_purity.
Qed.

Lemma sound_Object_values r v : sound r (Object_values r v).
Proof.
  apply sound_bind; [apply pure_sound, pure_Object_getOwnPropertyNames|].
  intros. apply sound_read_all.
Qed.

Lemma evolves_perform fuel op s s' :
  perform fuel op s = Some s' → evolves Forwarding s s'.
Proof.
  destruct op; simpl.
  - apply sound_inject_one.
  - apply sound_injectContainer_Forwarding.
  - apply sound_js_get.
  - apply sound_js_has.
  - apply sound_js_getPrototypeOf.
  - apply sound_js_ownKeys.
  - apply sound_Object_values.
  - apply sound_eval_call.
Qed.

Lemma evolves_perform_all fuel ops : ∀ s s',
  perform_all fuel ops s = Some s' → evolves Forwarding s s'.
Proof.
  induction ops as [|op ops IH]; intros s s'; simpl.
  - intros [= <-]. apply evolves_refl.
  - destruct (perform fuel op s) as [s1|] eqn:E; [|done].
    intros H. eapply evolves_trans; [by eapply evolves_perform | by apply IH].
Qed.

Lemma constructed_state_container r s l h p own pt ownt :
  heap s !! l = Some (OProxy h) →
  heap s !! h_t h = Some (OOrd pt ownt) →
  heap (constructed_state r s l h p own) !! h_t h
  = Some (OOrd pt (if full_traps r then ownt
                   else own_set (h_name h) (SData (VRef (length (heap s)))) ownt)).
Proof.
  intros Hl Ht. simpl.
  assert (l ≠ h_t h) by (intros E; congruence).
  rewrite list_lookup_insert_ne by done. unfold write_through.
  destruct (full_traps r); [by apply lookup_alloc_old|].
  rewrite (lookup_alloc_old _ _ _ _ Ht).
  rewrite list_lookup_insert_eq; [done|].
  rewrite length_app. pose proof (lookup_lt_Some _ _ _ Ht). simpl. lia.
Qed.

(** ** Counting constructions *)

(** [getInstance] on a proxy whose [instance] is falsy invokes the
    constructor or factory, whatever comes of it. *)
Lemma getInstance_falsy r s l h :
  heap s !! l = Some (OProxy h) → truthy (h_instance h) = false →
  match getInstance r l s with
  | Ret v s1 => built s1 = (built s ++ [l])%list ∧
                heap s1 !! l = Some (OProxy (with_instance h v))
  | Thrown _ s1 => built s1 = (built s ++ [l])%list
  | Abort _ => True
  end.
Proof.
  intros Hl Hf. unfold getInstance. rewrite Hl, Hf.
  unfold bind at 1. unfold record_construction at 1.
  set (s0 := State (heap s) (built s ++ [l])).
  unfold bind at 1.
  pose proof (create_keeps (h_desc h) (h_t h) s0 _ eq_refl) as Kc.
  destruct (create (h_desc h) (h_t h) s0) as [v s1|e s1|x]; [| |done].
  2:{ by destruct (Kc s1 eq_refl) as [-> _]. }
  destruct (Kc s1 eq_refl) as [Hb Kh]. clear Kc.
  assert (heap s1 !! l = Some (OProxy h)) as Hl1 by (by apply Kh).
  unfold bind at 1.
  assert (∀ s2 : state, heap s2 !! l = Some (OProxy h) → built s2 = built s0 →
          match (set_instance l v ;;; ret v) s2 with
          | Ret v' s3 => built s3 = built s0 ∧
                         heap s3 !! l = Some (OProxy (with_instance h v'))
          | Thrown _ s3 => built s3 = built s0
          | Abort _ => True
          end) as Hset.
  { intros s2 Hl2 Hb2. unfold bind, set_instance, store, ret. rewrite Hl2. simpl.
    split; [done|]. rewrite list_lookup_insert_eq; [done|].
    by eapply lookup_lt_Some. }
  destruct (full_traps r).
  - simpl. by apply Hset.
  - pose proof (obj_set_keeps_proxy (h_t h) (h_name h) v s1) as Ko.
    pose proof (obj_set_built (h_t h) (h_name h) v s1) as Kb.
    destruct (obj_set (h_t h) (h_name h) v s1) as [u s2|e s2|x]; [| |done].
    + apply Hset; [by eapply Ko | by rewrite (Kb s2 eq_refl)].
    + by rewrite (Kb s2 eq_refl).
Qed.

Lemma constructions_logged s s1 l :
  built s1 = (built s ++ [l])%list → constructions l s1 = S (constructions l s).
Proof.
  intros H. unfold constructions. rewrite H, filter_app, length_app.
  rewrite filter_cons_True by done. simpl. lia.
Qed.

Lemma pure_js_get_n_falsy n r v k : truthy v = false → pure (js_get_n n r v k).
Proof.
  intros Hv. destruct n; simpl; [apply pure_abort|].
  destruct v; try done; auto with js.
Qed.

Lemma js_get_n_falsy_no_result n r v k s x s' :
  truthy v = false → js_get_n n r v k s ≠ Ret x s'.
Proof. intros Hv. destruct n; simpl; [done|]. by destruct v. Qed.

Lemma pure_has_falsy r v k : truthy v = false → pure (has r v k).
Proof.
  intros Hv. unfold has. destruct r; try apply pure_hasOwnProperty.
  intros s s'. unfold bind.
  pose proof (pure_js_get_n_falsy (S (S (length (heap s)))) Assigning v
                "hasOwnProperty" Hv s) as P.
  pose proof (js_get_n_falsy_no_result (S (S (length (heap s)))) Assigning v
                "hasOwnProperty" s) as N.
  unfold js_get.
  destruct (js_get_n _ Assigning v "hasOwnProperty" s) as [f s1|e s1|x].
  - by destruct (N f s1 Hv).
  - intros [= <-]. by apply P.
  - done.
Qed.

(** After [getInstance], what follows does not construct again. *)
Lemma count_stable_after {A} r l h v s1 (m : M A) s2 :
  heap s1 !! l = Some (OProxy (with_instance h v)) →
  sound r m → (truthy v = false → pure m) →
  final_state (m s1) = Some s2 →
  constructions l s2 = constructions l s1 ∧
  (truthy v = true → heap s2 !! l = Some (OProxy (with_instance h v))).
Proof.
  intros Hl Hs Hp H. destruct (truthy v) eqn:Hv.
  - destruct (Hs _ _ H) as [_ Hproxy].
    destruct (Hproxy _ _ Hl) as (w & Hl2 & Hw).
    destruct Hw as [-> ->]; [done|]. done.
  - rewrite (Hp eq_refl _ _ H). done.
Qed.

(** The step shared by all traps: [getInstance], then a continuation. *)
Lemma trap_counts {A} r l h s (m : value → M A) s' :
  heap s !! l = Some (OProxy h) → truthy (h_instance h) = false →
  (∀ v, sound r (m v)) → (∀ v, truthy v = false → pure (m v)) →
  final_state ((v <- getInstance r l ;; m v) s) = Some s' →
  constructions l s' = S (constructions l s) ∧
  ∀ a, (v <- getInstance r l ;; m v) s = Ret a s' →
       ∃ v, heap s' !! l = Some (OProxy (with_instance h v)) ∧
            (truthy v = false → ∃ s1, m v s1 = Ret a s').
Proof.
  intros Hl Hf Hs Hp. unfold bind.
  pose proof (getInstance_falsy r s l h Hl Hf) as G.
  destruct (getInstance r l s) as [v s1|e s1|x]; [| |done].
  - destruct G as [Hb Hl1]. intros H.
    destruct (count_stable_after r l h v s1 (m v) s' Hl1 (Hs v) (Hp v) H)
      as [Hc Hkeep].
    split; [rewrite Hc; by apply constructions_logged|].
    intros a Ha. exists v. destruct (truthy v) eqn:Hv.
    + split; [by apply Hkeep | done].
    + split; [|intros _; by exists s1].
      rewrite (Hp v Hv _ _ H). exact Hl1.
  - intros [= <-]. split; [by apply constructions_logged | done].
Qed.

Lemma pure_bind_no_result {A B} (m : M A) (f : A → M B) :
  pure m → (∀ s a s', m s ≠ Ret a s') → pure (bind m f).
Proof.
  intros Hp Hn s s'. unfold bind. pose proof (Hp s) as P. pose proof (Hn s) as N.
  destruct (m s) as [a s1|e s1|x]; simpl.
  - by destruct (N a s1).
  - intros [= <-]. by apply P.
  - done.
Qed.

(** An interaction that reaches [getInstance] on a proxy whose
    [instance] is falsy invokes the constructor or factory once. *)
Lemma interact_triggers fuel r s l h i s' :
  heap s !! l = Some (OProxy h) → truthy (h_instance h) = false →
  triggers r i = true →
  final_state (interact fuel r l i s) = Some s' →
  constructions l s' = S (constructions l s).
Proof.
  intros Hl Hf Htr. destruct i as [k|k| |k]; simpl in *.
  - unfold js_get. rewrite (js_get_n_proxy _ r s l h k Hl). unfold get_trap.
    intros H. eapply trap_counts; [exact Hl|exact Hf| | |exact H].
    + intros v. apply sound_bind; [apply sound_js_get_n|]. intros.
      apply sound_bind; [apply sound_is_function|]. intros. by_purity.
    + intros v Hv. apply pure_bind_no_result; [by apply pure_js_get_n_falsy|].
      intros. by apply js_get_n_falsy_no_result.
  - unfold bind at 1. unfold js_get.
    rewrite (js_get_n_proxy _ r s l h k Hl). unfold get_trap.
    fold (bind (instance <- getInstance r l ;;
                value <- js_get_n (S (length (heap s))) r instance k ;;
                bind_it <- is_function r value ;;
                ret (if bind_it : bool then VBound value instance else value))
               (fun f => call fuel r f (VRef l)) s).
    rewrite bind_assoc. intros H.
    eapply trap_counts; [exact Hl|exact Hf| | |exact H].
    + intros v. apply sound_bind.
      * apply sound_bind; [apply sound_js_get_n|]. intros.
        apply sound_bind; [apply sound_is_function|]. intros. by_purity.
      * intros. apply sound_eval_call.
    + intros v Hv. apply pure_bind_no_result.
      * apply pure_bind_no_result; [by apply pure_js_get_n_falsy|].
        intros. by apply js_get_n_falsy_no_result.
      * intros s1 a s2. unfold bind.
        pose proof (js_get_n_falsy_no_result (S (length (heap s))) r v k s1) as N.
        destruct (js_get_n _ r v k s1) as [x s3|e s3|x]; [|done..].
        by destruct (N x s3 Hv).
  - unfold js_getPrototypeOf. rewrite Hl, Htr. intros H.
    eapply trap_counts; [exact Hl|exact Hf| | |exact H].
    + intros v. apply pure_sound, pure_Object_getPrototypeOf.
    + intros v _. apply pure_Object_getPrototypeOf.
  - unfold bind at 1. unfold js_has. rewrite Hl, Htr.
    fold (bind (instance <- getInstance r l ;; has r instance k)
               (fun b => ret (VBool b)) s).
    rewrite bind_assoc. intros H.
    eapply trap_counts; [exact Hl|exact Hf| | |exact H].
    + intros v. apply sound_bind; [apply sound_has|]. intros. by_purity.
    + intros v Hv. apply pure_bind; [by apply pure_has_falsy|].
      intros. apply pure_ret.
Qed.

(** An interaction that reaches [getInstance] starts with it. *)
Lemma interact_after_getInstance fuel r s l h i :
  heap s !! l = Some (OProxy h) → triggers r i = true →
  ∃ m : value → M value,
    (∀ v, sound r (m v)) ∧
    interact fuel r l i s = (v <- getInstance r l ;; m v) s.
Proof.
  intros Hl Htr. destruct i as [k|k| |k]; simpl in *.
  - eexists. split; [|unfold js_get; by rewrite (js_get_n_proxy _ r s l h k Hl)].
    intros v. apply sound_bind; [apply sound_js_get_n|]. intros.
    apply sound_bind; [apply sound_is_function|]. intros. by_purity.
  - eexists (fun v => f <- (value <- js_get_n (S (length (heap s))) r v k ;;
                            bind_it <- is_function r value ;;
                            ret (if bind_it : bool then VBound value v else value)) ;;
                      call fuel r f (VRef l)).
    split.
    + intros v. apply sound_bind; [|intros; apply sound_eval_call].
      apply sound_bind; [apply sound_js_get_n|]. intros.
      apply sound_bind; [apply sound_is_function|]. intros. by_purity.
    + unfold bind at 1. unfold js_get.
      rewrite (js_get_n_proxy _ r s l h k Hl). unfold get_trap.
      by rewrite <- bind_assoc.
  - exists Object_getPrototypeOf. split.
    + intros v. apply pure_sound, pure_Object_getPrototypeOf.
    + unfold js_getPrototypeOf. by rewrite Hl, Htr.
  - exists (fun v => b <- has r v k ;; ret (VBool b)). split.
    + intros v. apply sound_bind; [apply sound_has|]. intros. by_purity.
    + unfold bind at 1. unfold js_has. rewrite Hl, Htr.
      by rewrite <- bind_assoc.
Qed.

(** A prototype query and a membership test on a proxy that has only
    the [get] trap are answered by the proxy target. *)
Lemma interact_target fuel r s l h i :
  heap s !! l = Some (OProxy h) → triggers r i = false →
  interact fuel r l i s
  = Ret (match i with
         | MembershipTest k => VBool (proto_has (h_target h) k)
         | _ => VProto (h_target h)
         end) s.
Proof.
  intros Hl Htr. destruct i as [k|k| |k]; simpl in *; try done.
  - unfold js_getPrototypeOf. by rewrite Hl, Htr.
  - unfold bind, js_has. by rewrite Hl, Htr.
Qed.

(** *** Looking at the container itself *)

Lemma js_get_n_container_pure n r s : getters_closed s →
  ∀ l p own k s', heap s !! l = Some (OOrd p own) →
    final_state (js_get_n n r (VRef l) k s) = Some s' → s' = s.
Proof.
  intros Hcl. induction n as [|n IH]; intros l p own k s' Hl; simpl; [done|].
  rewrite Hl. destruct (own_lookup k own) as [[x|o k']|] eqn:Hk.
  - by intros [= <-].
  - destruct (Hcl _ _ _ _ _ _ Hl Hk) as (p' & own' & Ho). by eapply IH.
  - by intros [= <-].
Qed.

Lemma read_all_container_pure r s ks : getters_closed s →
  ∀ l p own s', heap s !! l = Some (OOrd p own) →
    final_state (read_all r (VRef l) ks s) = Some s' → s' = s.
Proof.
  intros Hcl l p own s' Hl. revert s'.
  induction ks as [|k ks IH]; intros s'; simpl.
  - by intros [= <-].
  - unfold bind at 1. unfold js_get.
    pose proof (js_get_n_container_pure (S (S (length (heap s)))) r s Hcl
                  l p own k) as P.
    destruct (js_get_n _ r (VRef l) k s) as [x s1|e s1|y]; simpl; [| |done].
    + rewrite (P s1 Hl eq_refl). unfold bind at 1.
      destruct (read_all r (VRef l) ks s) as [xs s2|e s2|y]; simpl; [| |done].
      * intros [= <-]. by apply IH.
      * intros [= <-]. by apply IH.
    + intros [= <-]. by apply P.
Qed.

Lemma read_all_plain r s l p own ks :
  heap s !! l = Some (OOrd p own) → plain own →
  read_all r (VRef l) ks s = Ret (map (member p own) ks) s.
Proof.
  intros Hl Hpl. induction ks as [|k ks IH]; simpl; [done|].
  unfold bind at 1. unfold js_get.
  rewrite (js_get_n_member _ r s l p own k Hl Hpl).
  unfold bind at 1. by rewrite IH.
Qed.

(** ** One construction per proxy *)

Lemma constructed_state_handle r s l h p own :
  heap s !! l = Some (OProxy h) →
  heap (constructed_state r s l h p own) !! l
  = Some (OProxy (with_instance h (VRef (length (heap s))))) ∧
  constructions l (constructed_state r s l h p own) = S (constructions l s).
Proof.
  intros Hl. split; [|by apply constructions_logged].
  simpl. rewrite list_lookup_insert_eq; [done|].
  pose proof (lookup_lt_Some _ _ _ Hl) as Hlt. unfold write_through.
  destruct (full_traps r); [rewrite length_app; lia|].
  destruct ((heap s ++ [OOrd p own])%list !! h_t h) as [[pt ownt|h'|lazy ownt]|];
    rewrite ?length_insert, length_app; lia.
Qed.

(** A proxy that is initialised stays as it is, and is not constructed
    again, whatever happens. *)
Lemma initialised_forever r s s' l h :
  evolves r s s' →
  heap s !! l = Some (OProxy h) → truthy (h_instance h) = true →
  heap s' !! l = Some (OProxy h) ∧ constructions l s' = constructions l s.
Proof.
  intros [_ Hproxy] Hl Ht. destruct (Hproxy _ _ Hl) as (v & Hl' & Hv).
  destruct (Hv Ht) as [-> Hc]. by rewrite with_instance_id in Hl'.
Qed.

(** ** Merging in [Forwarding], in general *)

Lemma indexed_named_Permutation ks : (indexed ks).*2 ++ named ks ≡ₚ ks.
Proof.
  induction ks as [|k ks IH]; [done|].
  unfold indexed, named in *. simpl.
  destruct (array_index k) as [n|] eqn:E.
  - rewrite filter_cons_False by (rewrite E; done). simpl. by rewrite IH.
  - rewrite filter_cons_True by done.
    rewrite <- Permutation_middle. by rewrite IH.
Qed.

Lemma own_keys_Permutation own : own_keys own ≡ₚ own.*1.
Proof.
  unfold own_keys. rewrite merge_sort_Permutation.
  apply indexed_named_Permutation.
Qed.

Lemma own_lookup_None k own : own_lookup k own = None ↔ k ∉ own.*1.
Proof.
  induction own as [|[k' a] own IH]; simpl.
  - split; [intros _; apply not_elem_of_nil | done].
  - rewrite not_elem_of_cons. destruct (String.eqb_spec k k') as [->|Hne].
    + split; [done | intros [? _]; done].
    + rewrite IH. split; [done | by intros [_ ?]].
Qed.

Lemma own_keys_lookup k own : k ∈ own_keys own ↔ is_Some (own_lookup k own).
Proof.
  rewrite own_keys_Permutation, <- not_eq_None_Some, own_lookup_None.
  split; [by intros ? ?|]. intros H. by destruct (decide (k ∈ own.*1)).
Qed.

(** The check fails at the first key of the source that the target has,
    and the target is as it was; this for a revision whose test is an
    own-property test in state [s]. *)
Lemma check_keys_collision r s t pt ownt ks :
  (∀ k, collides r t k s = hasOwnProperty (VRef t) k s) →
  heap s !! t = Some (OOrd pt ownt) →
  Exists (fun k => is_Some (own_lookup k ownt)) ks →
  ∃ k, k ∈ ks ∧ is_Some (own_lookup k ownt) ∧
    check_keys r t ks s
    = Thrown (Error ("Containers have duplicated keys: " ++ k)) s.
Proof.
  intros Hown Ht.
  induction ks as [|k ks IH]; intros Hex; [by apply Exists_nil in Hex|].
  simpl. unfold bind at 1.
  rewrite (check_key_own r s t pt ownt k (Hown k) Ht).
  destruct (own_lookup k ownt) as [a|] eqn:Hk.
  - exists k. split_and!; [by left | by rewrite Hk | done].
  - apply Exists_cons in Hex as [[a Ha]|Hex]; [congruence|].
    destruct (IH Hex) as (k0 & Hin & Hsome & Hcheck).
    exists k0. split_and!; [by right | done | exact Hcheck].
Qed.

Lemma check_keys_disjoint r s t pt ownt ks :
  (∀ k, collides r t k s = hasOwnProperty (VRef t) k s) →
  heap s !! t = Some (OOrd pt ownt) →
  Forall (fun k => own_lookup k ownt = None) ks →
  check_keys r t ks s = Ret tt s.
Proof.
  intros Hown Ht.
  induction ks as [|k ks IH]; intros Hall; [done|].
  inversion Hall as [|? ? Hk Hrest]; subst.
  simpl. unfold bind at 1.
  rewrite (check_key_own r s t pt ownt k (Hown k) Ht), Hk. by apply IH.
Qed.

Lemma define_all_fresh t other ks : ∀ s pt ownt,
  heap s !! t = Some (OOrd pt ownt) →
  Forall (fun k => own_lookup k ownt = None) ks → NoDup ks →
  for_each ks (fun key => define_getter t key other) s
  = Ret tt (State (<[t := OOrd pt (with_getters other ks ownt)]> (heap s))
              (built s)).
Proof.
  induction ks as [|k ks IH]; intros s pt ownt Ht Hall Hnd; simpl.
  - unfold ret. f_equal. destruct s as [hp b]. simpl in *.
    by rewrite list_insert_id.
  - inversion Hall as [|? ? Hk Hrest]; subst.
    apply NoDup_cons in Hnd as [Hnin Hnd].
    unfold bind at 1. unfold define_getter at 1. rewrite Ht, Hk.
    unfold store.
    rewrite (IH _ pt (own_set k (SGetter other k) ownt)); simpl.
    + by rewrite list_insert_insert_eq.
    + rewrite list_lookup_insert_eq; [done | by eapply lookup_lt_Some].
    + apply Forall_forall. intros k2 Hin.
      rewrite own_lookup_set_ne;
        [exact (proj1 (Forall_forall _ _) Hrest k2 Hin)|].
      intros ->. done.
    + done.
Qed.

Lemma with_getters_lookup other ks : ∀ own k,
  own_lookup k (with_getters other ks own)
  = if decide (k ∈ ks) then Some (SGetter other k) else own_lookup k own.
Proof.
  induction ks as [|k' ks IH]; intros own k.
  - change (with_getters other [] own) with own.
    destruct (decide (k ∈ [])) as [H|_]; [by apply elem_of_nil in H | done].
  - change (with_getters other (k' :: ks) own)
      with (with_getters other ks (own_set k' (SGetter other k') own)).
    rewrite IH, own_lookup_set.
    destruct (decide (k ∈ ks)) as [Hin|Hnin];
      destruct (decide (k ∈ k' :: ks)) as [Hin'|Hnin']; try done.
    + destruct Hnin'. by right.
    + apply elem_of_cons in Hin' as [->|?]; [|done].
      by rewrite String.eqb_refl.
    + destruct (String.eqb_spec k k') as [->|]; [|done].
      destruct Hnin'. by left.
Qed.

(** In [Forwarding], for any two containers, the source with distinct
    keys.  If a name occurs in both, [injectContainer] throws an error
    that names such a key and leaves the state as it is.  If none does,
    it returns the target and constructs nothing; the target keeps its
    entries and has, for each key of the source, a getter that forwards
    to the source, so that reading an entry of the source through the
    target gives the very value the source holds: a proxy is shared,
    not copied. *)
Lemma injectContainer_Forwarding s t other pt ownt po owno :
  heap s !! t = Some (OOrd pt ownt) →
  heap s !! other = Some (OOrd po owno) →
  NoDup owno.*1 →
  (∃ k, k ∈ owno.*1 ∧ k ∈ ownt.*1 ∧
        injectContainer Forwarding t other s
        = Thrown (Error ("Containers have duplicated keys: " ++ k)) s) ∨
  ((∀ k, k ∈ owno.*1 → k ∉ ownt.*1) ∧
   ∃ s' own', injectContainer Forwarding t other s = Ret t s' ∧
     built s' = built s ∧
     heap s' !! t = Some (OOrd pt own') ∧
     (∀ l, l ≠ t → heap s' !! l = heap s !! l) ∧
     (∀ k a, own_lookup k ownt = Some a → own_lookup k own' = Some a) ∧
     (∀ k, k ∈ owno.*1 → own_lookup k own' = Some (SGetter other k)) ∧
     (∀ k, k ∉ owno.*1 → own_lookup k own' = own_lookup k ownt) ∧
     (∀ k x, own_lookup k owno = Some (SData x) →
        js_get Forwarding (VRef t) k s' = Ret x s')).
Proof.
  intros Ht Ho Hnd.
  assert (Object_getOwnPropertyNames (VRef other) s = Ret (own_keys owno) s)
    as Hkeys.
  { unfold Object_getOwnPropertyNames. by rewrite Ho. }
  destruct (decide (Exists (fun k => is_Some (own_lookup k ownt)) (own_keys owno)))
    as [Hex|Hnone].
  - left. destruct (check_keys_collision Forwarding s t pt ownt _
                      (fun _ => eq_refl) Ht Hex)
      as (k & Hin & Hsome & Hcheck).
    exists k. split_and!.
    + by rewrite <- own_keys_Permutation.
    + apply own_keys_lookup in Hsome. by rewrite <- own_keys_Permutation.
    + unfold injectContainer, eachOwn, keys, Object_keys, bind. by rewrite Hkeys, Hcheck.
  - right. apply not_Exists_Forall in Hnone; [|apply _].
    assert (Forall (fun k => own_lookup k ownt = None) (own_keys owno)) as Hall.
    { eapply Forall_impl; [exact Hnone|]. simpl. intros k Hk.
      destruct (own_lookup k ownt) eqn:E; [|done]. destruct Hk. by eexists. }
    assert (∀ k, k ∈ owno.*1 → own_lookup k ownt = None) as Hdisj.
    { intros k Hin. apply (proj1 (Forall_forall _ _) Hall).
      by rewrite own_keys_Permutation. }
    assert (owno ≠ [] → t ≠ other) as Hsep.
    { intros Hne ->. assert (ownt = owno) as -> by congruence.
      destruct owno as [|[k a] owno]; [done|].
      specialize (Hdisj k ltac:(by left)). simpl in Hdisj.
      by rewrite String.eqb_refl in Hdisj. }
    split; [intros k Hin; by apply own_lookup_None, Hdisj|].
    assert (NoDup (own_keys owno)) as Hnd' by (by rewrite own_keys_Permutation).
    exists (State (<[t := OOrd pt (with_getters other (own_keys owno) ownt)]> (heap s))
                  (built s)),
           (with_getters other (own_keys owno) ownt).
    assert (heap (State (<[t := OOrd pt (with_getters other (own_keys owno) ownt)]>
                           (heap s)) (built s)) !! t
            = Some (OOrd pt (with_getters other (own_keys owno) ownt))) as Ht'.
    { simpl. rewrite list_lookup_insert_eq; [done | by eapply lookup_lt_Some]. }
    split_and!.
    + unfold injectContainer, eachOwn, keys, Object_keys, bind.
      rewrite Hkeys, (check_keys_disjoint Forwarding s t pt ownt _
                        (fun _ => eq_refl) Ht Hall), Hkeys.
      by rewrite (define_all_fresh t other _ s pt ownt Ht Hall Hnd').
    + done.
    + exact Ht'.
    + intros l Hl. simpl. by rewrite list_lookup_insert_ne.
    + intros k a Hk. rewrite with_getters_lookup, decide_False; [done|].
      rewrite own_keys_Permutation. intros Hin. rewrite (Hdisj k Hin) in Hk. done.
    + intros k Hin. rewrite with_getters_lookup, decide_True; [done|].
      by rewrite own_keys_Permutation.
    + intros k Hnin. rewrite with_getters_lookup, decide_False; [done|].
      by rewrite own_keys_Permutation.
    + intros k x Hk.
      assert (k ∈ owno.*1) as Hin.
      { rewrite <- own_keys_Permutation. apply own_keys_lookup. by rewrite Hk. }
      assert (t ≠ other) as Hne by (apply Hsep; by intros ->).
      unfold js_get.
      change (js_get_n (S (S ?n)) Forwarding (VRef t) k ?st)
        with (match heap st !! t with
              | Some (OOrd p own) =>
                  match own_lookup k own with
                  | Some (SData x) => Ret x st
                  | Some (SGetter o k') => js_get_n (S n) Forwarding (VRef o) k' st
                  | None => Ret (proto_get p k) st
                  end
              | Some (OProxy _) =>
                  get_trap Forwarding (js_get_n (S n) Forwarding) t k st
              | Some (OVia lazy own) =>
                  match own_lookup k own with
                  | Some (SData x) => Ret x st
                  | Some (SGetter o k') => js_get_n (S n) Forwarding (VRef o) k' st
                  | None => get_trap Forwarding (js_get_n (S n) Forwarding) lazy k st
                  end
              | None => Abort Unmodelled
              end).
      rewrite Ht', with_getters_lookup, decide_True
        by (by rewrite own_keys_Permutation).
      simpl. rewrite list_lookup_insert_ne by done. by rewrite Ho, Hk.
Qed.

(** ** Merging in [Assigning], when nothing shadows [hasOwnProperty] *)

(** As long as the container has no entry named [hasOwnProperty], the
    helper [has] of [Assigning] finds the method of [Object.prototype]
    and is the own-property test. *)
Lemma has_Assigning_unshadowed s t own k :
  heap s !! t = Some (OOrd ProtoContainer own) →
  own_lookup "hasOwnProperty" own = None →
  has Assigning (VRef t) k s = hasOwnProperty (VRef t) k s.
Proof.
  intros Ht Hk. unfold has, bind.
  by rewrite (js_get_inherited Assigning s t ProtoContainer own _ Ht Hk).
Qed.

Lemma with_copies_lookup p owno ks : ∀ own k,
  own_lookup k (with_copies p owno ks own)
  = if decide (k ∈ ks) then Some (SData (member p owno k)) else own_lookup k own.
Proof.
  induction ks as [|k' ks IH]; intros own k.
  - change (with_copies p owno [] own) with own.
    destruct (decide (k ∈ [])) as [H|_]; [by apply elem_of_nil in H | done].
  - change (with_copies p owno (k' :: ks) own)
      with (with_copies p owno ks (own_set k' (SData (member p owno k')) own)).
    rewrite IH, own_lookup_set.
    destruct (decide (k ∈ ks)) as [Hin|Hnin];
      destruct (decide (k ∈ k' :: ks)) as [Hin'|Hnin']; try done.
    + destruct Hnin'. by right.
    + apply elem_of_cons in Hin' as [->|?]; [|done].
      by rewrite String.eqb_refl.
    + destruct (String.eqb_spec k k') as [->|]; [|done].
      destruct Hnin'. by left.
Qed.

(** [Object.assign], when no key of the source meets the setter of
    [__proto__] on the target. *)
Lemma assign_all r t other po owno ks : ∀ s pt ownt,
  t ≠ other →
  heap s !! t = Some (OOrd pt ownt) → plain ownt →
  heap s !! other = Some (OOrd po owno) → plain owno →
  Forall (fun k => own_lookup k ownt = None → meets_setter pt k = false) ks →
  for_each ks (fun key => v <- js_get r (VRef other) key ;; obj_set t key v) s
  = Ret tt (State (<[t := OOrd pt (with_copies po owno ks ownt)]> (heap s))
              (built s)).
Proof.
  induction ks as [|k ks IH]; intros s pt ownt Hne Ht Hplt Ho Hplo Hks; simpl.
  - unfold ret. f_equal. destruct s as [hp b]. simpl in *.
    by rewrite list_insert_id.
  - inversion Hks as [|? ? Hk Hrest]; subst.
    unfold bind at 1. unfold bind at 1. unfold js_get.
    rewrite (js_get_n_member _ r s other po owno k Ho Hplo).
    rewrite (obj_set_entry s t pt ownt k _ Ht);
      [| intros o k' E; by destruct (Hplt _ _ _ E) | done].
    rewrite (IH _ pt (own_set k (SData (member po owno k)) ownt)); simpl.
    + by rewrite list_insert_insert_eq.
    + done.
    + rewrite list_lookup_insert_eq; [done | by eapply lookup_lt_Some].
    + by apply plain_set.
    + by rewrite list_lookup_insert_ne.
    + done.
    + eapply Forall_impl; [exact Hrest|]. simpl. intros k2 Hk2.
      rewrite own_lookup_set. destruct (String.eqb k2 k); [done | exact Hk2].
Qed.

(** In [Assigning], for a target without an entry named
    [hasOwnProperty] and containers with data properties only: a name
    in both makes [injectContainer] throw an error that names such a
    key, in the state as it was; otherwise the target keeps its entries
    and receives a copy of each entry of the source, the very value the
    source holds, and nothing is constructed. *)
Lemma injectContainer_Assigning s t other ownt po owno :
  heap s !! t = Some (OOrd ProtoContainer ownt) → plain ownt →
  heap s !! other = Some (OOrd po owno) → plain owno →
  own_lookup "hasOwnProperty" ownt = None →
  own_lookup "__proto__" owno = None →
  (∃ k, k ∈ owno.*1 ∧ k ∈ ownt.*1 ∧
        injectContainer Assigning t other s
        = Thrown (Error ("Containers have duplicated keys: " ++ k)) s) ∨
  ((∀ k, k ∈ owno.*1 → k ∉ ownt.*1) ∧
   ∃ s' own', injectContainer Assigning t other s = Ret t s' ∧
     built s' = built s ∧
     heap s' !! t = Some (OOrd ProtoContainer own') ∧
     (∀ l, l ≠ t → heap s' !! l = heap s !! l) ∧
     (∀ k a, own_lookup k ownt = Some a → own_lookup k own' = Some a) ∧
     (∀ k x, own_lookup k owno = Some (SData x) →
        own_lookup k own' = Some (SData x)) ∧
     (∀ k, k ∉ owno.*1 → own_lookup k own' = own_lookup k ownt)).
Proof.
  intros Ht Hplt Ho Hplo Hshadow Hproto.
  assert (Object_getOwnPropertyNames (VRef other) s = Ret (own_keys owno) s)
    as Hkeys.
  { unfold Object_getOwnPropertyNames. by rewrite Ho. }
  assert (Forall (fun k => own_lookup k ownt = None →
                           meets_setter ProtoContainer k = false)
            (own_keys owno)) as Hsetter.
  { apply Forall_forall. intros k Hk _.
    destruct (meets_setter ProtoContainer k) eqn:E; [|done].
    apply meets_setter_name in E as ->.
    apply own_keys_lookup in Hk as [a Ha]. congruence. }
  assert (∀ k, collides Assigning t k s = hasOwnProperty (VRef t) k s) as Hown.
  { intros k. by eapply has_Assigning_unshadowed. }
  destruct (decide (Exists (fun k => is_Some (own_lookup k ownt)) (own_keys owno)))
    as [Hex|Hnone].
  - left. destruct (check_keys_collision Assigning s t _ ownt _ Hown Ht Hex)
      as (k & Hin & Hsome & Hcheck).
    exists k. split_and!.
    + by rewrite <- own_keys_Permutation.
    + apply own_keys_lookup in Hsome. by rewrite <- own_keys_Permutation.
    + unfold injectContainer, eachOwn, keys, Object_keys, bind. by rewrite Hkeys, Hcheck.
  - right. apply not_Exists_Forall in Hnone; [|apply _].
    assert (Forall (fun k => own_lookup k ownt = None) (own_keys owno)) as Hall.
    { eapply Forall_impl; [exact Hnone|]. simpl. intros k Hk.
      destruct (own_lookup k ownt) eqn:E; [|done]. destruct Hk. by eexists. }
    assert (∀ k, k ∈ owno.*1 → own_lookup k ownt = None) as Hdisj.
    { intros k Hin. apply (proj1 (Forall_forall _ _) Hall).
      by rewrite own_keys_Permutation. }
    split; [intros k Hin; by apply own_lookup_None, Hdisj|].
    destruct (decide (t = other)) as [->|Hne].
    + assert (ownt = owno) as -> by congruence.
      assert (owno = []) as ->.
      { destruct owno as [|[k a] owno]; [done|].
        specialize (Hdisj k ltac:(by left)). simpl in Hdisj.
        by rewrite String.eqb_refl in Hdisj. }
      exists s, []. split_and!; try done.
      unfold injectContainer, eachOwn, keys, Object_keys, bind.
      rewrite Hkeys, (check_keys_disjoint Assigning s other _ [] _ Hown Ht Hall).
      unfold Object_assign, Object_keys, bind. by rewrite Hkeys.
    + exists (State (<[t := OOrd ProtoContainer
                              (with_copies po owno (own_keys owno) ownt)]> (heap s))
                    (built s)),
             (with_copies po owno (own_keys owno) ownt).
      split_and!.
      * unfold injectContainer, eachOwn, keys, Object_keys, bind.
        rewrite Hkeys, (check_keys_disjoint Assigning s t _ ownt _ Hown Ht Hall).
        pose proof (assign_all Assigning t other po owno _ s _ ownt Hne Ht Hplt
                      Ho Hplo Hsetter) as Hassign.
        unfold Object_assign, Object_keys, bind in *. rewrite Hkeys.
        by rewrite Hassign.
      * done.
      * simpl. rewrite list_lookup_insert_eq; [done | by eapply lookup_lt_Some].
      * intros l Hl. simpl. by rewrite list_lookup_insert_ne.
      * intros k a Hk. rewrite with_copies_lookup, decide_False; [done|].
        rewrite own_keys_Permutation. intros Hin. rewrite (Hdisj k Hin) in Hk. done.
      * intros k x Hk. rewrite with_copies_lookup, decide_True.
        -- unfold member. by rewrite Hk.
        -- apply own_keys_lookup. by rewrite Hk.
      * intros k Hnin. rewrite with_copies_lookup, decide_False; [done|].
        by rewrite own_keys_Permutation.
Qed.

(** * The tests of the repository, replayed *)

(** "should not construct service on container field access" and
    "should construct service when prototype is accessed", in
    [Forwarding]. *)
Example test_lazy_construction fuel :
  (∃ s, lazy_construction Forwarding (3 + fuel) empty_state
        = Ret (0, 1, 1, VStr "bar", VStr "bar") s) ∧
  (∃ s, interact 0 Forwarding 1 PrototypeQuery lazy_registered
        = Ret (VProto (ProtoClass LazyService)) s ∧ constructions 1 s = 1).
Proof. split; eexists; vm_compute; split_and?; reflexivity. Qed.

(** "should throw error on duplicate service names within inject",
    "... with existing container", "should throw error on reserved
    names in inject", in [Variadic]. *)
Example test_rejections :
  (∃ s, inject_all Variadic 0 [ServiceA; ServiceA]
          (State [OOrd ProtoContainer []] [])
        = Thrown (Error "Duplicated service name: a") s) ∧
  (∃ s, inject_all Variadic 0 [ServiceA] with_ServiceA
        = Thrown (Error "Duplicated service name: a") s) ∧
  (∃ s, inject_all Variadic 0 [InjectService]
          (State [OOrd ProtoContainer []] [])
        = Thrown (Error "Reserved service name: inject") s).
Proof. split_and!; eexists; reflexivity. Qed.

(** "should return error type when merging containers with duplicated
    keys", in every revision that registers classes. *)
Example test_merge_duplicates :
  ∀ r, full_traps r = false →
    ∃ s, merge_duplicates r empty_state
         = Thrown (Error "Containers have duplicated keys: a") s.
Proof. intros [] [=]; eexists; reflexivity. Qed.

(** "should allow function-based service to depend on other services",
    in [Forwarding] and [Assigning]. *)
Example test_api_client fuel :
  ∀ r, full_traps r = true →
    ∃ s, api_client r (7 + fuel) empty_state
         = Ret (VStr "https://api.example.com/users") s.
Proof. intros [] [=]; eexists; vm_compute; reflexivity. Qed.

(** The README on circular dependencies: [a] and [b] hold each other
    through the container, and [container.a.doA()] works, in either
    order of registration. *)
Example test_circular fuel :
  ∀ r, r = Variadic ∨ r = Batch →
    (∃ s, circular r [CircularA; CircularB] (8 + fuel) empty_state
          = Ret (VStr "AB") s) ∧
    (∃ s, circular r [CircularB; CircularA] (8 + fuel) empty_state
          = Ret (VStr "AB") s).
Proof. intros r [-> | ->]; split; eexists; vm_compute; reflexivity. Qed.

(** * The claims *)




(** A factory may return a truthy value that is not an object: the
    value becomes the instance, once and for good. *)
Example truthy_literal_constructed_once :
  ∃ s1, getInstance Forwarding 1
          (registered_state (State [OOrd ProtoContainer []] []) 0
             ProtoContainer [] (DFactory "n" (FValue (LStr "x"))))
        = Ret (VStr "x") s1 ∧
        constructions 1 s1 = 1 ∧
        getInstance Forwarding 1 s1 = Ret (VStr "x") s1.
Proof. eexists. split_and!; reflexivity. Qed.




(** C3, at the input where [Assigning] departs from it.  The helper
    [has] of [Assigning] calls [obj.hasOwnProperty(key)]; once the
    target has a service named [hasOwnProperty], that property is the
    lazy proxy, which is not callable.  Merging a source with the
    disjoint name [a] then throws a [TypeError] and copies nothing
    instead of exposing the union; merging a source whose name [a]
    collides throws the same [TypeError], which names no key.
    [Forwarding], whose [has] goes through [Object.prototype], merges
    the first pair. *)
Theorem C3_shadowed_hasOwnProperty :
  (∃ s, merge_into_shadowed empty_state
        = Thrown (TypeError "obj.hasOwnProperty is not a function") s ∧
        heap s !! 0
        = Some (OOrd ProtoContainer [("hasOwnProperty", SData (VRef 1))])) ∧
  (∃ s, merge_colliding_into_shadowed empty_state
        = Thrown (TypeError "obj.hasOwnProperty is not a function") s) ∧
  (∃ s, merge_into_shadowed_Forwarding empty_state = Ret 0 s ∧
        heap s !! 0
        = Some (OOrd ProtoContainer [("hasOwnProperty", SData (VRef 1));
                                     ("a", SGetter 2 "a")]) ∧
        js_get Forwarding (VRef 0) "a" s = Ret (VRef 3) s ∧
        built s = []).
Proof.
  split_and!; eexists; vm_compute; split_and?; reflexivity.
Qed.

(** A name that a container has is refused.  Let [n] be a name that
    container [t] already has.  In [Forwarding], [inject] of any
    descriptor named [n] throws an error whose message ends in [n]
    ("Duplicate service name: n"), and every object that existed, the
    container and its entry among them, is as it was.  In [Variadic]
    and [Batch], where the entry holds a proxy or an instance, a class
    named [n] is rejected with "Duplicated (or Reserved) service name:
    n" wherever it stands in the call: after the classes before it have
    been installed ([pre], empty for a later call, containing the first
    registration for a duplicate within one call), the call ends in
    exactly the state [s] that held the entry. *)
Lemma duplicate_name_rejected s t p own n a :
  heap s !! t = Some (OOrd p own) →
  own_lookup n own = Some a →
  (∀ d, desc_name d = n →
     inject_one Forwarding t d s
     = Thrown (Error ((if mem n ReservedFields then "Reserved field name: "
                       else "Duplicate service name: ") ++ n))
         (rejected_state s t d) ∧
     ∀ l x, heap s !! l = Some x → heap (rejected_state s t d) !! l = Some x) ∧
  (∀ r s0 pre c post x, full_traps r = false →
     a = SData x → truthy x = true → cls_name c = n →
     inject_all r t pre s0 = Ret t s →
     inject_all r t (pre ++ c :: post) s0
     = Thrown (Error ((if reserved_test r n then "Reserv" else "Duplicat")
                      ++ "ed service name: " ++ n)) s).
Proof.
  intros Ht Hk. split.
  - intros d <-. split; [|intros l x; apply rejected_state_keeps].
    destruct (mem (desc_name d) ReservedFields) eqn:Hres.
    + by apply (inject_one_reserved Forwarding).
    + by eapply inject_one_taken.
  - intros r s0 pre c post x _ -> Hx <- Hpre.
    rewrite inject_all_app, Hpre. simpl. unfold bind.
    by rewrite (inject_class_taken r s t p own c x Ht Hk Hx).
Qed.

Example duplicate_name_rejected_twice :
  inject_all Variadic 0 [ServiceA; ServiceA] (State [OOrd ProtoContainer []] [])
  = Thrown (Error "Duplicated service name: a") with_ServiceA ∧
  inject_one Forwarding 0 (DFactory "a" (FObject [])) with_ServiceA
  = Thrown (Error "Duplicate service name: a")
      (rejected_state with_ServiceA 0 (DFactory "a" (FObject []))).
Proof.
  destruct (duplicate_name_rejected with_ServiceA 0 ProtoContainer
              [("a", SData (VRef 1))] "a" (SData (VRef 1)) eq_refl eq_refl)
    as [One Batch].
  split.
  - apply (Batch Variadic (State [OOrd ProtoContainer []] []) [ServiceA]
             ServiceA [] (VRef 1)); reflexivity.
  - apply (One (DFactory "a" (FObject []))). reflexivity.
Qed.

(** C4, at the input where [Assigning] departs from it.  The helper
    [has] of [Assigning] calls [obj.hasOwnProperty(key)]; once the
    container has a service named [hasOwnProperty], that property is
    the lazy proxy, which is not callable.  Registering the name [a] a
    second time then throws a [TypeError] whose message does not name
    [a]; the entries of the container are as they were.  [Forwarding],
    whose [has] goes through [Object.prototype], rejects the same
    registration with "Duplicate service name: a". *)
Theorem C4_duplicate_after_shadowing :
  (∃ s, duplicate_after_shadowing Assigning empty_state
        = Thrown (TypeError "obj.hasOwnProperty is not a function") s ∧
        heap s !! 0
        = Some (OOrd ProtoContainer [("a", SData (VRef 1));
                                     ("hasOwnProperty", SData (VRef 2))])) ∧
  (∃ s, duplicate_after_shadowing Forwarding empty_state
        = Thrown (Error "Duplicate service name: a") s ∧
        heap s !! 0
        = Some (OOrd ProtoContainer [("a", SData (VRef 1));
                                     ("hasOwnProperty", SData (VRef 2))])).
Proof. split; eexists; vm_compute; split; reflexivity. Qed.

(** A service named [__proto__] can be registered again and again:
    no registration leaves an entry that the next one could find. *)
Example proto_service_registered_twice :
  ∃ s, (c <- register_proto_service Forwarding ;;
        inject_one Forwarding c (DFactory "__proto__" (FValue LNull)))
         empty_state = Ret 0 s ∧
       heap s !! 0 = Some (OVia 2 []) ∧
       built s = [].
Proof. eexists. vm_compute. split_and!; reflexivity. Qed.

(** Retrieval does not construct.  In [Forwarding], registering a
    service under a free name that does not meet the setter of
    [__proto__] succeeds without invoking its constructor or factory,
    and reading [container.name] afterwards returns the proxy itself,
    whose variable [instance] is still undefined, again without a
    construction: the log of constructions is the one from before the
    registration and the count of the new proxy is 0.  In every
    revision, reading an entry that holds a proxy is a pure read. *)
Lemma retrieval_does_not_construct s t p own d :
  heap s !! t = Some (OOrd p own) →
  mem (desc_name d) ReservedFields = false →
  own_lookup (desc_name d) own = None →
  meets_setter p (desc_name d) = false →
  log_ok s →
  (∃ s' lazy,
     inject_one Forwarding t d s = Ret t s' ∧
     js_get Forwarding (VRef t) (desc_name d) s' = Ret (VRef lazy) s' ∧
     heap s' !! lazy = Some (OProxy (lazy_proxy t d)) ∧
     built s' = built s ∧
     constructions lazy s' = 0) ∧
  (∀ r k lazy, own_lookup k own = Some (SData (VRef lazy)) →
     js_get r (VRef t) k s = Ret (VRef lazy) s).
Proof.
  intros Ht Hres Hk Hm Hlog. split.
  - exists (registered_state s t p own d), (length (heap s)).
    pose proof (lookup_lt_Some _ _ _ Ht) as Hlt.
    assert (heap (registered_state s t p own d) !! t
            = Some (OOrd p (own_set (desc_name d)
                              (SData (VRef (length (heap s)))) own))) as Ht'.
    { simpl. rewrite list_lookup_insert_eq; [done|]. rewrite length_app. simpl. lia. }
    split_and!.
    + by apply inject_one_fresh.
    + eapply js_get_data; [exact Ht' | apply own_lookup_set_eq].
    + simpl. rewrite list_lookup_insert_ne by lia. apply lookup_alloc_new.
    + done.
    + by apply (constructions_fresh s).
  - intros r k lazy Hlazy. by eapply js_get_data.
Qed.

Example retrieval_of_LazyService :
  ∃ s' lazy,
    inject_one Forwarding 0 (DClass LazyService)
      (State [OOrd ProtoContainer []] []) = Ret 0 s' ∧
    js_get Forwarding (VRef 0) "lazy" s' = Ret (VRef lazy) s' ∧
    heap s' !! lazy = Some (OProxy (lazy_proxy 0 (DClass LazyService))) ∧
    built s' = [] ∧
    constructions lazy s' = 0.
Proof.
  apply (retrieval_does_not_construct
           (State [OOrd ProtoContainer []] []) 0 ProtoContainer []
           (DClass LazyService)); [reflexivity.. | constructor].
Qed.

(** C5, at the input where [Forwarding] and [Assigning] depart from it:
    a service named [__proto__].  The name is not reserved and
    [has(this, name)], an own-property test, does not find it, so
    [inject] accepts it; but the assignment [this[name] = lazy] runs
    the setter that [Object.prototype] has for this name.  No entry is
    installed: the lazy proxy becomes the prototype of the container.
    Nothing has been constructed yet.  The read [container.__proto__]
    then finds no own property and asks the prototype, that is, the
    [get] trap of the proxy: the factory is invoked, and what the read
    returns is not the handle but the member [__proto__] of the new
    instance, [Object.prototype].  [Variadic], [Batch] and [ClassOnly],
    which test [t[name]], refuse a class of that name. *)
Theorem C5_service_named_proto :
  (∃ s, register_proto_service Forwarding empty_state = Ret 0 s ∧
        heap s !! 0 = Some (OVia 1 []) ∧
        heap s !! 1 = Some (OProxy (lazy_proxy 0 proto_service)) ∧
        constructions 1 s = 0) ∧
  (∃ s, retrieve_proto_service Forwarding empty_state
        = Ret (VProto ProtoObject) s ∧
        constructions 1 s = 1) ∧
  (∃ s, register_proto_service Assigning empty_state = Ret 0 s ∧
        heap s !! 0 = Some (OVia 1 []) ∧
        heap s !! 1 = Some (OProxy (lazy_proxy 0 proto_service)) ∧
        constructions 1 s = 0) ∧
  (∃ s, retrieve_proto_service Assigning empty_state
        = Ret (VProto ProtoObject) s ∧
        constructions 1 s = 1) ∧
  inject_class Variadic 0 (Class "__proto__" None [] [])
    (State [OOrd ProtoContainer []] [])
  = Thrown (Error "Reserved service name: __proto__")
      (State [OOrd ProtoContainer []] []) ∧
  inject_class Batch 0 (Class "__proto__" None [] [])
    (State [OOrd ProtoContainer []] [])
  = Thrown (Error "Duplicated service name: __proto__")
      (State [OOrd ProtoContainer []] []) ∧
  inject_class ClassOnly 0 (Class "__proto__" None [] [])
    (State [OOrd ProtoContainer []] [])
  = Thrown (Error "Duplicated service name: __proto__")
      (State [OOrd ProtoContainer []] []).
Proof.
  split_and!; try (eexists; vm_compute; split_and?; reflexivity); reflexivity.
Qed.

(** C6. A descriptor named [inject] or [injectContainer] is rejected.
    [Forwarding] and [Assigning] throw "Reserved field name: <name>"
    before the container is looked at: the state afterwards is the old
    one plus the unused proxy, so every object that existed, the
    container among them, is as it was.  [Variadic], [Batch] and
    [ClassOnly] find the method of that name on the container, throw
    "Reserved service name: <name>" and leave the state as it was. *)
Theorem C6_reserved_name_rejected s t d :
  mem (desc_name d) ReservedFields = true →
  (∀ r, full_traps r = true →
     inject_one r t d s
     = Thrown (Error ("Reserved field name: " ++ desc_name d))
         (rejected_state s t d) ∧
     built (rejected_state s t d) = built s ∧
     ∀ l x, heap s !! l = Some x → heap (rejected_state s t d) !! l = Some x) ∧
  (∀ r c own, full_traps r = false → d = DClass c →
     heap s !! t = Some (OOrd ProtoContainer own) →
     own_lookup (cls_name c) own = None →
     inject_class r t c s
     = Thrown (Error ("Reserved service name: " ++ cls_name c)) s).
Proof.
  intros Hres. split.
  - intros r Hr. split_and!; [by apply inject_one_reserved | done |].
    intros l x. apply rejected_state_keeps.
  - intros r c own _ -> Ht Hk. simpl in Hres.
    assert (cls_name c = "inject" ∨ cls_name c = "injectContainer") as Hname.
    { unfold mem, ReservedFields in Hres. simpl in Hres.
      destruct (String.eqb_spec (cls_name c) "inject"); [by left|].
      destruct (String.eqb_spec (cls_name c) "injectContainer"); [by right|done]. }
    rewrite (inject_class_inherited r s t ProtoContainer own c Ht Hk).
    + unfold rejection. by destruct Hname as [-> | ->], r.
    + by destruct Hname as [-> | ->].
Qed.

Lemma C6_witness :
  (∀ r, full_traps r = true →
     inject_one r 0 (DClass InjectService) (State [OOrd ProtoContainer []] [])
     = Thrown (Error "Reserved field name: inject")
         (rejected_state (State [OOrd ProtoContainer []] []) 0
            (DClass InjectService)) ∧
     built (rejected_state (State [OOrd ProtoContainer []] []) 0
              (DClass InjectService)) = [] ∧
     ∀ l x, [OOrd ProtoContainer []] !! l = Some x →
       heap (rejected_state (State [OOrd ProtoContainer []] []) 0
               (DClass InjectService)) !! l = Some x) ∧
  (∀ r c own, full_traps r = false → DClass InjectService = DClass c →
     [OOrd ProtoContainer []] !! 0 = Some (OOrd ProtoContainer own) →
     own_lookup (cls_name c) own = None →
     inject_class r 0 c (State [OOrd ProtoContainer []] [])
     = Thrown (Error ("Reserved service name: " ++ cls_name c))
         (State [OOrd ProtoContainer []] [])).
Proof.
  apply (C6_reserved_name_rejected (State [OOrd ProtoContainer []] []) 0
           (DClass InjectService)).
  reflexivity.
Defined.

(** C7. In [Variadic] and in [Batch], the call
    [inject(ServiceC, ServiceA, ServiceB)] on a new container succeeds
    although [c] is listed before the services it depends on, and
    [container.c.getValue()] then returns "CABA", given fuel for the
    thirteen nested evaluations; the three services are constructed
    once each, [c] first, then [a], then [b]. *)
Theorem C7_forward_references_resolve fuel :
  (∃ s, caba Variadic (13 + fuel) empty_state = Ret (VStr "CABA") s ∧
        built s = [1; 2; 3]) ∧
  (∃ s, caba Batch (13 + fuel) empty_state = Ret (VStr "CABA") s ∧
        built s = [1; 2; 3]).
Proof. split; eexists; vm_compute; split; reflexivity. Qed.

(** Methods are bound.  Reading property [k] through a proxy, in
    every revision, gives [value.bind(instance)] when the value found
    on the instance is a function and the value itself otherwise; this
    holds for a proxy that is initialised (the state is left as it is)
    and for the read that constructs the instance.  In [Forwarding]
    this is so for a value that is not the handle of a service.
    Calling what [bind] returned, with whatever receiver, is calling
    the function with the instance as receiver: a method taken from the
    proxy and called later runs on the instance. *)
Lemma methods_are_bound r s l h k p own :
  heap s !! l = Some (OProxy h) → plain own →
  (∀ i, h_instance h = VRef i → heap s !! i = Some (OOrd p own) →
     inert r s (member p own k) →
     js_get r (VRef l) k s
     = Ret (bound_if_function (member p own k) (VRef i)) s) ∧
  (truthy (h_instance h) = false →
   makes_object (h_desc h) (h_t h) = Some (p, own) → ready r s h →
   takes_entry r s h →
   (r = Forwarding → ∃ pt ownt, heap s !! h_t h = Some (OOrd pt ownt)) →
     js_get r (VRef l) k s
     = Ret (bound_if_function (member p own k) (VRef (length (heap s))))
         (constructed_state r s l h p own)) ∧
  (∀ fuel f inst this,
     call (S fuel) r (VBound f inst) this = call fuel r f inst).
Proof.
  intros Hl Hpl. split_and!.
  - intros i Hi Hobj Hv. by eapply js_get_initialized.
  - intros Hf Hmk Hready Htake Hcont. by apply js_get_first.
  - done.
Qed.

Example greeter_methods_are_bound :
  js_get Forwarding (VRef 1) "greet" greeter_used
  = Ret (VBound (VClos (EGet EThis "greeting") VUndef) (VRef 2)) greeter_used ∧
  js_get Forwarding (VRef 1) "greeting" greeter_used
  = Ret (VStr "hello") greeter_used ∧
  call 4 Forwarding (VBound (VClos (EGet EThis "greeting") VUndef) (VRef 2))
    VUndef greeter_used
  = Ret (VStr "hello") greeter_used.
Proof. split_and!; reflexivity. Qed.

(** C8, at the input where [Forwarding] departs from it.  Its [get]
    trap tests [value instanceof Function], which asks the value for
    its prototype.  When the value is the handle of another service --
    here the field [dep] of the service [holder], which holds
    [di.broken] -- the question goes to the [getPrototypeOf] trap of
    that handle, which constructs the other service.  If its
    constructor throws, the read [container.holder.dep] throws that
    error instead of returning the value of the property; if it does
    not, the read returns the handle, but the service behind it has
    been constructed although nothing has been asked of it.
    [Assigning], which tests [typeof value == "function"], returns the
    handle and constructs nothing. *)
Theorem C8_handle_valued_property :
  (∃ s, held_handle Forwarding Broken empty_state = Thrown (Error "boom") s ∧
        constructions 1 s = 1) ∧
  (∃ s, held_handle Assigning Broken empty_state = Ret (VRef 1) s ∧
        heap s !! 1 = Some (OProxy (lazy_proxy 0 (DClass Broken))) ∧
        constructions 1 s = 0) ∧
  (∃ s, held_handle Forwarding ServiceA empty_state = Ret (VRef 1) s ∧
        constructions 1 s = 1) ∧
  (∃ s, held_handle Assigning ServiceA empty_state = Ret (VRef 1) s ∧
        constructions 1 s = 0).
Proof. split_and!; eexists; vm_compute; split_and?; reflexivity. Qed.

(** C9. In [Variadic] and [Batch], when the classes [pre] of a call
    have been installed and the next class [d] is rejected, the call
    throws that error in the state reached after [pre]: the rejected
    class changes nothing, and every class of [pre] is installed in the
    container, its entry holding its untouched proxy. *)
Theorem C9_batch_registration_is_partial r s t p own pre d post s1 e s2 :
  full_traps r = false →
  heap s !! t = Some (OOrd p own) → plain own →
  inject_all r t pre s = Ret t s1 →
  inject_class r t d s1 = Thrown e s2 →
  inject_all r t (pre ++ d :: post) s = Thrown e s1 ∧
  e = rejection r (cls_name d) ∧ s2 = s1 ∧
  ∀ c, c ∈ pre → ∃ lazy, holds_proxy s1 t c lazy.
Proof.
  intros _ Ht Hpl Hpre Hd.
  destruct (inject_all_Ret r pre _ _ _ _ _ _ Ht Hpl Hpre)
    as (_ & _ & (own1 & Ht1 & Hpl1) & _ & Hall).
  destruct (inject_class_cases r s1 t p own1 d Ht1 Hpl1) as [[E _]|E];
    rewrite E in Hd; [done|]. injection Hd as <- <-.
  split_and!; [|done|done|done].
  rewrite inject_all_app, Hpre. simpl. unfold bind. by rewrite E.
Qed.

Lemma C9_witness :
  inject_all Batch 0 [ServiceA; ServiceB; ServiceA; ServiceC]
    (State [OOrd ProtoContainer []] [])
  = Thrown (Error "Duplicated service name: a")
      (installed_state with_ServiceA 0 ProtoContainer
         [("a", SData (VRef 1))] ServiceB) ∧
  ∀ c, c ∈ [ServiceA; ServiceB] →
    ∃ lazy, holds_proxy (installed_state with_ServiceA 0 ProtoContainer
                           [("a", SData (VRef 1))] ServiceB) 0 c lazy.
Proof.
  destruct (C9_batch_registration_is_partial Batch
              (State [OOrd ProtoContainer []] []) 0 ProtoContainer []
              [ServiceA; ServiceB] ServiceA [ServiceC]
              (installed_state with_ServiceA 0 ProtoContainer
                 [("a", SData (VRef 1))] ServiceB)
              (Error "Duplicated service name: a")
              (installed_state with_ServiceA 0 ProtoContainer
                 [("a", SData (VRef 1))] ServiceB))
    as (H & _ & _ & Hall).
  - reflexivity.
  - reflexivity.
  - plain_by_cases.
  - reflexivity.
  - reflexivity.
  - split; [exact H | exact Hall].
Defined.

(** C10. Let the entry [name] of container [t] hold the proxy [l] of a
    service that has not been constructed and whose constructor or
    factory returns an object.  The first property read through the
    proxy constructs the instance, at the fresh location
    [length (heap s)].  In [Variadic], [Batch] and [ClassOnly] that read
    stores the instance in the entry: [t[name]] afterwards is the
    instance, not the proxy.  In [Forwarding] and [Assigning] the entry
    still holds the proxy after the read; and in [Forwarding] it holds
    the proxy after any sequence of operations whatever (registrations,
    merges, reads, membership tests, prototype queries, enumerations,
    calls of client code). *)
Theorem C10_entry_after_first_read r s l h p own k pt ownt :
  heap s !! l = Some (OProxy h) → truthy (h_instance h) = false →
  makes_object (h_desc h) (h_t h) = Some (p, own) →
  heap s !! h_t h = Some (OOrd pt ownt) → plain ownt →
  own_lookup (h_name h) ownt = Some (SData (VRef l)) →
  (∃ v, js_get r (VRef l) k s = Ret v (constructed_state r s l h p own)) ∧
  heap (constructed_state r s l h p own) !! length (heap s) = Some (OOrd p own) ∧
  js_get r (VRef (h_t h)) (h_name h) (constructed_state r s l h p own)
  = Ret (VRef (if full_traps r then l else length (heap s)))
      (constructed_state r s l h p own) ∧
  (r = Forwarding → ∀ fuel ops s',
     perform_all fuel ops s = Some s' →
     js_get r (VRef (h_t h)) (h_name h) s' = Ret (VRef l) s').
Proof.
  intros Hl Hf Hmk Ht Hpl Hentry.
  assert (ready r s h) as Hready by (right; eauto).
  assert (takes_entry r s h) as Htake by (by eapply takes_entry_own).
  split_and!.
  - eexists. apply js_get_first; eauto.
  - by apply constructed_state_instance.
  - eapply js_get_data; [by apply constructed_state_container|].
    destruct (full_traps r); [done | apply own_lookup_set_eq].
  - intros -> fuel ops s' Hops.
    destruct (evolves_perform_all fuel ops s s' Hops) as [Hord _].
    destruct (Hord _ _ _ Ht eq_refl) as (o' & own' & Ht' & He & _ & Hkeep).
    destruct (Hkeep _ _ Hentry) as (b & Hb & Hkept). simpl in Hkept. subst b.
    by eapply js_get_entry.
Qed.

Lemma C10_witness :
  (∃ v, js_get Variadic (VRef 1) "getValue" with_ServiceA
        = Ret v (constructed_state Variadic with_ServiceA 1
                   (fresh_proxy 0 ServiceA) (ProtoClass ServiceA) [])) ∧
  heap (constructed_state Variadic with_ServiceA 1
          (fresh_proxy 0 ServiceA) (ProtoClass ServiceA) []) !! 2
  = Some (OOrd (ProtoClass ServiceA) []) ∧
  js_get Variadic (VRef 0) "a"
    (constructed_state Variadic with_ServiceA 1
       (fresh_proxy 0 ServiceA) (ProtoClass ServiceA) [])
  = Ret (VRef 2)
      (constructed_state Variadic with_ServiceA 1
         (fresh_proxy 0 ServiceA) (ProtoClass ServiceA) []) ∧
  ∀ fuel ops s',
    perform_all fuel ops with_ServiceA = Some s' →
    js_get Forwarding (VRef 0) "a" s' = Ret (VRef 1) s'.
Proof.
  destruct (C10_entry_after_first_read Variadic with_ServiceA 1
              (fresh_proxy 0 ServiceA) (ProtoClass ServiceA) [] "getValue"
              ProtoContainer [("a", SData (VRef 1))]
              eq_refl eq_refl eq_refl eq_refl ltac:(plain_by_cases) eq_refl)
    as (Hread & Hinst & Hentry & _).
  destruct (C10_entry_after_first_read Forwarding with_ServiceA 1
              (fresh_proxy 0 ServiceA) (ProtoClass ServiceA) [] "getValue"
              ProtoContainer [("a", SData (VRef 1))]
              eq_refl eq_refl eq_refl eq_refl ltac:(plain_by_cases) eq_refl)
    as (_ & _ & _ & Hforever).
  split_and!; [exact Hread | exact Hinst | exact Hentry | exact (Hforever eq_refl)].
Defined.

(** * Further properties of the code *)

(** ** Registration *)

Lemma own_set_fresh k a own :
  own_lookup k own = None → own_set k a own = (own ++ [(k, a)])%list.
Proof.
  induction own as [|[k' a'] own IH]; simpl; [done|].
  destruct (String.eqb k k'); [done|]. intros H. by rewrite IH.
Qed.

Lemma own_lookup_app k own more :
  own_lookup k (own ++ more)%list
  = match own_lookup k own with
    | Some a => Some a
    | None => own_lookup k more
    end.
Proof.
  induction own as [|[k' a'] own IH]; simpl; [done|].
  by destruct (String.eqb k k').
Qed.

Lemma entries_at_cons base name names :
  entries_at base (name :: names)
  = (name, SData (VRef base)) :: entries_at (S base) names.
Proof.
  unfold entries_at. rewrite imap_cons, Nat.add_0_r. f_equal.
  apply imap_ext. intros i x _. simpl. do 3 f_equal. lia.
Qed.

(** X1. A call of [inject] in [Variadic] or [Batch], and a chain of
    calls in [ClassOnly], with classes whose names are distinct, are not
    keys of the container and are not inherited by it, installs all of
    them: it returns the container it was called on; the container has
    its old entries followed by one entry per class, in the order of
    the call; each entry holds a new proxy that has not been
    initialised; no constructor has been invoked. *)
Theorem X1_batch_installs_every_class r deps : ∀ s t p own,
  full_traps r = false →
  heap s !! t = Some (OOrd p own) →
  NoDup (cls_name <$> deps) →
  (∀ c, c ∈ deps → own_lookup (cls_name c) own = None ∧
                   truthy (proto_get p (cls_name c)) = false) →
  inject_all r t deps s = Ret t (installed_all s t p own deps).
Proof.
  induction deps as [|c deps IH]; intros s t p own Hr Ht Hnd Hfree.
  - simpl. unfold ret, installed_all, entries_at. simpl.
    rewrite !app_nil_r, list_insert_id by done. by destruct s.
  - cbn [inject_all]. unfold bind.
    destruct (Hfree c) as [Hk Hp]; [by left|].
    rewrite (inject_class_fresh r s t p own c Ht Hk Hp).
    pose proof (lookup_lt_Some _ _ _ Ht) as Hlt.
    rewrite fmap_cons in Hnd. apply NoDup_cons in Hnd as [Hc Hnd].
    assert (heap (installed_state s t p own c) !! t
            = Some (OOrd p (own ++ [(cls_name c, SData (VRef (length (heap s))))])))
      as Ht1.
    { simpl. rewrite (own_set_fresh _ _ _ Hk).
      apply list_lookup_insert_eq. rewrite length_app. simpl. lia. }
    rewrite (IH _ _ _ _ Hr Ht1 Hnd).
    + unfold installed_all, installed_state. cbn [heap built]. f_equal.
      rewrite length_insert, length_app, !fmap_cons, entries_at_cons.
      cbn [length]. rewrite Nat.add_1_r, <- !app_assoc. cbn [app].
      rewrite <- insert_app_l by (rewrite length_app; simpl; lia).
      rewrite <- app_assoc. cbn [app]. by rewrite list_insert_insert_eq.
    + intros c' Hc'. destruct (Hfree c') as [Hk' Hp']; [by right|].
      split; [|done]. rewrite own_lookup_app, Hk'. simpl.
      destruct (String.eqb_spec (cls_name c') (cls_name c)) as [E|]; [|done].
      destruct Hc. rewrite <- E. by apply list_elem_of_fmap_2.
Qed.

Lemma X1_witness :
  inject_all Variadic 0 [ServiceC; ServiceA; ServiceB]
    (State [OOrd ProtoContainer []] [])
  = Ret 0 (State [OOrd ProtoContainer
                    [("c", SData (VRef 1)); ("a", SData (VRef 2));
                     ("b", SData (VRef 3))];
                  OProxy (fresh_proxy 0 ServiceC);
                  OProxy (fresh_proxy 0 ServiceA);
                  OProxy (fresh_proxy 0 ServiceB)] []).
Proof.
  apply (X1_batch_installs_every_class Variadic [ServiceC; ServiceA; ServiceB]
           (State [OOrd ProtoContainer []] []) 0 ProtoContainer []).
  - reflexivity.
  - reflexivity.
  - apply (bool_decide_unpack _). reflexivity.
  - intros c Hc. repeat (apply elem_of_cons in Hc as [->|Hc]); [done..|].
    by apply elem_of_nil in Hc.
Defined.

(** What a container inherits is a function, or its prototype. *)
Lemma proto_get_inherited k :
  proto_has ProtoContainer k = true →
  truthy (proto_get ProtoContainer k) = true.
Proof.
  unfold proto_has, proto_get, object_member.
  destruct (mem k ContainerPrototype_keys); [done|]. simpl.
  destruct (String.eqb k "__proto__"); [done|].
  by destruct (mem k ObjectPrototype_keys).
Qed.

Lemma meets_setter_container k :
  meets_setter ProtoContainer k = String.eqb k "__proto__".
Proof. unfold meets_setter. apply andb_true_r. Qed.

(** [inject] of [Forwarding], on a container with any prototype. *)
Lemma inject_one_Forwarding s t p own d :
  heap s !! t = Some (OOrd p own) →
  inject_one Forwarding t d s = inject_one_outcome s t p own d.
Proof.
  intros Ht. unfold inject_one_outcome.
  destruct (mem (desc_name d) ReservedFields) eqn:Hres.
  { by apply inject_one_reserved. }
  destruct (own_lookup (desc_name d) own) eqn:Hk.
  { by eapply inject_one_taken. }
  destruct (meets_setter p (desc_name d)) eqn:Hm.
  - by eapply inject_one_prototype.
  - by apply inject_one_fresh.
Qed.

(** [inject] of [Forwarding], and of [Assigning] as long as the
    container has no entry named [hasOwnProperty]. *)
Lemma inject_one_unshadowed r s t own d :
  full_traps r = true →
  heap s !! t = Some (OOrd ProtoContainer own) →
  own_lookup "hasOwnProperty" own = None →
  inject_one r t d s = inject_one_outcome s t ProtoContainer own d.
Proof.
  intros Hr Ht Hsh.
  assert (inject_one r t d s = inject_one Forwarding t d s) as ->.
  { destruct r; try done.
    unfold inject_one, bind at 1 5, alloc.
    destruct (mem (desc_name d) ReservedFields) eqn:Hres; [done|].
    unfold bind at 1 5. unfold ret at 1 5. unfold bind at 1 4.
    by rewrite (has_Assigning_unshadowed _ t own);
      [|by apply lookup_alloc_old | done]. }
  by apply inject_one_Forwarding.
Qed.

(** X2. A class named after a member that the container inherits
    ([constructor], [toString], [hasOwnProperty], [valueOf], ..., and
    the two methods of the container).  [Variadic], [Batch] and
    [ClassOnly] refuse it, because [t[name]] finds the inherited
    function, and leave the state as it is; [Variadic] reports every
    such name as reserved, [Batch] and [ClassOnly] report the names
    other than [inject] and [injectContainer] as duplicated.
    [Forwarding] and [Assigning], which test own properties, refuse
    only [inject] and [injectContainer] and install a service under any
    of the other names, which then hides the inherited member -- but
    for the name [__proto__], which they accept too: there the
    assignment runs the inherited setter, no entry is installed and the
    lazy proxy becomes the prototype of the container. *)
Theorem X2_inherited_names s t own c :
  heap s !! t = Some (OOrd ProtoContainer own) →
  own_lookup (cls_name c) own = None →
  proto_has ProtoContainer (cls_name c) = true →
  (∀ r, full_traps r = false →
     inject_class r t c s
     = Thrown (Error ((if (if r is Variadic then true
                           else mem (cls_name c) ReservedFields)
                       then "Reserved service name: "
                       else "Duplicated service name: ") ++ cls_name c)) s) ∧
  (∀ r, full_traps r = true → own_lookup "hasOwnProperty" own = None →
     inject_one r t (DClass c) s
     = if mem (cls_name c) ReservedFields
       then Thrown (Error ("Reserved field name: " ++ cls_name c))
              (rejected_state s t (DClass c))
       else Ret t (if String.eqb (cls_name c) "__proto__"
                   then replaced_state s t own (DClass c)
                   else registered_state s t ProtoContainer own (DClass c))).
Proof.
  intros Ht Hk Hin. split.
  - intros r Hr.
    rewrite (inject_class_inherited r s t ProtoContainer own c Ht Hk)
      by (by rewrite proto_get_inherited).
    unfold rejection. do 2 f_equal.
    assert (reserved_test r (cls_name c)
            = if r is Variadic then true else mem (cls_name c) ReservedFields)
      as ->.
    { destruct r; try done. unfold reserved_test, mem, ReservedFields. simpl.
      destruct (String.eqb_spec (cls_name c) "injectAll") as [E|]; [|done].
      rewrite E in Hin. done. }
    by destruct (if r is Variadic then true else mem (cls_name c) ReservedFields).
  - intros r Hr Hsh.
    rewrite (inject_one_unshadowed r s t own (DClass c) Hr Ht Hsh).
    unfold inject_one_outcome. simpl. by rewrite Hk, meets_setter_container.
Qed.

Lemma X2_witness :
  (∀ r, full_traps r = false →
     inject_class r 0 (Class "toString" None [] [])
       (State [OOrd ProtoContainer []] [])
     = Thrown (Error ((if (if r is Variadic then true else false)
                       then "Reserved service name: "
                       else "Duplicated service name: ") ++ "toString"))
         (State [OOrd ProtoContainer []] [])) ∧
  (∀ r, full_traps r = true →
     inject_one r 0 (DClass (Class "toString" None [] []))
       (State [OOrd ProtoContainer []] [])
     = Ret 0 (State [OOrd ProtoContainer [("toString", SData (VRef 1))];
                     OProxy (lazy_proxy 0 (DClass (Class "toString" None [] [])))]
                [])) ∧
  (∀ r, full_traps r = true →
     inject_one r 0 (DClass (Class "__proto__" None [] []))
       (State [OOrd ProtoContainer []] [])
     = Ret 0 (State [OVia 1 [];
                     OProxy (lazy_proxy 0 (DClass (Class "__proto__" None [] [])))]
                [])).
Proof.
  destruct (X2_inherited_names (State [OOrd ProtoContainer []] []) 0 []
              (Class "toString" None [] []) eq_refl eq_refl eq_refl)
    as [Hclass Hone].
  destruct (X2_inherited_names (State [OOrd ProtoContainer []] []) 0 []
              (Class "__proto__" None [] []) eq_refl eq_refl eq_refl)
    as [_ Hproto].
  split_and!.
  - exact Hclass.
  - intros r Hr. exact (Hone r Hr eq_refl).
  - intros r Hr. exact (Hproto r Hr eq_refl).
Defined.

(** X3. [inject] of [Assigning], on a container that has no entry
    named [hasOwnProperty]: a descriptor named [inject] or
    [injectContainer] is refused with "Reserved field name"; one whose
    name the container has, with "Duplicate service name"; in both
    cases the state is the old one plus the unused proxy.  Any other
    descriptor is accepted and nothing is constructed: it is installed
    behind a new proxy, unless its name is [__proto__], in which case
    the assignment makes the new proxy the prototype of the container
    and installs no entry.  On such a container [Assigning] and
    [Forwarding] do the same. *)
Theorem X3_inject_Assigning s t own d :
  heap s !! t = Some (OOrd ProtoContainer own) →
  own_lookup "hasOwnProperty" own = None →
  inject_one Assigning t d s = inject_one_outcome s t ProtoContainer own d ∧
  inject_one Assigning t d s = inject_one Forwarding t d s.
Proof.
  intros Ht Hsh.
  rewrite (inject_one_unshadowed Assigning s t own d eq_refl Ht Hsh).
  by rewrite (inject_one_unshadowed Forwarding s t own d eq_refl Ht Hsh).
Qed.

Lemma X3_witness :
  inject_one Assigning 0 (DFactory "a" (FObject [])) with_ServiceA
  = Thrown (Error "Duplicate service name: a")
      (rejected_state with_ServiceA 0 (DFactory "a" (FObject []))) ∧
  inject_one Assigning 0 (DFactory "b" (FObject [])) with_ServiceA
  = Ret 0 (registered_state with_ServiceA 0 ProtoContainer
             [("a", SData (VRef 1))] (DFactory "b" (FObject []))) ∧
  inject_one Assigning 0 proto_service with_ServiceA
  = Ret 0 (replaced_state with_ServiceA 0 [("a", SData (VRef 1))] proto_service).
Proof.
  split_and!.
  - apply (X3_inject_Assigning with_ServiceA 0 [("a", SData (VRef 1))]
             (DFactory "a" (FObject [])) eq_refl eq_refl).
  - apply (X3_inject_Assigning with_ServiceA 0 [("a", SData (VRef 1))]
             (DFactory "b" (FObject [])) eq_refl eq_refl).
  - apply (X3_inject_Assigning with_ServiceA 0 [("a", SData (VRef 1))]
             proto_service eq_refl eq_refl).
Defined.

(** X4. In [Assigning] the helper [has(obj, key)] calls
    [obj.hasOwnProperty(key)].  Once the container has a service named
    [hasOwnProperty] -- a name that [inject] accepts -- that property
    is the lazy proxy, which cannot be called: every later [inject]
    of a name that is not reserved throws a [TypeError], whether the
    name is free or taken, and installs nothing.  [Forwarding], whose
    helper calls [Object.prototype.hasOwnProperty], goes on in the same
    state as it does in any other: it refuses the names the container
    has and accepts the others. *)
Theorem X4_hasOwnProperty_service_blocks_inject s t p own l d :
  heap s !! t = Some (OOrd p own) →
  own_lookup "hasOwnProperty" own = Some (SData (VRef l)) →
  mem (desc_name d) ReservedFields = false →
  inject_one Assigning t d s
  = Thrown (TypeError "obj.hasOwnProperty is not a function")
      (rejected_state s t d) ∧
  inject_one Forwarding t d s = inject_one_outcome s t p own d.
Proof.
  intros Ht Hsh Hres. split.
  - unfold inject_one, bind at 1, alloc. rewrite Hres.
    unfold bind at 1. unfold ret at 1. unfold bind at 1.
    unfold has, bind.
    rewrite (js_get_data Assigning _ t p own "hasOwnProperty" (VRef l));
      [done | by apply lookup_alloc_old | done].
  - by apply inject_one_Forwarding.
Qed.

Lemma X4_witness :
  inject_one Assigning 0 (DFactory "hasOwnProperty" (FObject []))
    (State [OOrd ProtoContainer []] [])
  = Ret 0 (registered_state (State [OOrd ProtoContainer []] []) 0 ProtoContainer
             [] (DFactory "hasOwnProperty" (FObject []))) ∧
  inject_one Assigning 0 (DClass ServiceA)
    (registered_state (State [OOrd ProtoContainer []] []) 0 ProtoContainer
       [] (DFactory "hasOwnProperty" (FObject [])))
  = Thrown (TypeError "obj.hasOwnProperty is not a function")
      (rejected_state
         (registered_state (State [OOrd ProtoContainer []] []) 0 ProtoContainer
            [] (DFactory "hasOwnProperty" (FObject [])))
         0 (DClass ServiceA)).
Proof.
  split; [reflexivity|].
  apply (X4_hasOwnProperty_service_blocks_inject
           (registered_state (State [OOrd ProtoContainer []] []) 0 ProtoContainer
              [] (DFactory "hasOwnProperty" (FObject [])))
           0 ProtoContainer [("hasOwnProperty", SData (VRef 1))] 1
           (DClass ServiceA) eq_refl eq_refl eq_refl).
Defined.

(** ** Constructions that do not produce an object *)

Lemma create_throws d t s msg :
  throws d = Some msg → create d t s = Thrown (Error msg) s.
Proof.
  destruct d as [c|name [fields|l|m|field k]]; simpl; try done.
  - unfold new_class. by intros ->.
  - by intros [= ->].
Qed.

Lemma getInstance_throws r s l h msg :
  heap s !! l = Some (OProxy h) → truthy (h_instance h) = false →
  throws (h_desc h) = Some msg →
  getInstance r l s = Thrown (Error msg) (State (heap s) (built s ++ [l])).
Proof.
  intros Hl Hf Hthrows. unfold getInstance. rewrite Hl, Hf.
  unfold bind at 1. unfold record_construction at 1.
  unfold bind at 1. by rewrite (create_throws _ _ _ _ Hthrows).
Qed.

Lemma triggering_cons r i acts :
  triggering r (i :: acts)
  = (if triggers r i then 1 else 0) + triggering r acts.
Proof.
  unfold triggering. destruct (triggers r i) eqn:E.
  - by rewrite filter_cons_True.
  - rewrite filter_cons_False; [done|]. by rewrite E.
Qed.

(** X5. A constructor or factory that throws.  Every interaction with
    the proxy that reaches [getInstance] invokes it and throws its very
    error to the caller; the proxy stays uninitialised and, in the
    revisions that write the instance into the container, the container
    keeps the proxy.  So the constructor is invoked again at the next
    such interaction: after any sequence of interactions it has been
    invoked once for each of them that reaches [getInstance], and no
    object has changed. *)
Theorem X5_construction_error_propagates r s l h msg :
  heap s !! l = Some (OProxy h) → truthy (h_instance h) = false →
  throws (h_desc h) = Some msg →
  (∀ fuel i, triggers r i = true →
     interact fuel r l i s
     = Thrown (Error msg) (State (heap s) (built s ++ [l]))) ∧
  (∀ fuel acts, ∃ s',
     interactions fuel r l acts s = Some s' ∧
     heap s' = heap s ∧
     constructions l s' = constructions l s + triggering r acts).
Proof.
  intros Hl Hf Hthrows.
  assert (∀ s, heap s !! l = Some (OProxy h) →
          ∀ fuel i, triggers r i = true →
            interact fuel r l i s
            = Thrown (Error msg) (State (heap s) (built s ++ [l]))) as Hone.
  { clear s Hl. intros s Hl fuel i Htr.
    pose proof (getInstance_throws r s l h msg Hl Hf Hthrows) as Hget.
    destruct i as [k|k| |k]; simpl in *.
    - unfold js_get. rewrite (js_get_n_proxy _ r s l h k Hl).
      unfold get_trap, bind. by rewrite Hget.
    - unfold bind, js_get. rewrite (js_get_n_proxy _ r s l h k Hl).
      unfold get_trap, bind. by rewrite Hget.
    - unfold js_getPrototypeOf. rewrite Hl, Htr. unfold bind. by rewrite Hget.
    - unfold bind, js_has. rewrite Hl, Htr. unfold bind. by rewrite Hget. }
  split; [by apply Hone|].
  intros fuel acts. revert s Hl.
  induction acts as [|i acts IH]; intros s Hl.
  { exists s. unfold triggering. simpl. split_and!; [done..|lia]. }
  cbn [interactions]. rewrite triggering_cons.
  destruct (triggers r i) eqn:Htr.
  - rewrite (Hone s Hl fuel i Htr). cbn [final_state].
    destruct (IH (State (heap s) (built s ++ [l])) Hl) as (s' & Hrun & Hheap & Hn).
    exists s'. split_and!; [done..|].
    rewrite Hn.
    rewrite (constructions_logged s (State (heap s) (built s ++ [l])) l eq_refl).
    lia.
  - rewrite (interact_target fuel r s l h i Hl Htr). cbn [final_state].
    destruct (IH s Hl) as (s' & Hrun & Hheap & Hn).
    exists s'. split_and!; [done..|lia].
Qed.

Lemma X5_witness :
  interact 0 ClassOnly 1 (PropertyRead "x")
    (installed_state (State [OOrd ProtoContainer []] []) 0 ProtoContainer []
       (Class "t" (Some "boom") [] []))
  = Thrown (Error "boom")
      (State [OOrd ProtoContainer [("t", SData (VRef 1))];
              OProxy (fresh_proxy 0 (Class "t" (Some "boom") [] []))] [1]) ∧
  ∃ s', interactions 0 ClassOnly 1
          [PropertyRead "x"; PrototypeQuery; MethodCall "x"]
          (installed_state (State [OOrd ProtoContainer []] []) 0
             ProtoContainer [] (Class "t" (Some "boom") [] [])) = Some s' ∧
        constructions 1 s' = 2.
Proof.
  destruct (X5_construction_error_propagates ClassOnly
              (installed_state (State [OOrd ProtoContainer []] []) 0
                 ProtoContainer [] (Class "t" (Some "boom") [] []))
              1 (fresh_proxy 0 (Class "t" (Some "boom") [] [])) "boom"
              eq_refl eq_refl eq_refl) as [Hone Hall].
  split.
  - exact (Hone 0 (PropertyRead "x") eq_refl).
  - destruct (Hall 0 [PropertyRead "x"; PrototypeQuery; MethodCall "x"])
      as (s' & Hrun & _ & Hn).
    exists s'. split; [exact Hrun | exact Hn].
Defined.

Lemma getInstance_value r s l h name lit :
  full_traps r = true →
  heap s !! l = Some (OProxy h) → truthy (h_instance h) = false →
  h_desc h = DFactory name (FValue lit) →
  getInstance r l s
  = Ret (value_of_lit lit)
      (State (<[l := OProxy (with_instance h (value_of_lit lit))]> (heap s))
         (built s ++ [l])).
Proof.
  intros Hr Hl Hf Hd. unfold getInstance. rewrite Hl, Hf, Hd, Hr.
  unfold bind, record_construction, ret, set_instance, store. simpl.
  by rewrite Hl.
Qed.

(** X6. A factory that returns [undefined] or [null], in [Forwarding]
    and [Assigning].  [getInstance] tests [!instance], so the value is
    not kept as an instance: every interaction with the proxy -- a
    property read, a method call, a prototype query, a membership test
    -- calls the factory again and then throws a [TypeError], because
    the trap uses the value as an object.  After [n] interactions the
    factory has been called [n] times and the proxy is still
    uninitialised. *)
Theorem X6_nullish_factory_is_called_again r s l h name lit :
  full_traps r = true →
  heap s !! l = Some (OProxy h) → truthy (h_instance h) = false →
  h_desc h = DFactory name (FValue lit) → lit = LUndef ∨ lit = LNull →
  (∀ fuel i, ∃ m,
     interact fuel r l i s
     = Thrown (TypeError m)
         (State (<[l := OProxy (with_instance h (value_of_lit lit))]> (heap s))
            (built s ++ [l]))) ∧
  (∀ fuel acts, ∃ s' h',
     interactions fuel r l acts s = Some s' ∧
     constructions l s' = constructions l s + length acts ∧
     heap s' !! l = Some (OProxy h') ∧ truthy (h_instance h') = false).
Proof.
  intros Hr Hl Hf Hd Hlit.
  assert (∀ s h, heap s !! l = Some (OProxy h) → truthy (h_instance h) = false →
          h_desc h = DFactory name (FValue lit) →
          ∀ fuel i, ∃ m,
            interact fuel r l i s
            = Thrown (TypeError m)
                (State (<[l := OProxy (with_instance h (value_of_lit lit))]> (heap s))
                   (built s ++ [l]))) as Hone.
  { clear s h Hl Hf Hd. intros s h Hl Hf Hd fuel i.
    pose proof (getInstance_value r s l h name lit Hr Hl Hf Hd) as Hget.
    destruct i as [k|k| |k]; simpl.
    - unfold js_get. rewrite (js_get_n_proxy _ r s l h k Hl).
      unfold get_trap, bind. rewrite Hget.
      destruct Hlit as [-> | ->]; simpl; eauto.
    - unfold bind, js_get. rewrite (js_get_n_proxy _ r s l h k Hl).
      unfold get_trap, bind. rewrite Hget.
      destruct Hlit as [-> | ->]; simpl; eauto.
    - unfold js_getPrototypeOf. rewrite Hl, Hr. unfold bind. rewrite Hget.
      destruct Hlit as [-> | ->]; simpl; eauto.
    - unfold bind, js_has. rewrite Hl, Hr. unfold bind. rewrite Hget.
      destruct Hlit as [-> | ->], r; try done; simpl; eauto. }
  split; [by apply Hone|].
  intros fuel acts. revert s h Hl Hf Hd.
  induction acts as [|i acts IH]; intros s h Hl Hf Hd.
  { exists s, h. simpl. split_and!; [done|lia|done..]. }
  cbn [interactions].
  destruct (Hone s h Hl Hf Hd fuel i) as [m ->]. cbn [final_state].
  edestruct (IH (State (<[l := OProxy (with_instance h (value_of_lit lit))]> (heap s))
                   (built s ++ [l])) (with_instance h (value_of_lit lit)))
    as (s' & h' & Hrun & Hn & Hl' & Hf').
  - cbn [heap]. apply list_lookup_insert_eq. by eapply lookup_lt_Some.
  - by destruct Hlit as [-> | ->].
  - done.
  - exists s', h'. split_and!; [done| |done..].
    rewrite Hn.
    rewrite (constructions_logged s
               (State (<[l := OProxy (with_instance h (value_of_lit lit))]> (heap s))
                  (built s ++ [l])) l eq_refl).
    simpl. lia.
Qed.

Lemma X6_witness :
  ∃ s' h',
    interactions 0 Forwarding 1
      [PropertyRead "x"; MembershipTest "x"; PrototypeQuery]
      (registered_state (State [OOrd ProtoContainer []] []) 0
         ProtoContainer [] (DFactory "n" (FValue LNull))) = Some s' ∧
    constructions 1 s' = 3 ∧
    heap s' !! 1 = Some (OProxy h') ∧ truthy (h_instance h') = false.
Proof.
  destruct (X6_nullish_factory_is_called_again Forwarding
              (registered_state (State [OOrd ProtoContainer []] []) 0
                 ProtoContainer [] (DFactory "n" (FValue LNull)))
              1 (lazy_proxy 0 (DFactory "n" (FValue LNull))) "n" LNull
              eq_refl eq_refl eq_refl eq_refl (or_intror eq_refl))
    as [_ Hall].
  exact (Hall 0 [PropertyRead "x"; MembershipTest "x"; PrototypeQuery]).
Defined.

(** ** What the traps answer *)

Lemma getInstance_gives_Ret r s l h p own i s' :
  heap s !! l = Some (OProxy h) → getInstance_gives r s l h p own i s' →
  (full_traps r = true → getInstance r l s = Ret (VRef i) s') ∧
  heap s' !! i = Some (OOrd p own).
Proof.
  intros Hl [(Hi & Hobj & ->)|(Hf & Hmk & Hready & -> & ->)].
  - split; [|done]. intros _. rewrite <- Hi.
    apply getInstance_initialized; [done|]. by rewrite Hi.
  - split; [|by apply constructed_state_instance].
    intros Hr. apply getInstance_constructs; try done.
    by apply takes_entry_full.
Qed.

Lemma js_get_member r s l p own k :
  heap s !! l = Some (OOrd p own) → plain own →
  js_get r (VRef l) k s = Ret (member p own k) s.
Proof. intros Hl Hpl. unfold js_get. by apply js_get_n_member. Qed.

(** The helper [has] on an object on which [hasOwnProperty] is the
    method of [Object.prototype]. *)
Lemma has_own_property r s i p own k :
  heap s !! i = Some (OOrd p own) → plain own →
  (r = Assigning → member p own "hasOwnProperty" = VNative "hasOwnProperty") →
  has r (VRef i) k s = Ret (has_own own k) s.
Proof.
  intros Hi Hpl Hsh.
  assert (hasOwnProperty (VRef i) k s = Ret (has_own own k) s) as Hown.
  { unfold hasOwnProperty. by rewrite Hi. }
  destruct r; try done.
  unfold has, bind. rewrite (js_get_member _ _ _ _ _ _ Hi Hpl), Hsh; done.
Qed.

(** X7. The membership test [k in handle].  In [Forwarding] and
    [Assigning] the [has] trap answers with the helper [has], an
    own-property test on the instance (which it constructs if need be):
    the answer is [true] for the fields that the constructor or factory
    stored and [false] for everything inherited, the methods of the
    class among them, whereas [k in instance] is [true] for both.  In
    [Variadic], [Batch] and [ClassOnly] the proxy target answers, an
    empty object that inherits from the prototype of the class: [true]
    for what the prototype chain has, [false] for the fields, and
    nothing is constructed. *)
Theorem X7_membership_test_on_a_handle r s l h p own i s' k :
  heap s !! l = Some (OProxy h) → getInstance_gives r s l h p own i s' →
  plain own →
  (r = Assigning → member p own "hasOwnProperty" = VNative "hasOwnProperty") →
  js_has r (VRef l) k s
  = (if full_traps r then Ret (has_own own k) s'
     else Ret (proto_has (h_target h) k) s) ∧
  js_has r (VRef i) k s' = Ret (has_own own k || proto_has p k) s'.
Proof.
  intros Hl Hgives Hpl Hsh.
  destruct (getInstance_gives_Ret r s l h p own i s' Hl Hgives) as [Hget Hi].
  split.
  - unfold js_has. rewrite Hl. destruct (full_traps r) eqn:Hr; [|done].
    unfold bind. rewrite (Hget eq_refl).
    by apply (has_own_property r s' i p own k).
  - unfold js_has, has_own. rewrite Hi. by destruct (own_lookup k own).
Qed.

Lemma X7_witness :
  js_has Forwarding (VRef 1) "greet" greeter_used = Ret false greeter_used ∧
  js_has Forwarding (VRef 1) "greeting" greeter_used = Ret true greeter_used ∧
  js_has Forwarding (VRef 2) "greet" greeter_used = Ret true greeter_used.
Proof.
  assert (getInstance_gives Forwarding greeter_used 1
            (Handle (DClass Greeter) 0 "greeter" ProtoObject (VRef 2))
            (ProtoClass Greeter) [("greeting", SData (VStr "hello"))] 2
            greeter_used) as Hgives.
  { left. split_and!; reflexivity. }
  destruct (X7_membership_test_on_a_handle Forwarding greeter_used 1 _ _ _ _ _
              "greet" eq_refl Hgives ltac:(plain_by_cases) ltac:(done))
    as [Hgreet Hinstance].
  destruct (X7_membership_test_on_a_handle Forwarding greeter_used 1 _ _ _ _ _
              "greeting" eq_refl Hgives ltac:(plain_by_cases) ltac:(done))
    as [Hgreeting _].
  split_and!; [exact Hgreet | exact Hgreeting | exact Hinstance].
Defined.

(** X8. [Object.getPrototypeOf(handle)], which also decides
    [handle instanceof C].  For the proxy that [inject] makes for a
    class [C], the answer is [C.prototype] in every revision.  In
    [Forwarding] and [Assigning] the [getPrototypeOf] trap asks the
    instance, which it constructs if need be; in [Variadic], [Batch]
    and [ClassOnly] the answer is the prototype of the proxy target,
    [Object.create(C.prototype)], and nothing is constructed. *)
Theorem X8_prototype_of_a_handle r s l h c own i s' :
  heap s !! l = Some (OProxy h) →
  getInstance_gives r s l h (ProtoClass c) own i s' →
  h_target h = (if full_traps r then ProtoObject else ProtoClass c) →
  js_getPrototypeOf r (VRef l) s
  = Ret (VProto (ProtoClass c)) (if full_traps r then s' else s).
Proof.
  intros Hl Hgives Htarget.
  destruct (getInstance_gives_Ret r s l h _ own i s' Hl Hgives) as [Hget Hi].
  unfold js_getPrototypeOf. rewrite Hl. destruct (full_traps r) eqn:Hr.
  - unfold bind. rewrite (Hget eq_refl). unfold Object_getPrototypeOf.
    by rewrite Hi.
  - by rewrite Htarget.
Qed.

Lemma X8_witness :
  js_getPrototypeOf Forwarding (VRef 1) lazy_registered
  = Ret (VProto (ProtoClass LazyService))
      (constructed_state Forwarding lazy_registered 1
         (lazy_proxy 0 (DClass LazyService)) (ProtoClass LazyService) []) ∧
  js_getPrototypeOf Batch (VRef 1) with_LazyService
  = Ret (VProto (ProtoClass LazyService)) with_LazyService.
Proof.
  split.
  - apply (X8_prototype_of_a_handle Forwarding lazy_registered 1
             (lazy_proxy 0 (DClass LazyService)) LazyService [] 2
             (constructed_state Forwarding lazy_registered 1
                (lazy_proxy 0 (DClass LazyService)) (ProtoClass LazyService) [])).
    + reflexivity.
    + right. split_and!; [reflexivity.. | by left | reflexivity | reflexivity].
    + reflexivity.
  - apply (X8_prototype_of_a_handle Batch with_LazyService 1
             (fresh_proxy 0 LazyService) LazyService [] 2
             (constructed_state Batch with_LazyService 1
                (fresh_proxy 0 LazyService) (ProtoClass LazyService) [])).
    + reflexivity.
    + right. split_and!; [reflexivity.. | | reflexivity | reflexivity].
      right. exists ProtoContainer, [("lazy", SData (VRef 1))].
      split; [reflexivity | plain_by_cases].
    + reflexivity.
Defined.

(** X9. The own keys of a handle ([Reflect.ownKeys],
    [Object.getOwnPropertyNames]).  In [Forwarding] and [Assigning]
    the [ownKeys] trap lists the own property names of the instance,
    which it constructs if need be, and the [has] trap agrees with it:
    [k in handle] holds exactly for the listed names.  In [Variadic],
    [Batch] and [ClassOnly] the list is that of the proxy target,
    which is empty, and nothing is constructed. *)
Theorem X9_own_keys_of_a_handle r s l h p own i s' :
  heap s !! l = Some (OProxy h) → getInstance_gives r s l h p own i s' →
  plain own →
  (r = Assigning → member p own "hasOwnProperty" = VNative "hasOwnProperty") →
  js_ownKeys r (VRef l) s
  = (if full_traps r then Ret (own_keys own) s' else Ret [] s) ∧
  (full_traps r = true →
     ∀ k, k ∈ own_keys own ↔ js_has r (VRef l) k s = Ret true s').
Proof.
  intros Hl Hgives Hpl Hsh.
  destruct (getInstance_gives_Ret r s l h p own i s' Hl Hgives) as [Hget Hi].
  split.
  - unfold js_ownKeys. rewrite Hl. destruct (full_traps r) eqn:Hr; [|done].
    unfold bind. rewrite (Hget eq_refl). unfold Object_getOwnPropertyNames.
    by rewrite Hi.
  - intros Hr k. unfold js_has. rewrite Hl, Hr. unfold bind. rewrite (Hget Hr).
    rewrite (has_own_property r s' i p own k Hi Hpl Hsh), own_keys_lookup.
    unfold has_own. destruct (own_lookup k own); split; done || by intros [? ?].
Qed.

Lemma X9_witness :
  js_ownKeys Forwarding (VRef 1) greeter_used = Ret ["greeting"] greeter_used ∧
  ("greeting" ∈ ["greeting"] ↔
   js_has Forwarding (VRef 1) "greeting" greeter_used = Ret true greeter_used).
Proof.
  assert (getInstance_gives Forwarding greeter_used 1
            (Handle (DClass Greeter) 0 "greeter" ProtoObject (VRef 2))
            (ProtoClass Greeter) [("greeting", SData (VStr "hello"))] 2
            greeter_used) as Hgives.
  { left. split_and!; reflexivity. }
  destruct (X9_own_keys_of_a_handle Forwarding greeter_used 1 _ _ _ _ _
              eq_refl Hgives ltac:(plain_by_cases) ltac:(done))
    as [Hkeys Hagree].
  split; [exact Hkeys | exact (Hagree eq_refl "greeting")].
Defined.

(** ** Merging, in every revision *)

(** The collision test on a container whose entries can be read. *)
Lemma collides_clashes r s t pt ownt k :
  heap s !! t = Some (OOrd pt ownt) →
  (r = Variadic → plain ownt) →
  (r = Assigning →
     plain ownt ∧ member pt ownt "hasOwnProperty" = VNative "hasOwnProperty") →
  collides r t k s = Ret (clashes r pt ownt k) s.
Proof.
  intros Ht Hv Ha. destruct r; simpl.
  - unfold bind. by rewrite (js_get_member _ _ _ _ _ _ Ht (Hv eq_refl)).
  - unfold js_has, has_own. rewrite Ht. by destruct (own_lookup k ownt).
  - unfold has, hasOwnProperty. by rewrite Ht.
  - destruct (Ha eq_refl) as [Hpl Hsh].
    by apply (has_own_property Assigning s t pt ownt k Ht Hpl).
  - unfold js_has, has_own. rewrite Ht. by destruct (own_lookup k ownt).
Qed.

(** The checking loop stops at the first key on which the test holds. *)
Lemma check_keys_find r s t pt ownt ks :
  heap s !! t = Some (OOrd pt ownt) →
  (r = Variadic → plain ownt) →
  (r = Assigning →
     plain ownt ∧ member pt ownt "hasOwnProperty" = VNative "hasOwnProperty") →
  check_keys r t ks s
  = match find (clashes r pt ownt) ks with
    | Some k => Thrown (Error ("Containers have duplicated keys: " ++ k)) s
    | None => Ret tt s
    end.
Proof.
  intros Ht Hv Ha. induction ks as [|k ks IH]; [done|].
  cbn [for_each find]. unfold bind at 1. unfold check_key, bind.
  rewrite (collides_clashes r s t pt ownt k Ht Hv Ha).
  destruct (clashes r pt ownt k); [done | exact IH].
Qed.

Lemma find_none_Forall {A} (f : A → bool) xs :
  find f xs = None → Forall (fun x => f x = false) xs.
Proof.
  induction xs as [|x xs IH]; simpl; [by constructor|].
  destruct (f x) eqn:E; [done|]. intros H. constructor; [done | by apply IH].
Qed.

Lemma mergeable_checks r t other pt ownt owno :
  mergeable r t other pt ownt owno →
  (r = Variadic → plain ownt) ∧
  (r = Assigning →
     plain ownt ∧ member pt ownt "hasOwnProperty" = VNative "hasOwnProperty").
Proof.
  intros [_ H]. destruct r; split; try done.
  - by destruct H as (_ & ? & _).
  - destruct H as (_ & ? & _ & Hsh). intros _.
    split; [done | by destruct (Hsh eq_refl)].
Qed.

(** A key of the source on which the test does not hold does not meet
    the setter of [__proto__] when [Object.assign] copies it. *)
Lemma no_clash_no_setter r t other pt ownt owno k :
  mergeable r t other pt ownt owno → r ≠ Forwarding →
  k ∈ own_keys owno → clashes r pt ownt k = false →
  own_lookup k ownt = None → meets_setter pt k = false.
Proof.
  intros [_ Hm] Hr Hin Hclash Hk. destruct r; try done; simpl in Hclash.
  - apply falsy_meets_no_setter. unfold member in Hclash. by rewrite Hk in Hclash.
  - apply orb_false_elim in Hclash as [_ Hp].
    destruct (meets_setter pt k) eqn:E; [|done].
    by rewrite (meets_setter_has _ _ E) in Hp.
  - destruct Hm as (_ & _ & _ & Hsh). destruct (Hsh eq_refl) as [_ Hproto].
    destruct (meets_setter pt k) eqn:E; [|done].
    apply meets_setter_name in E as ->.
    apply own_keys_lookup in Hin as [a Ha]. unfold has_own in Hproto.
    by rewrite Ha in Hproto.
  - apply orb_false_elim in Hclash as [_ Hp].
    destruct (meets_setter pt k) eqn:E; [|done].
    by rewrite (meets_setter_has _ _ E) in Hp.
Qed.

Lemma injectContainer_closed_form r s t other pt ownt po owno :
  heap s !! t = Some (OOrd pt ownt) →
  heap s !! other = Some (OOrd po owno) →
  mergeable r t other pt ownt owno →
  injectContainer r t other s
  = injectContainer_outcome r s t other pt ownt po owno.
Proof.
  intros Ht Ho Hm.
  destruct (mergeable_checks _ _ _ _ _ _ Hm) as [Hv Ha].
  assert (Object_getOwnPropertyNames (VRef other) s = Ret (own_keys owno) s)
    as Hkeys.
  { unfold Object_getOwnPropertyNames. by rewrite Ho. }
  pose proof (check_keys_find r s t pt ownt (own_keys owno) Ht Hv Ha) as Hcheck.
  unfold injectContainer_outcome.
  destruct (find (clashes r pt ownt) (own_keys owno)) as [k|] eqn:Hfind.
  { destruct r; unfold injectContainer, eachOwn, keys, Object_keys, bind;
      by rewrite Hkeys, Hcheck. }
  assert (r ≠ Forwarding →
          Forall (fun k => own_lookup k ownt = None → meets_setter pt k = false)
            (own_keys owno)) as Hsetter.
  { intros Hr. apply Forall_forall. intros k Hk.
    eapply no_clash_no_setter; try done.
    exact (proj1 (Forall_forall _ _) (find_none_Forall _ _ Hfind) k Hk). }
  destruct Hm as [Hnd Hm]. unfold merged_state, merged.
  destruct r;
    try (destruct Hm as (Hne & Hplt & Hplo & _);
         match goal with
         | |- injectContainer ?r _ _ _ = _ =>
             pose proof (assign_all r t other po owno (own_keys owno) s _ ownt
                           Hne Ht Hplt Ho Hplo (Hsetter ltac:(done))) as Hassign
         end;
         unfold injectContainer, eachOwn, keys, Object_keys,
           Object_assign, Object_keys, bind in *;
         by rewrite Hkeys, Hcheck, Hkeys, Hassign).
  unfold injectContainer, eachOwn, keys, Object_keys, bind.
  rewrite Hkeys, Hcheck, Hkeys.
  rewrite (define_all_fresh t other (own_keys owno) s pt ownt Ht); [done| |].
  - eapply Forall_impl; [by apply find_none_Forall|].
    simpl. unfold has_own. intros k. by destruct (own_lookup k ownt).
  - by rewrite own_keys_Permutation.
Qed.

(** X10. [injectContainer], in every revision.  The keys of the source
    are tested in the order in which the host enumerates them (array
    indices ascending, then the other keys as they were added), with
    the test of the revision: [this[key]], [key in this] or
    [has(this, key)].  If the test holds on a key, the call throws
    "Containers have duplicated keys: " followed by the first such key,
    and the state is as it was: nothing has been copied.  Otherwise the
    call returns the target, and the one object that has changed is
    the target, which has for each key of the source a forwarding
    getter ([Forwarding]) or a copy of the entry (the other
    revisions); nothing is constructed.  This is so on the containers
    that are [mergeable]: no key twice; outside [Forwarding], two
    different containers with data properties only; and in
    [Assigning], a target on which [hasOwnProperty] is the inherited
    method (with a service of that name in the target the call throws
    a [TypeError]) and a source without an own property [__proto__]
    (which no registration and no merge gives a container). *)
Theorem X10_injectContainer r s t other pt ownt po owno :
  heap s !! t = Some (OOrd pt ownt) →
  heap s !! other = Some (OOrd po owno) →
  mergeable r t other pt ownt owno →
  injectContainer r t other s
  = match find (clashes r pt ownt) (own_keys owno) with
    | Some k => Thrown (Error ("Containers have duplicated keys: " ++ k)) s
    | None =>
        Ret t (State (<[t := OOrd pt (merged r other po owno ownt)]> (heap s))
                 (built s))
    end.
Proof. apply injectContainer_closed_form. Qed.

Lemma X10_witness :
  injectContainer Batch 0 2 two_containers
  = Ret 0 (State [OOrd ProtoContainer [("b", SData (VRef 1)); ("a", SData (VRef 3))];
                  OProxy (fresh_proxy 0 ServiceB);
                  OOrd ProtoContainer [("a", SData (VRef 3))];
                  OProxy (fresh_proxy 2 ServiceA)] []) ∧
  injectContainer Forwarding 0 2 two_containers
  = Ret 0 (State [OOrd ProtoContainer [("b", SData (VRef 1)); ("a", SGetter 2 "a")];
                  OProxy (fresh_proxy 0 ServiceB);
                  OOrd ProtoContainer [("a", SData (VRef 3))];
                  OProxy (fresh_proxy 2 ServiceA)] []) ∧
  injectContainer Forwarding 0 2 numbered_containers
  = Thrown (Error "Containers have duplicated keys: 10") numbered_containers.
Proof.
  split_and!.
  - apply (X10_injectContainer Batch two_containers 0 2 ProtoContainer
             [("b", SData (VRef 1))] ProtoContainer [("a", SData (VRef 3))]
             eq_refl eq_refl).
    split; [apply (bool_decide_unpack _); reflexivity|].
    split_and!; [done | plain_by_cases | plain_by_cases | done].
  - apply (X10_injectContainer Forwarding two_containers 0 2 ProtoContainer
             [("b", SData (VRef 1))] ProtoContainer [("a", SData (VRef 3))]
             eq_refl eq_refl).
    split; [apply (bool_decide_unpack _); reflexivity | exact I].
  - apply (X10_injectContainer Forwarding numbered_containers 0 2 ProtoContainer
             [("b", SData (VRef 1)); ("10", SData (VRef 1))] ProtoContainer
             [("b", SData (VRef 1)); ("10", SData (VRef 1)); ("9", SData (VRef 1))]
             eq_refl eq_refl).
    split; [apply (bool_decide_unpack _); reflexivity | exact I].
Defined.

(** *** After a merge *)

Lemma merged_state_target r s t other pt ownt po owno :
  heap s !! t = Some (OOrd pt ownt) →
  heap (merged_state r s t other pt ownt po owno) !! t
  = Some (OOrd pt (merged r other po owno ownt)).
Proof.
  intros Ht. simpl. apply list_lookup_insert_eq. by eapply lookup_lt_Some.
Qed.

Lemma merged_state_other r s t other pt ownt po owno l :
  l ≠ t → heap (merged_state r s t other pt ownt po owno) !! l = heap s !! l.
Proof. intros Hne. simpl. by apply list_lookup_insert_ne. Qed.

Lemma merged_state_length r s t other pt ownt po owno :
  length (heap (merged_state r s t other pt ownt po owno)) = length (heap s).
Proof. simpl. apply length_insert. Qed.

(** The entry that a merge gives the target for a key of the source. *)
Lemma merged_lookup_source r other po owno ownt k x :
  plain owno ∨ r = Forwarding →
  own_lookup k owno = Some (SData x) →
  own_lookup k (merged r other po owno ownt)
  = Some (if r is Forwarding then SGetter other k else SData x).
Proof.
  intros Hpl Hk.
  assert (k ∈ own_keys owno) as Hin by (apply own_keys_lookup; by rewrite Hk).
  unfold merged. destruct r;
    try (rewrite with_copies_lookup, decide_True by done;
         unfold member; by rewrite Hk).
  by rewrite with_getters_lookup, decide_True.
Qed.

(** The entries of the target that are not keys of the source. *)
Lemma merged_lookup_target r other po owno ownt k :
  own_lookup k owno = None →
  own_lookup k (merged r other po owno ownt) = own_lookup k ownt.
Proof.
  intros Hk.
  assert (k ∉ own_keys owno) as Hnin.
  { rewrite own_keys_lookup, Hk. by intros [? ?]. }
  unfold merged. destruct r;
    try (by rewrite with_copies_lookup, decide_False);
    by rewrite with_getters_lookup, decide_False.
Qed.

Lemma js_get_getter r s t p own k o k' po owno x :
  heap s !! t = Some (OOrd p own) → own_lookup k own = Some (SGetter o k') →
  heap s !! o = Some (OOrd po owno) → own_lookup k' owno = Some (SData x) →
  js_get r (VRef t) k s = Ret x s.
Proof.
  intros Ht Hk Ho Hk'. unfold js_get. cbn [js_get_n]. rewrite Ht, Hk.
  pose proof (lookup_lt_Some _ _ _ Ho) as Hlt.
  destruct (length (heap s)) as [|n] eqn:E; [lia|].
  cbn [js_get_n]. by rewrite Ho, Hk'.
Qed.

(** Reading, through the target, an entry that the source holds as a
    data property. *)
Lemma js_get_merged r s t other pt own' po owno k x :
  heap s !! t = Some (OOrd pt own') →
  heap s !! other = Some (OOrd po owno) →
  own_lookup k own' = Some (if r is Forwarding then SGetter other k else SData x) →
  own_lookup k owno = Some (SData x) →
  js_get r (VRef t) k s = Ret x s.
Proof.
  intros Ht Ho Hk Hko. destruct r;
    try (by eapply js_get_data); by eapply js_get_getter.
Qed.

(** What a construction leaves as it is. *)
Lemma constructed_state_other r s l h p own x :
  x ≠ l → x ≠ h_t h → (x < length (heap s))%nat →
  heap (constructed_state r s l h p own) !! x = heap s !! x.
Proof.
  intros Hl Ht Hlt. simpl. rewrite list_lookup_insert_ne by done.
  unfold write_through. destruct (full_traps r).
  - by rewrite lookup_app_l.
  - destruct ((heap s ++ [OOrd p own])%list !! h_t h) as [[pt ownt|?|? ?]|];
      rewrite ?list_lookup_insert_ne by done; by rewrite lookup_app_l.
Qed.

Lemma mergeable_different r s t other pt ownt po owno k a :
  heap s !! t = Some (OOrd pt ownt) →
  heap s !! other = Some (OOrd po owno) →
  mergeable r t other pt ownt owno →
  find (clashes r pt ownt) (own_keys owno) = None →
  own_lookup k owno = Some a →
  t ≠ other.
Proof.
  intros Ht Ho [_ Hm] Hfind Hk. destruct r; try (by destruct Hm).
  intros ->. assert (ownt = owno) as -> by congruence.
  assert (k ∈ own_keys owno) as Hin by (apply own_keys_lookup; by rewrite Hk).
  pose proof (proj1 (Forall_forall _ _) (find_none_Forall _ _ Hfind) k Hin) as Hc.
  simpl in Hc. unfold has_own in Hc. by rewrite Hk in Hc.
Qed.

Lemma mergeable_source_plain r t other pt ownt owno :
  mergeable r t other pt ownt owno → plain owno ∨ r = Forwarding.
Proof.
  intros [_ Hm]. destruct r; try (left; by destruct Hm as (_ & _ & ? & _)).
  by right.
Qed.

(** X11. A merged service belongs to the container it was registered
    in.  Let the source hold, under [k], the proxy [l] of a service
    that is not constructed yet, and let the merge succeed.  Then the
    target gives, under [k], that very proxy: the service is shared,
    not duplicated.  The first read through it constructs the instance
    with the source as its container -- the dependencies of a merged
    service are looked up in the source, not in the target.  And in
    [Variadic], [Batch] and [ClassOnly], where the construction stores
    the instance in the container, it is the entry of the source that
    becomes the instance; the entry of the target stays the proxy. *)
Theorem X11_merged_service_belongs_to_its_source
    r s t other pt ownt po owno k l h p own s1 s2 :
  heap s !! t = Some (OOrd pt ownt) →
  heap s !! other = Some (OOrd po owno) →
  mergeable r t other pt ownt owno →
  find (clashes r pt ownt) (own_keys owno) = None →
  own_lookup k owno = Some (SData (VRef l)) →
  heap s !! l = Some (OProxy h) → truthy (h_instance h) = false →
  h_t h = other → h_name h = k →
  makes_object (h_desc h) other = Some (p, own) →
  s1 = merged_state r s t other pt ownt po owno →
  s2 = constructed_state r s1 l h p own →
  injectContainer r t other s = Ret t s1 ∧
  js_get r (VRef t) k s1 = Ret (VRef l) s1 ∧
  (∀ f, js_get r (VRef l) f s1
        = Ret (bound_if_function (member p own f) (VRef (length (heap s)))) s2) ∧
  js_get r (VRef other) k s2
  = Ret (VRef (if full_traps r then l else length (heap s))) s2 ∧
  js_get r (VRef t) k s2 = Ret (VRef l) s2.
Proof.
  intros Ht Ho Hm Hfind Hk Hl Hf <- <- Hmk -> ->.
  pose proof (mergeable_different _ _ _ _ _ _ _ _ _ _ Ht Ho Hm Hfind Hk) as Hne.
  pose proof (mergeable_source_plain _ _ _ _ _ _ Hm) as Hplo.
  pose proof (lookup_lt_Some _ _ _ Ht) as Hlt.
  assert (l ≠ t) as Hlt' by (intros ->; congruence).
  set (s1 := merged_state r s t (h_t h) pt ownt po owno).
  pose proof (merged_state_target r s t (h_t h) pt ownt po owno Ht) as Ht1.
  assert (heap s1 !! h_t h = Some (OOrd po owno)) as Ho1.
  { unfold s1. rewrite merged_state_other by done. exact Ho. }
  assert (heap s1 !! l = Some (OProxy h)) as Hl1.
  { unfold s1. rewrite merged_state_other by done. exact Hl. }
  pose proof (merged_lookup_source r (h_t h) po owno ownt (h_name h) (VRef l)
                Hplo Hk) as Hk1.
  assert (ready r s1 h) as Hready.
  { destruct Hplo as [Hplo| ->]; [|by left]. right. by exists po, owno. }
  assert (length (heap s1) = length (heap s)) as Hlen
    by apply merged_state_length.
  pose proof (constructed_state_container r s1 l h p own po owno Hl1 Ho1) as Ho2.
  split_and!.
  - rewrite (injectContainer_closed_form r s t (h_t h) pt ownt po owno Ht Ho Hm).
    unfold injectContainer_outcome. by rewrite Hfind.
  - by eapply js_get_merged.
  - intros f. rewrite <- Hlen. apply js_get_first; try done.
    + by eapply takes_entry_own.
    + eauto.
  - eapply js_get_data; [exact Ho2|]. rewrite <- Hlen.
    destruct (full_traps r); [done | apply own_lookup_set_eq].
  - assert (heap (constructed_state r s1 l h p own) !! t
            = Some (OOrd pt (merged r (h_t h) po owno ownt))) as Ht2.
    { rewrite constructed_state_other; [done | done | done | lia]. }
    destruct r; try (by eapply js_get_data).
    by eapply js_get_getter.
Qed.

Lemma X11_witness :
  ∃ s1 s2,
    injectContainer Batch 0 2 two_containers = Ret 0 s1 ∧
    js_get Batch (VRef 0) "a" s1 = Ret (VRef 3) s1 ∧
    js_get Batch (VRef 3) "getValue" s1
    = Ret (VBound (VClos (ELit (LStr "A")) VUndef) (VRef 4)) s2 ∧
    js_get Batch (VRef 2) "a" s2 = Ret (VRef 4) s2 ∧
    js_get Batch (VRef 0) "a" s2 = Ret (VRef 3) s2.
Proof.
  assert (mergeable Batch 0 2 ProtoContainer [("b", SData (VRef 1))]
            [("a", SData (VRef 3))]) as Hm.
  { split; [apply (bool_decide_unpack _); reflexivity|].
    split_and!; [done | plain_by_cases | plain_by_cases | done]. }
  eexists _, _.
  destruct (X11_merged_service_belongs_to_its_source Batch two_containers 0 2
              ProtoContainer [("b", SData (VRef 1))]
              ProtoContainer [("a", SData (VRef 3))]
              "a" 3 (fresh_proxy 2 ServiceA) (ProtoClass ServiceA) [] _ _
              eq_refl eq_refl Hm
              eq_refl eq_refl eq_refl eq_refl eq_refl eq_refl eq_refl
              eq_refl eq_refl)
    as (Hmerge & Htarget & Hread & Hsource & Hstays).
  split_and!;
    [exact Hmerge | exact Htarget | exact (Hread "getValue")
    | exact Hsource | exact Hstays].
Defined.

Lemma plain_with_copies p owno ks : ∀ own,
  plain own → plain (with_copies p owno ks own).
Proof.
  unfold with_copies. induction ks as [|k ks IH]; intros own Hpl; simpl; [done|].
  apply IH. by apply plain_set.
Qed.

Lemma merged_has_source r other po owno ownt k :
  k ∈ own_keys owno → has_own (merged r other po owno ownt) k = true.
Proof.
  intros Hin. unfold has_own, merged. destruct r;
    try (by rewrite with_copies_lookup, decide_True);
    by rewrite with_getters_lookup, decide_True.
Qed.

(** [inject] of [Forwarding] and [Assigning] on a name that the
    container has. *)
Lemma inject_one_taken_any r s t p own d :
  full_traps r = true →
  heap s !! t = Some (OOrd p own) →
  (r = Assigning →
     plain own ∧ member p own "hasOwnProperty" = VNative "hasOwnProperty") →
  mem (desc_name d) ReservedFields = false →
  has_own own (desc_name d) = true →
  inject_one r t d s
  = Thrown (Error ("Duplicate service name: " ++ desc_name d))
      (rejected_state s t d).
Proof.
  intros Hr Ht Ha Hres Hk. destruct r; try done.
  - unfold has_own in Hk.
    destruct (own_lookup (desc_name d) own) eqn:E; [|done].
    by eapply inject_one_taken.
  - destruct (Ha eq_refl) as [Hpl Hsh].
    unfold inject_one, bind at 1, alloc. rewrite Hres.
    unfold bind at 1. unfold ret at 1. unfold bind at 1.
    rewrite (has_own_property Assigning _ t p own (desc_name d)), Hk;
      [done | by apply lookup_alloc_old | done | done].
Qed.

(** X12. After a merge the names of the source are taken in the
    target.  Merging the same source a second time throws, naming the
    first key of the source; registering in the target a service under
    a name of the source is rejected as a duplicate, as if the service
    had been registered there.  (In [Variadic], [Batch] and
    [ClassOnly] the tests look at the value of the entry: the entries
    of the source are taken to be truthy, as proxies and instances
    are.  In [Assigning] the source is taken to have no service named
    [hasOwnProperty]; the containers are [mergeable].) *)
Theorem X12_merged_names_are_taken r s t other pt ownt po owno s1 :
  heap s !! t = Some (OOrd pt ownt) →
  heap s !! other = Some (OOrd po owno) →
  mergeable r t other pt ownt owno →
  injectContainer r t other s = Ret t s1 →
  (full_traps r = false →
     ∀ k x, own_lookup k owno = Some (SData x) → truthy x = true) →
  (r = Assigning → own_lookup "hasOwnProperty" owno = None) →
  (∀ k ks, own_keys owno = k :: ks →
     injectContainer r t other s1
     = Thrown (Error ("Containers have duplicated keys: " ++ k)) s1) ∧
  (∀ d, full_traps r = true → has_own owno (desc_name d) = true →
     mem (desc_name d) ReservedFields = false →
     inject_one r t d s1
     = Thrown (Error ("Duplicate service name: " ++ desc_name d))
         (rejected_state s1 t d)) ∧
  (∀ c, full_traps r = false → has_own owno (cls_name c) = true →
     inject_class r t c s1
     = Thrown (Error ((if reserved_test r (cls_name c) then "Reserv" else "Duplicat")
                      ++ "ed service name: " ++ cls_name c)) s1).
Proof.
  intros Ht Ho Hm Hmerge Htruthy Hsh.
  rewrite (injectContainer_closed_form r s t other pt ownt po owno Ht Ho Hm)
    in Hmerge.
  unfold injectContainer_outcome in Hmerge.
  destruct (find (clashes r pt ownt) (own_keys owno)) eqn:Hfind; [done|].
  injection Hmerge as <-.
  pose proof (merged_state_target r s t other pt ownt po owno Ht) as Ht1.
  set (s1 := merged_state r s t other pt ownt po owno) in *.
  set (own1 := merged r other po owno ownt) in *.
  (* every key of the source is an entry of the target now *)
  assert (∀ k, has_own owno k = true → k ∈ own_keys owno) as Hkeys.
  { intros k Hk. apply own_keys_lookup. unfold has_own in Hk.
    by destruct (own_lookup k owno). }
  assert (∀ k, has_own owno k = true → t ≠ other) as Hne.
  { intros k Hk. unfold has_own in Hk.
    destruct (own_lookup k owno) as [a|] eqn:E; [|done].
    exact (mergeable_different r s t other pt ownt po owno k a Ht Ho Hm Hfind E). }
  assert (∀ k, has_own owno k = true → full_traps r = false →
          ∃ x, own_lookup k own1 = Some (SData x) ∧ truthy x = true) as Hvalue.
  { intros k Hk Hr. unfold has_own in Hk.
    destruct (own_lookup k owno) as [a|] eqn:E; [|done].
    destruct (mergeable_source_plain _ _ _ _ _ _ Hm) as [Hplo| ->]; [|done].
    destruct a as [x|o k']; [|by destruct (Hplo _ _ _ E)].
    exists x. split; [|by eapply Htruthy].
    unfold own1. rewrite (merged_lookup_source r other po owno ownt k x);
      [by destruct r | by left | done]. }
  assert (r = Assigning →
          plain own1 ∧ member pt own1 "hasOwnProperty" = VNative "hasOwnProperty")
    as Ha1.
  { intros ->. destruct Hm as (_ & _ & Hplt & _ & Hnative). split.
    - by apply plain_with_copies.
    - unfold member, own1.
      rewrite (merged_lookup_target Assigning other po owno ownt _ (Hsh eq_refl)).
      by destruct (Hnative eq_refl). }
  split_and!.
  - intros k ks Hks.
    assert (has_own owno k = true) as Hk.
    { assert (k ∈ own_keys owno) as Hin by (rewrite Hks; by left).
      apply own_keys_lookup in Hin as [a Ha]. unfold has_own. by rewrite Ha. }
    assert (heap s1 !! other = Some (OOrd po owno)) as Ho1.
    { unfold s1. rewrite merged_state_other; [done|]. intros E.
      by apply (Hne k Hk). }
    rewrite (injectContainer_closed_form r s1 t other pt own1 po owno Ht1 Ho1).
    + unfold injectContainer_outcome. rewrite Hks. cbn [find].
      assert (clashes r pt own1 k = true) as ->; [|done].
      pose proof (merged_has_source r other po owno ownt k (Hkeys k Hk)) as Hhas.
      fold own1 in Hhas.
      destruct r; simpl; rewrite ?Hhas; try done.
      destruct (Hvalue k Hk eq_refl) as (x & Hx & Htx).
      unfold member. by rewrite Hx.
    + destruct Hm as [Hnd Hm]. split; [done|].
      destruct r; try done;
        destruct Hm as (? & Hplt & ? & Hlast);
        (split_and!; [done | by apply plain_with_copies | done |]);
        try done.
      intros E. split; [by apply Ha1 | by destruct (Hlast E)].
  - intros d Hr Hk Hres.
    apply (inject_one_taken_any r s1 t pt own1 d Hr Ht1 Ha1 Hres).
    by apply merged_has_source, Hkeys.
  - intros c Hr Hk.
    destruct (Hvalue _ Hk Hr) as (x & Hx & Htx).
    by apply (inject_class_taken r s1 t pt own1 c x).
Qed.

Lemma X12_witness :
  ∃ s1,
    injectContainer Batch 0 2 two_containers = Ret 0 s1 ∧
    injectContainer Batch 0 2 s1
    = Thrown (Error "Containers have duplicated keys: a") s1 ∧
    inject_class Batch 0 ServiceA s1
    = Thrown (Error "Duplicated service name: a") s1.
Proof.
  assert (mergeable Batch 0 2 ProtoContainer [("b", SData (VRef 1))]
            [("a", SData (VRef 3))]) as Hm.
  { split; [apply (bool_decide_unpack _); reflexivity|].
    split_and!; [done | plain_by_cases | plain_by_cases | done]. }
  eexists. split; [reflexivity|].
  destruct (X12_merged_names_are_taken Batch two_containers 0 2
              ProtoContainer [("b", SData (VRef 1))]
              ProtoContainer [("a", SData (VRef 3))] _
              eq_refl eq_refl Hm eq_refl)
    as (Hagain & _ & Hclass).
  - intros _ k x. simpl. destruct (String.eqb k "a"); [|done]. by intros [= <-].
  - done.
  - split; [exact (Hagain "a" [] eq_refl) | exact (Hclass ServiceA eq_refl eq_refl)].
Defined.

(** X13. Merging a container into itself, [c.injectContainer(c)].  A
    container that has an entry collides with itself: the call throws,
    naming the first key in the order of enumeration, and leaves the
    state as it is.  An empty container is returned as it is.  (In
    [Variadic], where the test is [this[key]], the entries are taken to
    be truthy, as proxies and instances are.) *)
Theorem X13_merging_a_container_into_itself r s t p own :
  heap s !! t = Some (OOrd p own) →
  (r = Variadic →
     plain own ∧ ∀ k x, own_lookup k own = Some (SData x) → truthy x = true) →
  (r = Assigning →
     plain own ∧ member p own "hasOwnProperty" = VNative "hasOwnProperty") →
  injectContainer r t t s
  = match own_keys own with
    | [] => Ret t s
    | k :: _ => Thrown (Error ("Containers have duplicated keys: " ++ k)) s
    end.
Proof.
  intros Ht Hv Ha.
  assert (Object_getOwnPropertyNames (VRef t) s = Ret (own_keys own) s) as Hkeys.
  { unfold Object_getOwnPropertyNames. by rewrite Ht. }
  pose proof (check_keys_find r s t p own (own_keys own) Ht
                (fun E => proj1 (Hv E)) Ha) as Hcheck.
  assert (∀ k, k ∈ own_keys own → clashes r p own k = true) as Hclash.
  { intros k [a Hk]%own_keys_lookup.
    assert (has_own own k = true) as Hhas by (unfold has_own; by rewrite Hk).
    destruct r; simpl; rewrite ?Hhas; try done.
    destruct (Hv eq_refl) as [Hpl Htruthy].
    destruct a as [x|o k']; [|by destruct (Hpl _ _ _ Hk)].
    unfold member. rewrite Hk. by eapply Htruthy. }
  destruct (own_keys own) as [|k ks] eqn:Hks.
  - cbn [find] in Hcheck.
    destruct r;
      unfold injectContainer, eachOwn, keys, Object_assign, Object_keys, bind;
      by rewrite Hkeys, Hcheck, Hkeys.
  - cbn [find] in Hcheck. rewrite Hclash in Hcheck by (by left).
    destruct r;
      unfold injectContainer, eachOwn, keys, Object_keys, bind;
      by rewrite Hkeys, Hcheck.
Qed.

Lemma X13_witness :
  injectContainer Forwarding 2 2 numbered_containers
  = Thrown (Error "Containers have duplicated keys: 9") numbered_containers ∧
  injectContainer Variadic 0 0 (State [OOrd ProtoContainer []] [])
  = Ret 0 (State [OOrd ProtoContainer []] []).
Proof.
  split.
  - apply (X13_merging_a_container_into_itself Forwarding numbered_containers 2
             ProtoContainer
             [("b", SData (VRef 1)); ("10", SData (VRef 1)); ("9", SData (VRef 1))]
             eq_refl); done.
  - apply (X13_merging_a_container_into_itself Variadic
             (State [OOrd ProtoContainer []] []) 0 ProtoContainer [] eq_refl);
      [|done].
    intros _. split; [plain_by_cases | done].
Defined.

(** ** A method taken from the container, before and after the
    construction *)

Lemma eval_member (fuel : nat) r t name m s :
  eval (3 + fuel) r (EGet (EGet EDeps name) m) VUndef (VRef t) s
  = (service <- js_get r (VRef t) name ;; js_get r service m) s.
Proof. done. Qed.

(** X14. [container.name.member], evaluated before and after the
    service is constructed.  The first evaluation goes through the
    proxy: it constructs the instance and gives the member, bound to
    the instance if it is a function.  In [Forwarding] and [Assigning]
    a later evaluation gives the same value.  In [Variadic], [Batch]
    and [ClassOnly] the construction has put the instance in the place
    of the proxy, so a later evaluation reads the instance itself and
    gives the member as it is: a method taken from the container is
    bound to the instance the first time and unbound afterwards. *)
Theorem X14_member_before_and_after_construction
    r s t pt ownt l h p own m fuel :
  heap s !! t = Some (OOrd pt ownt) → plain ownt →
  heap s !! l = Some (OProxy h) → truthy (h_instance h) = false →
  h_t h = t → own_lookup (h_name h) ownt = Some (SData (VRef l)) →
  makes_object (h_desc h) t = Some (p, own) →
  eval (3 + fuel) r (EGet (EGet EDeps (h_name h)) m) VUndef (VRef t) s
  = Ret (bound_if_function (member p own m) (VRef (length (heap s))))
      (constructed_state r s l h p own) ∧
  eval (3 + fuel) r (EGet (EGet EDeps (h_name h)) m) VUndef (VRef t)
    (constructed_state r s l h p own)
  = Ret (if full_traps r
         then bound_if_function (member p own m) (VRef (length (heap s)))
         else member p own m)
      (constructed_state r s l h p own).
Proof.
  intros Ht Hplt Hl Hf <- Hentry Hmk.
  assert (ready r s h) as Hready by (right; eauto).
  pose proof (makes_object_plain _ _ _ _ Hmk) as Hpl.
  pose proof (constructed_state_container r s l h p own pt ownt Hl Ht) as Ht2.
  destruct (constructed_state_handle r s l h p own Hl) as [Hl2 _].
  pose proof (constructed_state_instance r s l h p own Hl Hready) as Hi2.
  rewrite !eval_member. unfold bind. split.
  - rewrite (js_get_data r s (h_t h) pt ownt (h_name h) (VRef l) Ht Hentry).
    apply js_get_first; try done; [by eapply takes_entry_own | eauto].
  - destruct (full_traps r) eqn:Hr.
    + rewrite (js_get_data r _ (h_t h) pt ownt (h_name h) (VRef l) Ht2 Hentry).
      apply (js_get_initialized r _ l _ (length (heap s)) p own m Hl2);
        try done.
      intros -> x Hx. pose proof (member_refs _ _ _ _ _ _ Hmk Hx) as ->. eauto.
    + rewrite (js_get_data r _ (h_t h) pt _ (h_name h) (VRef (length (heap s))) Ht2)
        by apply own_lookup_set_eq.
      by apply js_get_member.
Qed.

Lemma X14_witness :
  eval 3 Variadic (EGet (EGet EDeps "a") "getValue") VUndef (VRef 0) with_ServiceA
  = Ret (VBound (VClos (ELit (LStr "A")) VUndef) (VRef 2))
      (constructed_state Variadic with_ServiceA 1 (fresh_proxy 0 ServiceA)
         (ProtoClass ServiceA) []) ∧
  eval 3 Variadic (EGet (EGet EDeps "a") "getValue") VUndef (VRef 0)
    (constructed_state Variadic with_ServiceA 1 (fresh_proxy 0 ServiceA)
       (ProtoClass ServiceA) [])
  = Ret (VClos (ELit (LStr "A")) VUndef)
      (constructed_state Variadic with_ServiceA 1 (fresh_proxy 0 ServiceA)
         (ProtoClass ServiceA) []).
Proof.
  apply (X14_member_before_and_after_construction Variadic with_ServiceA 0
           ProtoContainer [("a", SData (VRef 1))] 1 (fresh_proxy 0 ServiceA)
           (ProtoClass ServiceA) [] "getValue" 0);
    [reflexivity | plain_by_cases | reflexivity..].
Defined.

(** ** A chain of registrations *)

(** X15. A chain of calls [t.inject(d1).inject(d2)...] of [Forwarding]
    or [Assigning], with descriptors (classes, or names with
    factories, in any mix) whose names are distinct, not reserved and
    not keys of the container, installs all of them: every call
    returns the container; in the end the container has its old
    entries followed by one entry per descriptor, in the order of the
    calls; each entry holds a new proxy that has not been initialised;
    no constructor or factory has been invoked.  (No service is named
    [__proto__], a name whose assignment installs no entry; in
    [Assigning] none is named [hasOwnProperty].) *)
Theorem X15_chain_installs_every_descriptor r ds : ∀ s t own,
  full_traps r = true →
  heap s !! t = Some (OOrd ProtoContainer own) →
  NoDup (desc_name <$> ds) →
  (∀ d, d ∈ ds → own_lookup (desc_name d) own = None ∧
                 mem (desc_name d) ReservedFields = false ∧
                 desc_name d ≠ "__proto__") →
  (r = Assigning → own_lookup "hasOwnProperty" own = None ∧
                   ∀ d, d ∈ ds → desc_name d ≠ "hasOwnProperty") →
  inject_each r t ds s = Ret t (registered_all s t ProtoContainer own ds).
Proof.
  induction ds as [|d ds IH]; intros s t own Hr Ht Hnd Hfree Hsh.
  - simpl. unfold ret, registered_all, entries_at. simpl.
    rewrite !app_nil_r, list_insert_id by done. by destruct s.
  - cbn [inject_each]. unfold bind.
    destruct (Hfree d) as (Hk & Hres & Hproto); [by left|].
    assert (meets_setter ProtoContainer (desc_name d) = false) as Hm.
    { rewrite meets_setter_container. by apply String.eqb_neq. }
    assert (inject_one r t d s = Ret t (registered_state s t ProtoContainer own d))
      as ->.
    { destruct r; try done.
      - by apply inject_one_fresh.
      - destruct (Hsh eq_refl) as [Hown _].
        rewrite (inject_one_unshadowed Assigning s t own d eq_refl Ht Hown).
        unfold inject_one_outcome. by rewrite Hres, Hk, Hm. }
    pose proof (lookup_lt_Some _ _ _ Ht) as Hlt.
    rewrite fmap_cons in Hnd. apply NoDup_cons in Hnd as [Hd Hnd].
    assert (heap (registered_state s t ProtoContainer own d) !! t
            = Some (OOrd ProtoContainer
                      (own ++ [(desc_name d, SData (VRef (length (heap s))))])))
      as Ht1.
    { simpl. rewrite (own_set_fresh _ _ _ Hk).
      apply list_lookup_insert_eq. rewrite length_app. simpl. lia. }
    rewrite (IH _ _ _ Hr Ht1 Hnd).
    + unfold registered_all, registered_state. cbn [heap built]. f_equal.
      rewrite length_insert, length_app, !fmap_cons, entries_at_cons.
      cbn [length]. rewrite Nat.add_1_r, <- !app_assoc. cbn [app].
      rewrite <- insert_app_l by (rewrite length_app; simpl; lia).
      rewrite <- app_assoc. cbn [app]. by rewrite list_insert_insert_eq.
    + intros d' Hd'. destruct (Hfree d') as (Hk' & Hres' & Hproto'); [by right|].
      split; [|done]. rewrite own_lookup_app, Hk'. simpl.
      destruct (String.eqb_spec (desc_name d') (desc_name d)) as [E|]; [|done].
      destruct Hd. rewrite <- E. by apply list_elem_of_fmap_2.
    + intros E. destruct (Hsh E) as [Hown Hnames]. split.
      * rewrite own_lookup_app, Hown. cbn [own_lookup].
        destruct (String.eqb_spec "hasOwnProperty" (desc_name d)) as [E'|]; [|done].
        destruct (Hnames d); [by left | done].
      * intros d' Hd'. apply Hnames. by right.
Qed.

Lemma X15_witness :
  inject_each Assigning 0
    [DFactory "config" (FObject [("apiUrl", ILit (LStr "https://api.example.com"))]);
     DClass ServiceA]
    (State [OOrd ProtoContainer []] [])
  = Ret 0
      (State [OOrd ProtoContainer
                [("config", SData (VRef 1)); ("a", SData (VRef 2))];
              OProxy (lazy_proxy 0
                        (DFactory "config"
                           (FObject [("apiUrl",
                                      ILit (LStr "https://api.example.com"))])));
              OProxy (lazy_proxy 0 (DClass ServiceA))] []).
Proof.
  apply (X15_chain_installs_every_descriptor Assigning
           [DFactory "config"
              (FObject [("apiUrl", ILit (LStr "https://api.example.com"))]);
            DClass ServiceA]
           (State [OOrd ProtoContainer []] []) 0 []).
  - reflexivity.
  - reflexivity.
  - apply (bool_decide_unpack _). reflexivity.
  - intros d Hd. repeat (apply elem_of_cons in Hd as [->|Hd]); [done..|].
    by apply elem_of_nil in Hd.
  - intros _. split; [done|].
    intros d Hd. repeat (apply elem_of_cons in Hd as [->|Hd]); [done..|].
    by apply elem_of_nil in Hd.
Defined.

(** ** What no program does *)

Lemma sound_for_each {A} r (xs : list A) (f : A → M unit) :
  (∀ x, sound r (f x)) → sound r (for_each xs f).
Proof.
  intros Hf. induction xs as [|x xs IH]; simpl; [by_purity|].
  apply sound_bind; [apply Hf | intros; apply IH].
Qed.

Lemma sound_inject_class r t c :
  full_traps r = false → sound r (inject_class r t c).
Proof.
  intros Hr. unfold inject_class.
  apply sound_bind; [apply sound_js_get|]. intros existing.
  destruct (truthy existing); [by_purity|].
  apply sound_bind; [apply sound_alloc|]. intros lazy.
  apply sound_bind; [by apply sound_obj_set_overwrite|]. intros. by_purity.
Qed.

Lemma sound_inject_all r cs : ∀ t,
  full_traps r = false → sound r (inject_all r t cs).
Proof.
  induction cs as [|c cs IH]; intros t Hr; simpl; [by_purity|].
  apply sound_bind; [by apply sound_inject_class|]. intros. by apply IH.
Qed.

Lemma sound_check_key r t k : sound r (check_key r t k).
Proof.
  unfold check_key. apply sound_bind.
  - destruct r; unfold collides;
      try apply sound_js_has; try apply sound_has.
    apply sound_bind; [apply sound_js_get|]. intros. by_purity.
  - intros []; unfold fail; by_purity.
Qed.

Lemma sound_Object_assign r t other :
  full_traps r = false → sound r (Object_assign r t other).
Proof.
  intros Hr. unfold Object_assign, Object_keys.
  apply sound_bind; [apply pure_sound, pure_Object_getOwnPropertyNames|].
  intros ks. apply sound_for_each. intros k.
  apply sound_bind; [apply sound_js_get|]. intros v.
  by apply sound_obj_set_overwrite.
Qed.

Lemma sound_injectContainer_overwriting r t other :
  full_traps r = false → sound r (injectContainer r t other).
Proof.
  intros Hr.
  assert (sound r (ks <- Object_keys (VRef other) ;;
                   check_keys r t ks ;;;
                   Object_assign r t other ;;; ret t)) as H.
  { apply sound_bind; [apply pure_sound, pure_Object_getOwnPropertyNames|].
    intros ks. apply sound_bind; [apply sound_for_each, sound_check_key|].
    intros. apply sound_bind; [by apply sound_Object_assign|]. intros. by_purity. }
  by destruct r.
Qed.

(** When the helper [has] answers [false], the key is not an own
    property in the state it ends in. *)
Lemma has_false_not_own r v k s s' :
  has r v k s = Ret false s' → hasOwnProperty v k s' = Ret false s'.
Proof.
  assert (∀ s1, hasOwnProperty v k s1 = Ret false s' →
          hasOwnProperty v k s' = Ret false s') as Hpure.
  { intros s1 H. pose proof (pure_hasOwnProperty v k s1 s') as Hs.
    rewrite H in Hs. by rewrite (Hs eq_refl) in *. }
  destruct r; try apply Hpure.
  unfold has, bind. destruct (js_get Assigning v "hasOwnProperty" s) as [f s1| |];
    [|done..].
  destruct f; try done. repeat case_match; try done. apply Hpure.
Qed.

Lemma sound_inject_one_any r t d :
  full_traps r = true → sound r (inject_one r t d).
Proof.
  intros Hr s s'. unfold inject_one, bind at 1, alloc.
  set (s1 := State (heap s ++ [OProxy (Handle d t (desc_name d) ProtoObject VUndef)])%list
                   (built s)).
  assert (evolves r s s1) as E1 by apply evolves_alloc.
  unfold bind at 1.
  destruct (mem (desc_name d) ReservedFields).
  { intros [= <-]. exact E1. }
  unfold ret at 1. unfold bind at 1.
  pose proof (sound_has r (VRef t) (desc_name d) s1) as Hsound.
  pose proof (has_false_not_own r (VRef t) (desc_name d) s1) as Hfalse.
  destruct (has r (VRef t) (desc_name d) s1) as [dup s2|e s2|x]; [| |done].
  2:{ intros [= <-]. eapply evolves_trans; [exact E1 | by apply Hsound]. }
  specialize (Hsound s2 eq_refl).
  destruct dup.
  { unfold bind, fail, throw. intros [= <-]. by eapply evolves_trans. }
  specialize (Hfalse s2 eq_refl). unfold hasOwnProperty in Hfalse.
  unfold bind at 1. unfold ret at 1. unfold bind.
  destruct (heap s2 !! t) as [[p own|h|lazy own]|] eqn:Ht; [| | |done].
  1,3: destruct (own_lookup (desc_name d) own) eqn:Hk; [done|];
    destruct (obj_set t (desc_name d) (VRef (length (heap s))) s2)
      as [u s3|e s3|x] eqn:Hset; simpl; [| |done];
    intros [= <-]; (eapply evolves_trans; [exact E1|]);
    (eapply evolves_trans; [exact Hsound|]);
    (eapply evolves_obj_set_new;
       [exact Ht | reflexivity | exact Hk | by rewrite Hset]).
  unfold obj_set. by rewrite Ht.
Qed.

(** *** Data properties only *)

Lemma keeps_tidy_pure {A} (m : M A) : pure m → keeps_tidy m.
Proof. intros H s s' Hs E. by rewrite (H _ _ E). Qed.

Lemma keeps_tidy_bind {A B} (m : M A) (f : A → M B) :
  keeps_tidy m → (∀ a, keeps_tidy (f a)) → keeps_tidy (bind m f).
Proof.
  intros Hm Hf s s' Hs. unfold bind.
  destruct (m s) as [a s1|e s1|x] eqn:E; simpl.
  - apply Hf. apply (Hm s); [done | by rewrite E].
  - intros [= <-]. apply (Hm s); [done | by rewrite E].
  - done.
Qed.

Lemma tidy_alloc s o b :
  tidy s → (∀ own, entries o = Some own → plain own) →
  tidy (State (heap s ++ [o]) b).
Proof.
  intros Hs Ho l o' own. simpl.
  intros [H|[_ H]]%lookup_app_Some; [by eapply Hs|].
  destruct (l - length (heap s)); [|done]. simpl in H. intros He.
  apply Ho. congruence.
Qed.

Lemma tidy_insert s l o b :
  tidy s → (∀ own, entries o = Some own → plain own) →
  tidy (State (<[l := o]> (heap s)) b).
Proof.
  intros Hs Ho l' o' own. simpl.
  intros [(-> & E & _)|[_ H]]%list_lookup_insert_Some; [|by eapply Hs].
  intros He. apply Ho. congruence.
Qed.

Lemma keeps_tidy_alloc o :
  (∀ own, entries o = Some own → plain own) → keeps_tidy (alloc o).
Proof. intros Ho s s' Hs [= <-]. by apply tidy_alloc. Qed.

Lemma keeps_tidy_obj_set t k v : keeps_tidy (obj_set t k v).
Proof.
  intros s s' Hs. unfold obj_set, set_prototype, store.
  destruct (heap s !! t) as [o|] eqn:Ht; [|done].
  destruct (entries o) as [own|] eqn:He; [|by destruct o].
  pose proof (Hs _ _ _ Ht He) as Hpl.
  assert (∀ o', (∀ own', entries o' = Some own' →
                   own' = own ∨ own' = own_set k (SData v) own) →
            tidy (State (<[t := o']> (heap s)) (built s))) as Hput.
  { intros o' Ho'. apply tidy_insert; [done|]. intros own' He'.
    destruct (Ho' _ He') as [-> | ->]; [done | by apply plain_set]. }
  destruct o; simplify_eq/=; repeat case_match; simplify_eq/=; try done;
    intros [= <-]; try done; apply Hput; intros own' [= <-]; eauto.
Qed.

Lemma keeps_tidy_set_instance l v : keeps_tidy (set_instance l v).
Proof.
  intros s s' Hs. unfold set_instance.
  destruct (heap s !! l) as [[p own|h|lazy own]|]; [done| |done..].
  intros [= <-]. by apply tidy_insert.
Qed.

Lemma keeps_tidy_create d t : keeps_tidy (create d t).
Proof.
  destruct d as [c|name [fields|l|msg|field k]]; simpl; unfold new_class; simpl;
    try (apply keeps_tidy_pure; auto with js; fail).
  - destruct (cls_throws c); [apply keeps_tidy_pure; auto with js|].
    apply keeps_tidy_bind; [|intros; apply keeps_tidy_pure; auto with js].
    apply keeps_tidy_alloc. intros ? [= <-]. apply plain_init_fields.
  - apply keeps_tidy_bind; [|intros; apply keeps_tidy_pure; auto with js].
    apply keeps_tidy_alloc. intros ? [= <-]. apply plain_init_fields.
  - apply keeps_tidy_bind; [apply keeps_tidy_pure, pure_entry_of|]. intros x.
    apply keeps_tidy_bind; [|intros; apply keeps_tidy_pure; auto with js].
    apply keeps_tidy_alloc. intros ? [= <-]. plain_by_cases.
Qed.

Lemma keeps_tidy_getInstance r l : keeps_tidy (getInstance r l).
Proof.
  assert (∀ h, keeps_tidy
            (record_construction l ;;; v <- create (h_desc h) (h_t h) ;;
             (if full_traps r then ret tt else obj_set (h_t h) (h_name h) v) ;;;
             set_instance l v ;;; ret v)) as Hconstruct.
  { intros h. apply keeps_tidy_bind.
    { intros s s' Hs [= <-]. intros l' p own. apply Hs. }
    intros _. apply keeps_tidy_bind; [apply keeps_tidy_create|]. intros v.
    apply keeps_tidy_bind.
    { destruct (full_traps r);
        [apply keeps_tidy_pure; auto with js | apply keeps_tidy_obj_set]. }
    intros _. apply keeps_tidy_bind; [apply keeps_tidy_set_instance|].
    intros. apply keeps_tidy_pure; auto with js. }
  intros s s' Hs. unfold getInstance.
  destruct (heap s !! l) as [[p own|h|lazy own]|]; [done| |done..].
  destruct (truthy (h_instance h)); [by intros [= <-]|].
  by apply Hconstruct.
Qed.

Ltac by_tidiness := solve [apply keeps_tidy_pure; simpl; auto with js].

Lemma keeps_tidy_js_getPrototypeOf r v : keeps_tidy (js_getPrototypeOf r v).
Proof.
  intros s s'. unfold js_getPrototypeOf.
  destruct v; try apply (keeps_tidy_pure _ (pure_Object_getPrototypeOf _)).
  destruct (heap s !! l) as [[p own|h|lazy own]|] eqn:Hl;
    try (intros Hs H;
         apply (keeps_tidy_pure _ (pure_Object_getPrototypeOf (VRef l)) s s' Hs);
         exact H).
  destruct (full_traps r).
  - apply keeps_tidy_bind; [apply keeps_tidy_getInstance|].
    intros. apply keeps_tidy_pure, pure_Object_getPrototypeOf.
  - by intros Hs [= <-].
Qed.

Lemma keeps_tidy_is_function r v : keeps_tidy (is_function r v).
Proof.
  destruct r; try (simpl; by_tidiness).
  unfold is_function, instanceof_Function. destruct v; try by_tidiness.
  assert (∀ n o, keeps_tidy (descends_from_Function n Forwarding o)) as H.
  { induction n as [|n IH]; intros o; simpl; [by_tidiness|].
    apply keeps_tidy_bind; [apply keeps_tidy_js_getPrototypeOf|].
    intros p. destruct p; try by_tidiness. apply IH. }
  intros s s'. apply (H _ _ s s').
Qed.

Lemma keeps_tidy_get_trap r get l k :
  (∀ v k', keeps_tidy (get v k')) → keeps_tidy (get_trap r get l k).
Proof.
  intros Hget. unfold get_trap.
  apply keeps_tidy_bind; [apply keeps_tidy_getInstance|]. intros inst.
  apply keeps_tidy_bind; [apply Hget|]. intros v.
  apply keeps_tidy_bind; [apply keeps_tidy_is_function|]. intros. by_tidiness.
Qed.

Lemma keeps_tidy_js_get_n n r v k : keeps_tidy (js_get_n n r v k).
Proof.
  revert v k. induction n as [|n IH]; intros v k; simpl.
  { by_tidiness. }
  destruct v; try by_tidiness.
  intros s s' Hs.
  destruct (heap s !! l) as [[p own|h|lazy own]|] eqn:Hl; [| | |done].
  - destruct (own_lookup k own) as [[x|o k']|].
    + by intros [= <-].
    + by apply IH.
    + by intros [= <-].
  - by apply keeps_tidy_get_trap.
  - destruct (own_lookup k own) as [[x|o k']|].
    + by intros [= <-].
    + by apply IH.
    + by apply keeps_tidy_get_trap.
Qed.

Lemma keeps_tidy_js_get r v k : keeps_tidy (js_get r v k).
Proof. intros s s'. unfold js_get. apply keeps_tidy_js_get_n. Qed.

Lemma keeps_tidy_has r v k : keeps_tidy (has r v k).
Proof.
  unfold has. destruct r; try (apply keeps_tidy_pure, pure_hasOwnProperty).
  apply keeps_tidy_bind; [apply keeps_tidy_js_get|]. intros f.
  destruct f; try by_tidiness.
  repeat (case_match; try by_tidiness);
    apply keeps_tidy_pure, pure_hasOwnProperty.
Qed.

Lemma keeps_tidy_js_has r v k : keeps_tidy (js_has r v k).
Proof.
  intros s s'. unfold js_has.
  destruct v; try (by intros Hs [= <-]).
  destruct (heap s !! l) as [[p own|h|lazy own]|] eqn:Hl; [| | |done].
  - by intros Hs [= <-].
  - destruct (full_traps r).
    + apply keeps_tidy_bind; [apply keeps_tidy_getInstance|].
      intros. apply keeps_tidy_has.
    + by intros Hs [= <-].
  - destruct (own_lookup k own); [by intros Hs [= <-]|].
    destruct (heap s !! lazy) as [[|h|]|]; try done.
    destruct (full_traps r).
    + apply keeps_tidy_bind; [apply keeps_tidy_getInstance|].
      intros. apply keeps_tidy_has.
    + by intros Hs [= <-].
Qed.

Lemma keeps_tidy_js_ownKeys r v : keeps_tidy (js_ownKeys r v).
Proof.
  intros s s'. unfold js_ownKeys.
  destruct v; try apply (keeps_tidy_pure _ (pure_Object_getOwnPropertyNames _)).
  destruct (heap s !! l) as [[p own|h|lazy own]|] eqn:Hl;
    try (intros Hs H;
         apply (keeps_tidy_pure _ (pure_Object_getOwnPropertyNames (VRef l)) s s' Hs);
         exact H).
  destruct (full_traps r).
  - apply keeps_tidy_bind; [apply keeps_tidy_getInstance|].
    intros. apply keeps_tidy_pure, pure_Object_getOwnPropertyNames.
  - by intros Hs [= <-].
Qed.

Lemma keeps_tidy_Object_values r v : keeps_tidy (Object_values r v).
Proof.
  unfold Object_values.
  apply keeps_tidy_bind; [apply keeps_tidy_pure, pure_Object_getOwnPropertyNames|].
  intros ks. induction ks as [|k ks IH]; simpl; [by_tidiness|].
  apply keeps_tidy_bind; [apply keeps_tidy_js_get|]. intros x.
  apply keeps_tidy_bind; [apply IH|]. intros. by_tidiness.
Qed.

Lemma keeps_tidy_eval_call fuel r :
  (∀ e this deps, keeps_tidy (eval fuel r e this deps)) ∧
  (∀ f this, keeps_tidy (call fuel r f this)).
Proof.
  induction fuel as [|fuel [IHe IHc]].
  { split; intros; by_tidiness. }
  split.
  - intros e this deps. destruct e; simpl; try by_tidiness.
    + apply keeps_tidy_bind; [apply IHe|]. intros. apply keeps_tidy_js_get.
    + apply keeps_tidy_bind; [apply IHe|]. intros o.
      apply keeps_tidy_bind; [apply keeps_tidy_js_get|]. intros. apply IHc.
    + apply keeps_tidy_bind; [apply IHe|]. intros. apply IHc.
    + apply keeps_tidy_bind; [apply IHe|]. intros a.
      apply keeps_tidy_bind; [apply IHe|]. intros b.
      destruct a, b; by_tidiness.
  - intros f this. destruct f; simpl; try by_tidiness.
    + apply IHe.
    + apply IHc.
Qed.

Lemma keeps_tidy_for_each {A} (xs : list A) (f : A → M unit) :
  (∀ x, keeps_tidy (f x)) → keeps_tidy (for_each xs f).
Proof.
  intros Hf. induction xs as [|x xs IH]; simpl; [by_tidiness|].
  apply keeps_tidy_bind; [apply Hf | intros; apply IH].
Qed.

Lemma keeps_tidy_inject_one r t d : keeps_tidy (inject_one r t d).
Proof.
  unfold inject_one.
  apply keeps_tidy_bind; [apply keeps_tidy_alloc; by intros ? [=]|]. intros lazy.
  apply keeps_tidy_bind.
  { destruct (mem (desc_name d) ReservedFields); unfold fail; by_tidiness. }
  intros _. apply keeps_tidy_bind; [apply keeps_tidy_has|]. intros dup.
  apply keeps_tidy_bind; [destruct dup; unfold fail; by_tidiness|].
  intros _. apply keeps_tidy_bind; [apply keeps_tidy_obj_set|].
  intros. by_tidiness.
Qed.

Lemma keeps_tidy_injectContainer_Assigning t other :
  keeps_tidy (injectContainer Assigning t other).
Proof.
  unfold injectContainer, keys.
  apply keeps_tidy_bind; [apply keeps_tidy_pure, pure_Object_getOwnPropertyNames|].
  intros ks. apply keeps_tidy_bind.
  { apply keeps_tidy_for_each. intros k. unfold check_key, collides.
    apply keeps_tidy_bind; [apply keeps_tidy_has|].
    intros []; unfold fail; by_tidiness. }
  intros _. apply keeps_tidy_bind; [|intros; by_tidiness].
  unfold Object_assign, Object_keys.
  apply keeps_tidy_bind; [apply keeps_tidy_pure, pure_Object_getOwnPropertyNames|].
  intros ks'. apply keeps_tidy_for_each. intros k.
  apply keeps_tidy_bind; [apply keeps_tidy_js_get | intros; apply keeps_tidy_obj_set].
Qed.

(** *** The merge of [Assigning] *)

(** The helper [has] of [Assigning], once [obj.hasOwnProperty] has been
    read. *)
Lemma has_Assigning_outcome ob key s f s1 :
  js_get Assigning ob "hasOwnProperty" s = Ret f s1 →
  has Assigning ob key s = hasOwnProperty ob key s1 ∨
  has Assigning ob key s = Abort Unmodelled ∨
  has Assigning ob key s
  = Thrown (TypeError "obj.hasOwnProperty is not a function") s1.
Proof.
  intros H. unfold has, bind. rewrite H.
  destruct f as [| | | | | | | |name]; try (by right; right); try (by right; left).
  destruct (String.eqb_spec name "hasOwnProperty") as [->|Hne]; [by left|].
  right. left. repeat case_match; subst; done.
Qed.

(** What the [get] trap of [Assigning] hands out is not a function
    that [has] could call as a method of the container: a function
    comes bound to the instance. *)
Lemma has_through_trap get l ob key s :
  match (f <- get_trap Assigning get l "hasOwnProperty" ;;
         match f with
         | VNative "hasOwnProperty" => hasOwnProperty ob key
         | VClos _ _ | VBound _ _ | VNative _ => abort_with Unmodelled
         | _ => throw (TypeError "obj.hasOwnProperty is not a function")
         end) s with
  | Ret _ _ => False
  | _ => True
  end.
Proof.
  unfold get_trap, bind, is_function, ret.
  destruct (getInstance Assigning l s) as [i s1|e s1|x]; [|done..].
  destruct (get i "hasOwnProperty" s1) as [v s2|e s2|x]; [|done..].
  by destruct v.
Qed.

Lemma has_Assigning_trapped s t lazy k :
  js_get Assigning (VRef t) "hasOwnProperty" s
  = get_trap Assigning (js_get_n (S (length (heap s))) Assigning) lazy
      "hasOwnProperty" s →
  match has Assigning (VRef t) k s with
  | Ret _ _ => False
  | _ => True
  end.
Proof.
  intros Hget.
  pose proof (has_through_trap (js_get_n (S (length (heap s))) Assigning)
                lazy (VRef t) k s) as H.
  unfold has. unfold bind at 1 in H. unfold bind at 1. by rewrite Hget.
Qed.

(** On objects with data properties only, a check of [Assigning] that
    passes has changed nothing, and the key is not an own one. *)
Lemma check_key_Assigning_tidy s t k :
  tidy s →
  match check_key Assigning t k s with
  | Ret _ s1 => s1 = s ∧ ∃ o own, heap s !! t = Some o ∧
                  entries o = Some own ∧ own_lookup k own = None
  | Thrown _ s1 => evolves Assigning s s1
  | Abort _ => True
  end.
Proof.
  intros Hs.
  pose proof (sound_check_key Assigning t k s) as Hsound.
  destruct (check_key Assigning t k s) as [u s1|e s1|x] eqn:E; [|by apply Hsound|done].
  clear Hsound. revert E. unfold check_key, collides.
  assert (∀ o own f, heap s !! t = Some o → entries o = Some own →
          js_get Assigning (VRef t) "hasOwnProperty" s = Ret f s →
          match has Assigning (VRef t) k s with
          | Ret b s2 => s2 = s ∧ b = (match own_lookup k own with
                                      | Some _ => true | None => false end)
          | _ => True
          end) as Hread.
  { intros o own f Ht He Hget.
    destruct (has_Assigning_outcome (VRef t) k s _ s Hget) as [-> | [-> | ->]];
      [|done..].
    unfold hasOwnProperty. rewrite Ht. by destruct o; simplify_eq/=. }
  assert (∀ o own f, heap s !! t = Some o → entries o = Some own →
          js_get Assigning (VRef t) "hasOwnProperty" s = Ret f s →
          (b <- has Assigning (VRef t) k ;;
           (if b : bool then fail ("Containers have duplicated keys: " ++ k)
            else ret tt)) s
          = Ret u s1 →
          s1 = s ∧ ∃ o own, heap s !! t = Some o ∧
            entries o = Some own ∧ own_lookup k own = None) as Hpass.
  { intros o own f Ht He Hget. specialize (Hread o own f Ht He Hget).
    unfold bind. destruct (has Assigning (VRef t) k s) as [b s2|e s2|x']; [|done..].
    destruct Hread as [-> ->].
    destruct (own_lookup k own) eqn:Hk; simpl; [done|].
    intros [= <-]. eauto 6. }
  destruct (heap s !! t) as [[pt ownt|h|lazy ownt]|] eqn:Ht.
  - pose proof (Hs _ _ _ Ht eq_refl) as Hpl.
    intros E. eapply (Hpass _ ownt); [done | done | | exact E].
    apply (js_get_member Assigning s t pt ownt _ Ht Hpl).
  - pose proof (has_Assigning_trapped s t t k) as H.
    unfold bind. destruct (has Assigning (VRef t) k s); [|done..].
    destruct H. unfold js_get. cbn [js_get_n]. by rewrite Ht.
  - pose proof (Hs _ _ _ Ht eq_refl) as Hpl.
    destruct (own_lookup "hasOwnProperty" ownt) as [[x|o k']|] eqn:Hown;
      [| by destruct (Hpl _ _ _ Hown) |].
    + intros E. eapply (Hpass _ ownt); [done | done | | exact E].
      apply (js_get_data_via _ _ _ _ _ _ _ Ht Hown).
    + pose proof (has_Assigning_trapped s t lazy k) as H.
      unfold bind. destruct (has Assigning (VRef t) k s); [|done..].
      destruct H. unfold js_get. cbn [js_get_n]. by rewrite Ht, Hown.
  - unfold has, js_get, bind. cbn [js_get_n]. by rewrite Ht.
Qed.

Lemma check_keys_Assigning_tidy s t ks :
  tidy s →
  match check_keys Assigning t ks s with
  | Ret _ s1 => s1 = s ∧
      Forall (fun k => ∃ o own, heap s !! t = Some o ∧
                entries o = Some own ∧ own_lookup k own = None) ks
  | Thrown _ s1 => evolves Assigning s s1
  | Abort _ => True
  end.
Proof.
  intros Hs. induction ks as [|k ks IH]; [by split|].
  cbn [for_each]. unfold bind at 1.
  pose proof (check_key_Assigning_tidy s t k Hs) as Hk.
  destruct (check_key Assigning t k s) as [u s1|e s1|x]; [|done..].
  destruct Hk as [-> Hk].
  destruct (for_each ks (check_key Assigning t) s); [|done..].
  destruct IH as [-> Hall]. split; [done | by constructor].
Qed.

(** What an assignment leaves in the heap. *)
Lemma obj_set_shape t k v s s' o own :
  heap s !! t = Some o → entries o = Some own →
  obj_set t k v s = Ret tt s' →
  (∃ o' own', heap s' !! t = Some o' ∧ entries o' = Some own' ∧
     (own' = own ∨ own' = own_set k (SData v) own)) ∧
  ∀ l, l ≠ t → heap s' !! l = heap s !! l.
Proof.
  intros Ht He. unfold obj_set, set_prototype, store. rewrite Ht.
  pose proof (lookup_lt_Some _ _ _ Ht) as Hlt.
  assert (∀ o' own', entries o' = Some own' →
          (own' = own ∨ own' = own_set k (SData v) own) →
          (∃ o'' own'', <[t := o']> (heap s) !! t = Some o'' ∧
             entries o'' = Some own'' ∧
             (own'' = own ∨ own'' = own_set k (SData v) own)) ∧
          ∀ l, l ≠ t → <[t := o']> (heap s) !! l = heap s !! l) as Hput.
  { intros o' own' He' Hown. split.
    - exists o', own'. by rewrite list_lookup_insert_eq.
    - intros l Hne. by rewrite list_lookup_insert_ne. }
  destruct o; simplify_eq/=; repeat case_match; simplify_eq/=;
    intros [= <-]; simpl; try (eapply Hput; [reflexivity | eauto]; fail);
    (split; [eexists _, _; split_and!; [done | done | by left] | done]).
Qed.

(** The copying loop of [Object.assign], run on keys that the target
    does not have, or has with the value they have in the source. *)
Lemma assign_loop_sound t other oo owno ks : ∀ s s' ot ownt,
  t ≠ other →
  heap s !! other = Some oo → entries oo = Some owno → plain owno →
  heap s !! t = Some ot → entries ot = Some ownt →
  Forall (fun k => is_Some (own_lookup k owno) ∧
                   ∀ a, own_lookup k ownt = Some a → own_lookup k owno = Some a) ks →
  final_state (for_each ks (fun key => v <- js_get Assigning (VRef other) key ;;
                                       obj_set t key v) s) = Some s' →
  evolves Assigning s s'.
Proof.
  induction ks as [|k ks IH]; intros s s' ot ownt Hne Ho Heo Hplo Ht Het Hall.
  { intros [= <-]. apply evolves_refl. }
  apply Forall_cons in Hall as [[[a Ha] Hsame] Hall].
  destruct a as [x|o k']; [|by destruct (Hplo _ _ _ Ha)].
  cbn [for_each]. unfold bind at 1. unfold bind at 1.
  rewrite (js_get_entry Assigning s other oo owno k x Ho Heo Ha).
  pose proof (evolves_obj_set Assigning s) as Hstep.
  pose proof (obj_set_shape t k x s) as Hshape.
  destruct (obj_set t k x s) as [[] s1|e s1|x'] eqn:Hset; simpl; [| |done].
  2:{ intros [= <-]. apply (Hstep _ t k x); [|by rewrite Hset].
      intros o own y Ht' He' Hk.
      assert (own = ownt) as -> by congruence.
      rewrite (Hsame _ Hk) in Ha. injection Ha as ->. apply slot_kept_refl. }
  intros H.
  assert (evolves Assigning s s1) as E1.
  { apply (Hstep _ t k x); [|by rewrite Hset].
    intros o own y Ht' He' Hk.
    assert (own = ownt) as -> by congruence.
    rewrite (Hsame _ Hk) in Ha. injection Ha as ->. apply slot_kept_refl. }
  eapply evolves_trans; [exact E1|].
  destruct (Hshape s1 ot ownt Ht Het eq_refl) as [(o' & own' & Ht1 & He1 & Hown) Hrest].
  apply (IH s1 s' o' own'); try done.
  - by rewrite Hrest.
  - eapply Forall_impl; [exact Hall|]. simpl. intros k0 [Hsome Hk0].
    split; [done|]. intros a0. destruct Hown as [-> | ->]; [by apply Hk0|].
    rewrite own_lookup_set. destruct (String.eqb_spec k0 k) as [->|_]; [|by apply Hk0].
    intros [= <-]. done.
Qed.

Lemma final_state_then_ret {A B} (m : M A) (b : B) s :
  final_state ((m ;;; ret b) s) = final_state (m s).
Proof. unfold bind. by destruct (m s). Qed.

Lemma sound_injectContainer_Assigning t other s s' :
  tidy s →
  final_state (injectContainer Assigning t other s) = Some s' →
  evolves Assigning s s'.
Proof.
  intros Hs. unfold injectContainer, keys. unfold bind at 1.
  destruct (Object_getOwnPropertyNames (VRef other) s) as [ks s0|e s0|x] eqn:Hkeys;
    [| |done].
  2:{ intros [= <-].
      rewrite (pure_Object_getOwnPropertyNames (VRef other) s s0)
        by (by rewrite Hkeys).
      apply evolves_refl. }
  assert (s0 = s) as ->
    by (apply (pure_Object_getOwnPropertyNames (VRef other)); by rewrite Hkeys).
  assert (∃ oo owno, heap s !! other = Some oo ∧ entries oo = Some owno ∧
                     ks = own_keys owno) as (oo & owno & Ho & Heo & ->).
  { revert Hkeys. unfold Object_getOwnPropertyNames.
    destruct (heap s !! other) as [[po owno|ho|lazy owno]|]; try done;
      intros [= <-]; eauto 6. }
  unfold bind at 1.
  pose proof (check_keys_Assigning_tidy s t (own_keys owno) Hs) as Hcheck.
  destruct (check_keys Assigning t (own_keys owno) s) as [u s1|e s1|x]; [| |done].
  2:{ by intros [= <-]. }
  destruct Hcheck as [-> Hall].
  rewrite final_state_then_ret. unfold Object_assign, Object_keys. unfold bind at 1.
  rewrite Hkeys.
  destruct (own_keys owno) as [|k ks] eqn:Hks.
  { intros [= <-]. apply evolves_refl. }
  rewrite <- Hks in *.
  assert (∃ ot ownt, heap s !! t = Some ot ∧ entries ot = Some ownt)
    as (ot & ownt & Ht & Het).
  { rewrite Hks in Hall. apply Forall_cons in Hall as [(o & own & ? & ? & _) _].
    eauto. }
  assert (Forall (fun k => own_lookup k ownt = None) (own_keys owno)) as Hnone.
  { eapply Forall_impl; [exact Hall|]. simpl.
    intros k0 (o & own & Ht' & He' & Hk0). congruence. }
  destruct (decide (t = other)) as [->|Hne].
  - assert (ownt = owno) as -> by congruence.
    assert (k ∈ own_keys owno) as Hin by (rewrite Hks; by left).
    pose proof (proj1 (Forall_forall _ _) Hnone k Hin) as Hk.
    apply own_keys_lookup in Hin as [a Ha]. congruence.
  - apply (assign_loop_sound t other oo owno _ s s' ot ownt); try done.
    + exact (Hs _ _ _ Ho Heo).
    + apply Forall_forall. intros k0 Hin. split; [by apply own_keys_lookup|].
      intros a. by rewrite (proj1 (Forall_forall _ _) Hnone k0 Hin).
Qed.

(** *** Any program *)

Lemma sound_inject r t ds :
  sound r (inject r t ds).
Proof.
  destruct r; unfold inject.
  - destruct (mapM class_of ds); [by apply sound_inject_all | by_purity].
  - destruct (mapM class_of ds); [by apply sound_inject_all | by_purity].
  - destruct ds as [|d [|? ?]]; try by_purity. by apply sound_inject_one_any.
  - destruct ds as [|d [|? ?]]; try by_purity. by apply sound_inject_one_any.
  - destruct ds as [|[c|? ?] [|? ?]]; try by_purity. by apply sound_inject_class.
Qed.

Lemma sound_act fuel r a s s' :
  (r = Assigning → tidy s) → act fuel r a s = Some s' → evolves r s s'.
Proof.
  intros Hs. destruct a; simpl.
  - apply sound_inject.
  - destruct r.
    + by apply sound_injectContainer_overwriting.
    + by apply sound_injectContainer_overwriting.
    + apply sound_injectContainer_Forwarding.
    + apply sound_injectContainer_Assigning. by apply Hs.
    + by apply sound_injectContainer_overwriting.
  - apply sound_js_get.
  - apply sound_js_has.
  - apply sound_js_getPrototypeOf.
  - apply sound_js_ownKeys.
  - apply sound_Object_values.
  - apply sound_eval_call.
Qed.

Lemma tidy_act fuel a s s' :
  tidy s → act fuel Assigning a s = Some s' → tidy s'.
Proof.
  intros Hs. destruct a; simpl.
  - destruct ds as [|d [|? ?]]; try done. by apply keeps_tidy_inject_one.
  - by apply keeps_tidy_injectContainer_Assigning.
  - by apply keeps_tidy_js_get.
  - by apply keeps_tidy_js_has.
  - by apply keeps_tidy_js_getPrototypeOf.
  - by apply keeps_tidy_js_ownKeys.
  - by apply keeps_tidy_Object_values.
  - by apply keeps_tidy_eval_call.
Qed.

Lemma evolves_run fuel r acts : ∀ s s',
  (r = Assigning → tidy s) → run fuel r acts s = Some s' → evolves r s s'.
Proof.
  induction acts as [|a acts IH]; intros s s' Hs; simpl.
  - intros [= <-]. apply evolves_refl.
  - destruct (act fuel r a s) as [s1|] eqn:E; [|done]. intros H.
    eapply evolves_trans; [by eapply sound_act|].
    apply IH; [|done]. intros ->. eapply tidy_act; [by apply Hs | exact E].
Qed.

(** X16. What no program undoes, in any revision.  Take any sequence
    of registrations, merges, property reads, membership tests,
    prototype queries, key and value enumerations and calls of client
    code, each of which may end in an exception.  Every object that
    existed before exists after: an ordinary object (a container, an
    instance) still has every key it had, and its prototype is the one
    it had, or a lazy proxy that the registration of a service named
    [__proto__] has put in its place; a forwarding getter is the same
    getter; in [Forwarding] and [Assigning] a data property has the
    same value, so that the entry of a container is the proxy for good.
    A proxy differs at most in its variable [instance]; and a proxy
    that was initialised is the same afterwards, its constructor or
    factory not invoked again.  (In [Assigning] the objects are taken
    to have data properties only, as all objects of that revision
    have.  The statement is about the runs that the model follows to
    their end: in [Assigning], once a lazy proxy is the prototype of a
    container, [obj.hasOwnProperty] is a function bound to the
    instance, and a registration or merge into that container is not
    followed.) *)
Theorem X16_what_no_program_undoes fuel r acts s s' :
  (r = Assigning → tidy s) →
  run fuel r acts s = Some s' →
  evolves r s s' ∧
  ∀ l h, heap s !! l = Some (OProxy h) → truthy (h_instance h) = true →
    heap s' !! l = Some (OProxy h) ∧ constructions l s' = constructions l s.
Proof.
  intros Hs Hrun.
  pose proof (evolves_run fuel r acts s s' Hs Hrun) as Hev.
  split; [done|]. intros l h Hl Hh. by eapply initialised_forever.
Qed.

Lemma X16_witness :
  ∃ s',
    run 4 Assigning
      [Get (VRef 1) "greet"; Register 0 [DClass ServiceA]; Merge 0 0;
       Test (VRef 1) "greeting"; PrototypeOf (VRef 1);
       Apply (VClos (EGet EThis "greeting") VUndef) (VRef 1)]
      greeter_used = Some s' ∧
    heap s' !! 1
    = Some (OProxy (Handle (DClass Greeter) 0 "greeter" ProtoObject (VRef 2))) ∧
    constructions 1 s' = 1.
Proof.
  assert (tidy greeter_used) as Htidy.
  { intros l o own H He.
    destruct l as [|[|[|l]]]; simplify_eq/=; plain_by_cases. }
  destruct (run 4 Assigning
              [Get (VRef 1) "greet"; Register 0 [DClass ServiceA]; Merge 0 0;
               Test (VRef 1) "greeting"; PrototypeOf (VRef 1);
               Apply (VClos (EGet EThis "greeting") VUndef) (VRef 1)]
              greeter_used) as [s'|] eqn:Hrun; [|by vm_compute in Hrun].
  exists s'. split; [done|].
  exact (proj2 (X16_what_no_program_undoes 4 Assigning _ greeter_used s'
                  (fun _ => Htidy) Hrun)
           1 (Handle (DClass Greeter) 0 "greeter" ProtoObject (VRef 2))
           eq_refl eq_refl).
Defined.

(** ** Merging what has been merged *)

Lemma js_get_n_reaches r s n l k x :
  reaches s n l k x → ∀ m, n < m → js_get_n m r (VRef l) k s = Ret x s.
Proof.
  induction 1 as [l p own k x Hl Hk|n l p own k o k' x Hl Hk _ IH];
    intros m Hm; (destruct m as [|m]; [lia|]); cbn [js_get_n]; rewrite Hl, Hk.
  - done.
  - apply IH. lia.
Qed.

(** What could be reached before a merge can be reached after it. *)
Lemma reaches_merged s t other pt ownt po owno n l k x :
  heap s !! t = Some (OOrd pt ownt) →
  find (clashes Forwarding pt ownt) (own_keys owno) = None →
  reaches s n l k x →
  reaches (merged_state Forwarding s t other pt ownt po owno) n l k x.
Proof.
  intros Ht Hfind.
  assert (∀ k a, own_lookup k ownt = Some a →
          own_lookup k (merged Forwarding other po owno ownt) = Some a) as Hold.
  { intros k0 a Ha. unfold merged. rewrite with_getters_lookup, decide_False; [done|].
    intros Hin.
    pose proof (proj1 (Forall_forall _ _) (find_none_Forall _ _ Hfind) k0 Hin) as Hc.
    simpl in Hc. unfold has_own in Hc. by rewrite Ha in Hc. }
  assert (∀ l p own, heap s !! l = Some (OOrd p own) →
          ∃ own', heap (merged_state Forwarding s t other pt ownt po owno) !! l
                  = Some (OOrd p own') ∧
                  ∀ k a, own_lookup k own = Some a → own_lookup k own' = Some a)
    as Hobj.
  { intros l0 p own Hl. destruct (decide (l0 = t)) as [->|Hne].
    - assert (p = pt ∧ own = ownt) as [-> ->] by (split; congruence).
      eexists. split; [by apply merged_state_target | exact Hold].
    - exists own. by rewrite merged_state_other. }
  induction 1 as [l p own k x Hl Hk|n l p own k o k' x Hl Hk _ IH].
  - destruct (Hobj _ _ _ Hl) as (own' & Hl' & Hkeep).
    eapply reaches_data; [exact Hl' | by apply Hkeep].
  - destruct (Hobj _ _ _ Hl) as (own' & Hl' & Hkeep).
    eapply reaches_getter; [exact Hl' | by apply Hkeep | exact IH].
Qed.

(** X17. Merges of [Forwarding] compose.  Let reading [other[k]] go
    through [n] forwarding getters to a data property that holds [x]:
    [other] is a container into which others have been merged, [n]
    levels deep, and [x] is the proxy in the container where the
    service was registered.  If the merge of [other] into [t] finds no
    collision, then [t[k]] goes through one getter more and gives that
    very [x].  (A chain that visits no object twice has fewer getters
    than the heap has objects.) *)
Theorem X17_merging_a_merged_container s t other pt ownt po owno n k x s1 :
  heap s !! t = Some (OOrd pt ownt) →
  heap s !! other = Some (OOrd po owno) →
  NoDup owno.*1 →
  find (clashes Forwarding pt ownt) (own_keys owno) = None →
  reaches s n other k x → n < length (heap s) →
  s1 = merged_state Forwarding s t other pt ownt po owno →
  injectContainer Forwarding t other s = Ret t s1 ∧
  reaches s1 (S n) t k x ∧
  js_get Forwarding (VRef t) k s1 = Ret x s1.
Proof.
  intros Ht Ho Hnd Hfind Hreach Hn ->.
  assert (reaches (merged_state Forwarding s t other pt ownt po owno) (S n) t k x)
    as Hreach1.
  { eapply reaches_getter.
    - by apply merged_state_target.
    - unfold merged. rewrite with_getters_lookup, decide_True; [done|].
      apply own_keys_lookup.
      inversion Hreach as [? p own ? ? Hl Hk|? ? p own ? o k' ? Hl Hk _]; subst;
        assert (own = owno) as -> by congruence; by rewrite Hk.
    - by apply reaches_merged. }
  split_and!.
  - rewrite (injectContainer_closed_form Forwarding s t other pt ownt po owno Ht Ho
               (conj Hnd I)).
    unfold injectContainer_outcome. by rewrite Hfind.
  - exact Hreach1.
  - unfold js_get. apply (js_get_n_reaches Forwarding _ (S n)); [done|].
    rewrite merged_state_length. lia.
Qed.

Lemma X17_witness :
  ∃ s1,
    injectContainer Forwarding 3 2 chained_containers = Ret 3 s1 ∧
    reaches s1 2 3 "a" (VRef 1) ∧
    js_get Forwarding (VRef 3) "a" s1 = Ret (VRef 1) s1.
Proof.
  eexists.
  apply (X17_merging_a_merged_container chained_containers 3 2
           ProtoContainer [] ProtoContainer [("a", SGetter 0 "a")] 1 "a" (VRef 1)).
  - reflexivity.
  - reflexivity.
  - apply (bool_decide_unpack _). reflexivity.
  - reflexivity.
  - eapply reaches_getter; [reflexivity | reflexivity |].
    eapply reaches_data; reflexivity.
  - simpl. lia.
  - reflexivity.
Defined.

(** ** A merge is a snapshot *)

Lemma changes_only_refl s t p own :
  heap s !! t = Some (OOrd p own) → changes_only t own s s.
Proof. intros Ht. unfold changes_only. split_and!; [done | done | by eexists]. Qed.

Lemma changes_only_trans t own1 own2 s s1 s2 :
  changes_only t own1 s s1 → changes_only t own2 s1 s2 →
  changes_only t own2 s s2.
Proof.
  intros (L1 & K1 & _) (L2 & K2 & T2). unfold changes_only.
  split_and!; [lia| |done].
  intros x Hx Hlt. rewrite K2 by (done || lia). by apply K1.
Qed.

Lemma changes_only_put s t p own o' own' o :
  heap s !! t = Some (OOrd p own) → entries o' = Some own' →
  changes_only t own' s
    (State (<[t := o']> (heap s ++ [o])%list) (built s)).
Proof.
  intros Ht He. pose proof (lookup_lt_Some _ _ _ Ht) as Hlt.
  unfold changes_only. split_and!; simpl.
  - rewrite length_insert, length_app. lia.
  - intros x Hx Hx'. rewrite list_lookup_insert_ne by done. by apply lookup_app_l.
  - exists o'. split; [|done].
    apply list_lookup_insert_eq. rewrite length_app. lia.
Qed.

Lemma changes_only_alloc s t p own o :
  heap s !! t = Some (OOrd p own) →
  changes_only t own s (State (heap s ++ [o])%list (built s)).
Proof.
  intros Ht. unfold changes_only. split_and!; simpl.
  - rewrite length_app. lia.
  - intros x Hx Hx'. by apply lookup_app_l.
  - eexists. split; [by apply lookup_alloc_old | done].
Qed.

(** A batch of classes changes its container alone; when it succeeds,
    every class of the batch has an entry. *)
Lemma inject_all_effect r cs : ∀ s t p own s',
  heap s !! t = Some (OOrd p own) → plain own →
  final_state (inject_all r t cs s) = Some s' →
  ∃ own', changes_only t own' s s' ∧
    (∀ k, has_own own k = true → has_own own' k = true) ∧
    (∀ t', inject_all r t cs s = Ret t' s' →
       ∀ c, c ∈ cs → has_own own' (cls_name c) = true).
Proof.
  induction cs as [|c cs IH]; intros s t p own s' Ht Hpl; cbn [inject_all].
  { intros [= <-]. exists own. split_and!; [by eapply changes_only_refl | done |].
    intros _ _ c Hc. by apply elem_of_nil in Hc. }
  unfold bind.
  destruct (inject_class_cases r s t p own c Ht Hpl) as [[-> _]| ->].
  2:{ intros [= <-]. exists own.
      split_and!; [by eapply changes_only_refl | done | done]. }
  pose proof (changes_only_put s t p own
                (OOrd p (own_set (cls_name c) (SData (VRef (length (heap s)))) own))
                _ (OProxy (fresh_proxy t c)) Ht eq_refl) as Hstep.
  fold (installed_state s t p own c) in Hstep.
  assert (heap (installed_state s t p own c) !! t
          = Some (OOrd p (own_set (cls_name c)
                            (SData (VRef (length (heap s)))) own))) as Ht1.
  { simpl. apply list_lookup_insert_eq. rewrite length_app.
    pose proof (lookup_lt_Some _ _ _ Ht). lia. }
  intros Hrest.
  destruct (IH _ _ _ _ _ Ht1 (plain_set _ _ _ Hpl) Hrest)
    as (own' & Hch & Hkeep & Hall).
  exists own'. split_and!.
  - eapply changes_only_trans; [exact Hstep | exact Hch].
  - intros k Hk. apply Hkeep. unfold has_own in *. rewrite own_lookup_set.
    by destruct (String.eqb k (cls_name c)).
  - intros t' Hret c' [->|Hin]%elem_of_cons; [|by eapply Hall].
    apply Hkeep. unfold has_own. by rewrite own_lookup_set_eq.
Qed.

(** What [inject] of [Forwarding] and [Assigning] ends in. *)
Lemma inject_one_shape r s t p own d :
  full_traps r = true →
  heap s !! t = Some (OOrd p own) → (r = Assigning → plain own) →
  (inject_one r t d s = Ret t (registered_state s t p own d) ∧
   meets_setter p (desc_name d) = false) ∨
  (inject_one r t d s = Ret t (replaced_state s t own d) ∧
   desc_name d = "__proto__") ∨
  (∃ e, inject_one r t d s = Thrown e (rejected_state s t d)) ∨
  (∃ x, inject_one r t d s = Abort x).
Proof.
  intros Hr Ht Hpl.
  destruct (mem (desc_name d) ReservedFields) eqn:Hres.
  { right. right. left. eexists. by apply inject_one_reserved. }
  destruct r; try done.
  - destruct (own_lookup (desc_name d) own) eqn:Hk.
    + right. right. left. eexists. by eapply inject_one_taken.
    + destruct (meets_setter p (desc_name d)) eqn:Hset.
      * right. left. split; [by eapply inject_one_prototype|].
        by apply meets_setter_name in Hset.
      * left. split; [by apply inject_one_fresh | done].
  - set (s1 := State (heap s ++ [OProxy (Handle d t (desc_name d) ProtoObject VUndef)])%list
                     (built s)).
    assert (inject_one Assigning t d s
            = (dup <- has Assigning (VRef t) (desc_name d) ;;
               (if dup : bool
                then fail ("Duplicate service name: " ++ desc_name d)
                else ret tt) ;;;
               obj_set t (desc_name d) (VRef (length (heap s))) ;;;
               ret t) s1) as ->.
    { unfold inject_one, bind at 1, alloc. by rewrite Hres. }
    assert (heap s1 !! t = Some (OOrd p own)) as Ht1 by (by apply lookup_alloc_old).
    assert (heap s1 !! length (heap s)
            = Some (OProxy (Handle d t (desc_name d) ProtoObject VUndef))) as Hl1.
    { simpl. by apply list_lookup_middle. }
    unfold bind.
    destruct (has_Assigning_outcome (VRef t) (desc_name d) s1 _ s1
                (js_get_member Assigning s1 t p own "hasOwnProperty" Ht1
                   (Hpl eq_refl)))
      as [-> | [-> | ->]];
      [|right; right; right; by eexists | right; right; left; by eexists].
    unfold hasOwnProperty. rewrite Ht1.
    destruct (own_lookup (desc_name d) own) eqn:Hk.
    + right. right. left. by eexists.
    + destruct (meets_setter p (desc_name d)) eqn:Hset.
      * right. left. split; [|by apply meets_setter_name in Hset].
        unfold ret, obj_set, set_prototype, store. by rewrite Ht1, Hk, Hset, Hl1.
      * left. split; [|done].
        unfold ret, obj_set, store. by rewrite Ht1, Hk, Hset.
Qed.

Lemma inject_effect r s t p own ds s' :
  heap s !! t = Some (OOrd p own) → (r ≠ Forwarding → plain own) →
  final_state (inject r t ds s) = Some s' →
  ∃ own', changes_only t own' s s' ∧
    (∀ k, has_own own k = true → has_own own' k = true) ∧
    (∀ t', inject r t ds s = Ret t' s' →
       ∀ d, d ∈ ds → desc_name d ≠ "__proto__" →
         has_own own' (desc_name d) = true).
Proof.
  intros Ht Hpl.
  assert (∀ d, full_traps r = true →
          final_state (inject_one r t d s) = Some s' →
          ∃ own', changes_only t own' s s' ∧
            (∀ k, has_own own k = true → has_own own' k = true) ∧
            (∀ t', inject_one r t d s = Ret t' s' →
               ∀ d', d' ∈ [d] → desc_name d' ≠ "__proto__" →
                 has_own own' (desc_name d') = true)) as Hone.
  { intros d Hr.
    destruct (inject_one_shape r s t p own d Hr Ht)
      as [[-> _] | [[-> Hname] | [[e ->] | [x ->]]]];
      [intros E; apply Hpl; by rewrite E | | | |done].
    - intros [= <-]. eexists. split_and!.
      + by eapply changes_only_put.
      + intros k Hk. unfold has_own in *. rewrite own_lookup_set.
        by destruct (String.eqb k (desc_name d)).
      + intros _ _ d' ->%list_elem_of_singleton _.
        unfold has_own. by rewrite own_lookup_set_eq.
    - intros [= <-]. exists own. split_and!.
      + by eapply changes_only_put.
      + done.
      + by intros _ _ d' ->%list_elem_of_singleton.
    - intros [= <-]. exists own.
      split_and!; [by eapply changes_only_alloc|done..]. }
  assert (∀ cs, full_traps r = false → mapM class_of ds = Some cs →
          final_state (inject_all r t cs s) = Some s' →
          ∃ own', changes_only t own' s s' ∧
            (∀ k, has_own own k = true → has_own own' k = true) ∧
            (∀ t', inject_all r t cs s = Ret t' s' →
               ∀ d, d ∈ ds → desc_name d ≠ "__proto__" →
                 has_own own' (desc_name d) = true)) as Hall.
  { intros cs Hr Hcs Hfinal.
    destruct (inject_all_effect r cs s t p own s' Ht) as (own' & Hch & Hkeep & Hin);
      [apply Hpl; by destruct r | done |].
    exists own'. split_and!; [done..|].
    intros t' Hret d Hd _. apply mapM_Some_1 in Hcs.
    apply list_elem_of_lookup_1 in Hd as [i Hi].
    destruct (Forall2_lookup_l _ _ _ _ _ Hcs Hi) as (c & Hc & Hdc).
    destruct d as [c0|? ?]; [|done]. injection Hdc as ->.
    eapply Hin; [done|]. by eapply list_elem_of_lookup_2. }
  destruct r; unfold inject.
  - destruct (mapM class_of ds) as [cs|] eqn:Hcs; [by apply Hall | done].
  - destruct (mapM class_of ds) as [cs|] eqn:Hcs; [by apply Hall | done].
  - destruct ds as [|d [|? ?]]; try done. by apply Hone.
  - destruct ds as [|d [|? ?]]; try done. by apply Hone.
  - destruct ds as [|[c|? ?] [|? ?]]; try done.
    intros Hfinal.
    destruct (inject_all_effect ClassOnly [c] s t p own s' Ht) as (own' & Hch & Hkeep & Hin).
    + by apply Hpl.
    + cbn [inject_all]. unfold bind. by destruct (inject_class ClassOnly t c s).
    + exists own'. split_and!; [done..|].
      intros t' Hret d ->%list_elem_of_singleton _. apply (Hin t'); [|by left].
      cbn [inject_all]. unfold bind. by rewrite Hret.
Qed.

(** X18. A merge is a snapshot of the source.  After a merge that
    succeeded, let the source register further services (a call of
    [inject] on the source, whatever its arguments and its outcome).
    The target is exactly as the merge left it, while the source has
    every service that the call registered under a name other than
    [__proto__] (that name gives the source a new prototype and no
    entry).  So a name that neither container had at the time of the
    merge is not a name of the target afterwards ([target[n]] and
    [n in target] find at most what the target inherits), even when
    the source has it now: in [Forwarding], too, the getters forward
    the keys that the source had when it was merged, and no others. *)
Theorem X18_a_merge_is_a_snapshot r s t other pt ownt po owno s1 ds s2 :
  heap s !! t = Some (OOrd pt ownt) →
  heap s !! other = Some (OOrd po owno) →
  mergeable r t other pt ownt owno → t ≠ other →
  injectContainer r t other s = Ret t s1 →
  final_state (inject r other ds s1) = Some s2 →
  heap s2 !! t = heap s1 !! t ∧
  (∀ t', inject r other ds s1 = Ret t' s2 →
     ∀ d, d ∈ ds → desc_name d ≠ "__proto__" →
       js_has r (VRef other) (desc_name d) s2 = Ret true s2) ∧
  (∀ n, has_own ownt n = false → has_own owno n = false →
     js_get r (VRef t) n s2 = Ret (proto_get pt n) s2 ∧
     js_has r (VRef t) n s2 = Ret (proto_has pt n) s2).
Proof.
  intros Ht Ho Hm Hne Hmerge Hfinal.
  rewrite (injectContainer_closed_form r s t other pt ownt po owno Ht Ho Hm)
    in Hmerge.
  unfold injectContainer_outcome in Hmerge.
  destruct (find (clashes r pt ownt) (own_keys owno)) eqn:Hfind; [done|].
  injection Hmerge as <-.
  pose proof (merged_state_target r s t other pt ownt po owno Ht) as Ht1.
  set (s1 := merged_state r s t other pt ownt po owno) in *.
  assert (heap s1 !! other = Some (OOrd po owno)) as Ho1.
  { unfold s1. rewrite merged_state_other by done. exact Ho. }
  assert (r ≠ Forwarding → plain owno) as Hplo.
  { intros Hr. by destruct (mergeable_source_plain _ _ _ _ _ _ Hm). }
  destruct (inject_effect r s1 other po owno ds s2 Ho1 Hplo Hfinal)
    as (own' & (Hlen & Hframe & o2 & Ho2 & He2) & Hkeep & Hall).
  assert (heap s2 !! t = heap s1 !! t) as Ht2.
  { apply Hframe; [done | by eapply lookup_lt_Some]. }
  split_and!.
  - exact Ht2.
  - intros t' Hret d Hd Hname. unfold js_has. rewrite Ho2.
    specialize (Hall t' Hret d Hd Hname). unfold has_own in Hall.
    destruct o2; simplify_eq/=; by destruct (own_lookup (desc_name d) own').
  - intros n Hnt Hno. rewrite Ht1 in Ht2.
    assert (own_lookup n (merged r other po owno ownt) = None) as Hn.
    { unfold has_own in *. rewrite merged_lookup_target.
      - by destruct (own_lookup n ownt).
      - by destruct (own_lookup n owno). }
    split; [by eapply js_get_inherited|]. unfold js_has. by rewrite Ht2, Hn.
Qed.

Lemma X18_witness :
  ∃ s1 s2,
    injectContainer Forwarding 0 2 two_containers = Ret 0 s1 ∧
    inject Forwarding 2 [DClass ServiceC] s1 = Ret 2 s2 ∧
    js_has Forwarding (VRef 2) "c" s2 = Ret true s2 ∧
    js_get Forwarding (VRef 0) "c" s2 = Ret VUndef s2 ∧
    js_has Forwarding (VRef 0) "c" s2 = Ret false s2.
Proof.
  set (s1 := merged_state Forwarding two_containers 0 2 ProtoContainer
               [("b", SData (VRef 1))] ProtoContainer [("a", SData (VRef 3))]).
  set (s2 := registered_state s1 2 ProtoContainer [("a", SData (VRef 3))]
               (DClass ServiceC)).
  exists s1, s2.
  split; [reflexivity|]. split; [reflexivity|].
  destruct (X18_a_merge_is_a_snapshot Forwarding two_containers 0 2
              ProtoContainer [("b", SData (VRef 1))]
              ProtoContainer [("a", SData (VRef 3))] s1 [DClass ServiceC] s2
              eq_refl eq_refl) as (_ & Hsource & Htarget).
  - split; [apply (bool_decide_unpack _); reflexivity | exact I].
  - done.
  - reflexivity.
  - reflexivity.
  - split; [exact (Hsource 2 eq_refl (DClass ServiceC) ltac:(by left) ltac:(done))|].
    exact (Htarget "c" eq_refl eq_refl).
Defined.
